(** * The Cinder collector: a shallow embedding of [collector/collector.go]

    The development follows the Go source function by function:
    [authenticate], [getTenants] and [CollectMetrics] (its first loop is
    [plan_loop], its two blocks are [admin_phase] and [limits_phase], its
    last loop is [projection]), and [GetMetricTypes].  [GetConfigPolicy]
    and [Meta] only call constructors of the host library and are not part
    of it.

    - Maps ([map[string]T]) are stdpp [gmap]s; reading a missing key gives
      the zero value, as in Go.
    - A Go call ends in one of four ways ([Outcome]): it returns, it returns
      a non-nil error, it panics (index out of range, failed type assertion,
      method call on a nil service), or it never returns because a goroutine
      is blocked on a full channel.
    - The collector talks to OpenStack through the packages [openstack] and
      [openstack/services].  Those calls, the wall clock, the iteration
      order of Go maps and the goroutine scheduler are outside the program's
      control: they form an environment [Env] over an abstract world [W]
      that is threaded through every call.  Every collaborator call and
      every goroutine launch is recorded in a trace.
    - Goroutines: the body of a goroutine runs in one piece, at a moment the
      scheduler chooses, either at a preemption point of the launching
      goroutine (after each [go] statement) or at [done.Wait()].  Accesses
      to shared variables are sequentially consistent; the unsynchronised
      accesses of the source to [c.allLimits], [c.service] and the maps of
      a call are data races in Go's memory model, outside this model. *)

From Stdlib Require Import String List Arith Lia.
From stdpp Require Import base option list gmap strings fin_maps.

Open Scope string_scope.
Open Scope list_scope.

(** ** Go errors

    [error] values created by the collector itself and by its libraries. *)
Inductive error : Type :=
| ErrNamespaceLength (len : nat)
    (* fmt.Errorf("Incorrect namespace lenth. Expected 6 is %d", len(namespace)) *)
| ErrConfigItem (name : string)
    (* the error of config.GetConfigItem / config.GetConfigItems for a missing item *)
| ErrCollaborator (msg : string).
    (* any error produced by the openstack packages (identity, directory, fetchers) *)

(** ** Types owned by other packages

    [types.Limits], [types.Volumes], [types.Snapshots] (package [types] of
    this repository), [gophercloud.ProviderClient], [services.Service] and
    the value extraction [ns.GetValueByNamespace] are used, never inspected,
    by the collector: they are parameters of the development. *)
Class Domain : Type := {
  ProviderClient : Type;
  nilProvider : ProviderClient;   (* what [c.providers[t]] reads for a missing key *)
  Service : Type;
  Dispatch : ProviderClient -> Service;   (* services.Dispatch *)
  Limits : Type;
  zeroLimits : Limits;            (* types.Limits{} *)
  Volumes : Type;
  zeroVolumes : Volumes;
  Snapshots : Type;
  zeroSnapshots : Snapshots;
  Data : Type;                    (* interface{} held by Data_ *)
  time_Time : Type;               (* time.Time *)
  (* ns.GetValueByNamespace(struct{S; V; L}, path) *)
  GetValueByNamespace : Snapshots * Volumes * Limits -> list string -> Data
}.

(** ** plugin.MetricType *)

(* core.NamespaceElement *)
Record NamespaceElement : Type := {
  Value : string;
  Description : string;
  Name : string
}.

(* a value of the configuration table, read back as interface{} *)
Inductive ConfigValue : Type :=
| CfgStr (s : string)
| CfgInt (n : nat)
| CfgBool (b : bool).

(* the fields of plugin.MetricType the collector reads or sets *)
Record MetricType `{Domain} : Type := {
  Namespace_ : list NamespaceElement;
  Config_ : gmap string ConfigValue;
  Data_ : Data;
  Timestamp_ : time_Time
}.

(* core.Namespace.Strings *)
Definition Strings (ns : list NamespaceElement) : list string := map Value ns.

(* core.NewNamespace, for building requests *)
Definition NewNamespace (segs : list string) : list NamespaceElement :=
  map (fun v => {| Value := v; Description := ""; Name := "" |}) segs.

(* str.Contains of snap-plugin-utilities: the slice has an element equal to [lookup] *)
Definition Contains (slice : list string) (lookup : string) : bool :=
  existsb (String.eqb lookup) slice.

(* config.GetConfigItem on a plugin.MetricType *)
Definition GetConfigItem `{Domain} (cfg : MetricType) (name : string)
  : error + ConfigValue :=
  match Config_ cfg !! name with
  | Some v => inr v
  | None => inl (ErrConfigItem name)
  end.

(* config.GetConfigItems: every item, or the error of the first missing one *)
Fixpoint GetConfigItems `{Domain} (cfg : MetricType) (names : list string)
  : error + gmap string ConfigValue :=
  match names with
  | [] => inr ∅
  | name :: rest =>
      match GetConfigItem cfg name with
      | inl e => inl e
      | inr v =>
          match GetConfigItems cfg rest with
          | inl e => inl e
          | inr items => inr (<[name := v]> items)
          end
      end
  end.

(** ** Goroutines, events and the environment *)

(* the three goroutine bodies of CollectMetrics, with their captured values *)
Inductive Task `{Domain} : Type :=
| VolumesTask (provider : ProviderClient)
| SnapshotsTask (provider : ProviderClient)
| LimitsTask (p : ProviderClient) (t : string).

Inductive Event `{Domain} : Type :=
| EvGetTenants (endpoint user password domain_name domain_id : string)
    (r : error + gmap string string)
| EvAuthenticate (endpoint user password tenant domain_name domain_id : string)
    (r : error + ProviderClient)
| EvGetVolumes (provider : ProviderClient)
    (r : list (string * Volumes) * option error)
| EvGetSnapshots (provider : ProviderClient)
    (r : list (string * Snapshots) * option error)
| EvGetLimits (t : string) (p : ProviderClient) (r : Limits * option error)
| EvGo (task : Task).

(* the events that reach a collaborator over the network *)
Definition is_network `{Domain} (ev : Event) : bool :=
  match ev with
  | EvGo _ => false
  | _ => true
  end.

(** The collaborators.  A fetcher returns its value together with its error,
    as the Go functions do; a map returned by a fetcher is given as the list
    of its entries in the order [range] visits them.  [sched_choose n] is a
    choice of the runtime among [n] alternatives. *)
Class Env `{Domain} (W : Type) : Type := {
  openstack_Authenticate :
    string -> string -> string -> string -> string -> string ->
    W -> (error + ProviderClient) * W;
  Common_GetTenants :
    string -> string -> string -> string -> string ->
    W -> (error + gmap string string) * W;
  Service_GetVolumes :
    Service -> ProviderClient -> W -> (list (string * Volumes) * option error) * W;
  Service_GetSnapshots :
    Service -> ProviderClient -> W -> (list (string * Snapshots) * option error) * W;
  Service_GetLimits :
    Service -> ProviderClient -> W -> (Limits * option error) * W;
  time_Now : W -> time_Time * W;
  sched_choose : nat -> W -> nat * W
}.

(** ** The collector and the state of a run *)

Inductive Commoner : Type := Common.   (* openstackintel.Common{} *)

Record collector `{Domain} : Type := {
  allTenants : gmap string string;
  service : option Service;            (* None: the zero value left by New *)
  common : option Commoner;
  allLimits : gmap string Limits;
  providers : gmap string ProviderClient
}.

(* New creates initialized instance of Cinder collector *)
Definition New `{Domain} : collector :=
  {| allTenants := ∅; service := None; common := None;
     allLimits := ∅; providers := ∅ |}.

(* a buffered channel of errors: make(chan error, cap) *)
Record chan : Type := { cap : nat; buf : list error }.

Definition make_chan (n : nat) : chan := {| cap := n; buf := [] |}.

(** The state a run acts on: the collector [c], the world, the trace, and
    the variables local to a CollectMetrics call that its goroutines
    capture ([allSnapshots], [allVolumes], [errChn], and the goroutines a
    [sync.WaitGroup] still waits for). *)
Record State `{Domain} (W : Type) : Type := {
  c : collector;
  world : W;
  trace : list Event;
  allSnapshots : gmap string Snapshots;
  allVolumes : gmap string Volumes;
  errChn : chan;
  done : list Task
}.
Arguments c {_ _} _.
Arguments world {_ _} _.
Arguments trace {_ _} _.
Arguments allSnapshots {_ _} _.
Arguments allVolumes {_ _} _.
Arguments errChn {_ _} _.
Arguments done {_ _} _.

(* how a Go call ends: normal return, return of a non-nil error, run-time
   panic, or a goroutine blocked for ever on a full channel *)
Inductive Outcome (A : Type) : Type :=
| Ok (a : A)
| Err (e : error)
| Panic
| Blocked.
Arguments Ok {A} a.
Arguments Err {A} e.
Arguments Panic {A}.
Arguments Blocked {A}.

(** ** Reading the configuration

    [authenticate] and [getTenants] start with the same lines: the three
    required items, then the two optional ones. *)

Definition obind {A B} (r : Outcome A) (k : A -> Outcome B) : Outcome B :=
  match r with
  | Ok a => k a
  | Err e => Err e
  | Panic => Panic
  | Blocked => Blocked
  end.

(* item.(string): panics unless the interface value holds a string *)
Definition type_assert_string (item : option ConfigValue) : Outcome string :=
  match item with
  | Some (CfgStr s) => Ok s
  | _ => Panic
  end.

(* dom, _ := config.GetConfigItem(cfg, name); if dom != nil { x = dom.(string) } *)
Definition optional_string `{Domain} (cfg : MetricType) (name : string) : Outcome string :=
  match GetConfigItem cfg name with
  | inr v => type_assert_string (Some v)
  | inl _ => Ok ""
  end.

Record Credentials : Type := {
  endpoint : string;
  user : string;
  password : string;
  domain_name : string;
  domain_id : string
}.

(* get credentials and endpoint from configuration *)
Definition credentials `{Domain} (cfg : MetricType) : Outcome Credentials :=
  match GetConfigItems cfg ["endpoint"; "user"; "password"] with
  | inl err => Err err
  | inr items =>
      obind (type_assert_string (items !! "endpoint")) (fun endpoint =>
      obind (type_assert_string (items !! "user")) (fun user =>
      obind (type_assert_string (items !! "password")) (fun password =>
      obind (optional_string cfg "domain_name") (fun domain_name =>
      obind (optional_string cfg "domain_id") (fun domain_id =>
      Ok {| endpoint := endpoint; user := user; password := password;
            domain_name := domain_name; domain_id := domain_id |})))))
  end.

Section Collector.
Context `{D : Domain} {W : Type} {E : Env W}.

(** ** A state and error monad for Go code *)

Definition M (A : Type) : Type := State W -> Outcome A * State W.

Definition ret {A} (a : A) : M A := fun s => (Ok a, s).

Definition bind {A B} (m : M A) (k : A -> M B) : M B :=
  fun s =>
    match m s with
    | (Ok a, s') => k a s'
    | (Err e, s') => (Err e, s')
    | (Panic, s') => (Panic, s')
    | (Blocked, s') => (Blocked, s')
    end.

Notation "x <- m ;; k" := (bind m (fun x => k))
  (at level 100, m at next level, right associativity).

(* return nil, err *)
Definition fail {A} (e : error) : M A := fun s => (Err e, s).
Definition panic {A} : M A := fun s => (Panic, s).

(* v, err := f(...); if err != nil { return nil, err } *)
Definition lift_result {A} (r : error + A) : M A :=
  match r with
  | inl e => fail e
  | inr a => ret a
  end.

Definition lift_outcome {A} (r : Outcome A) : M A := fun s => (r, s).

Definition get_c : M collector := fun s => (Ok (c s), s).

Definition set_c (f : collector -> collector) : M unit :=
  fun s =>
    (Ok tt, {| c := f (c s); world := world s; trace := trace s;
               allSnapshots := allSnapshots s; allVolumes := allVolumes s;
               errChn := errChn s; done := done s |}).

(* a call to a collaborator: the world answers, the trace records it *)
Definition call {A} (f : W -> A * W) (ev : A -> Event) : M A :=
  fun s =>
    let (r, w') := f (world s) in
    (Ok r, {| c := c s; world := w'; trace := trace s ++ [ev r];
              allSnapshots := allSnapshots s; allVolumes := allVolumes s;
              errChn := errChn s; done := done s |}).

(* a question to the runtime (clock, scheduler): the world answers, nothing is recorded *)
Definition ask {A} (f : W -> A * W) : M A :=
  fun s =>
    let (r, w') := f (world s) in
    (Ok r, {| c := c s; world := w'; trace := trace s;
              allSnapshots := allSnapshots s; allVolumes := allVolumes s;
              errChn := errChn s; done := done s |}).

Definition log (ev : Event) : M unit :=
  fun s =>
    (Ok tt, {| c := c s; world := world s; trace := trace s ++ [ev];
               allSnapshots := allSnapshots s; allVolumes := allVolumes s;
               errChn := errChn s; done := done s |}).

Definition set_allSnapshots (m : gmap string Snapshots) : M unit :=
  fun s =>
    (Ok tt, {| c := c s; world := world s; trace := trace s;
               allSnapshots := m; allVolumes := allVolumes s;
               errChn := errChn s; done := done s |}).

Definition set_allVolumes (m : gmap string Volumes) : M unit :=
  fun s =>
    (Ok tt, {| c := c s; world := world s; trace := trace s;
               allSnapshots := allSnapshots s; allVolumes := m;
               errChn := errChn s; done := done s |}).

Definition set_errChn (ch : chan) : M unit :=
  fun s =>
    (Ok tt, {| c := c s; world := world s; trace := trace s;
               allSnapshots := allSnapshots s; allVolumes := allVolumes s;
               errChn := ch; done := done s |}).

Definition set_done (pool : list Task) : M unit :=
  fun s =>
    (Ok tt, {| c := c s; world := world s; trace := trace s;
               allSnapshots := allSnapshots s; allVolumes := allVolumes s;
               errChn := errChn s; done := pool |}).

(** ** authenticate and getTenants *)

Definition authenticate (cfg : MetricType) (tenant : string) : M unit :=
  cur <- get_c ;;
  match providers cur !! tenant with
  | Some _ => ret tt
  | None =>
      cr <- lift_outcome (credentials cfg) ;;
      r <- call (openstack_Authenticate (endpoint cr) (user cr) (password cr) tenant
                   (domain_name cr) (domain_id cr))
                (EvAuthenticate (endpoint cr) (user cr) (password cr) tenant
                   (domain_name cr) (domain_id cr)) ;;
      match r with
      | inl err => fail err
      | inr provider =>
          (* set provider and dispatch API version, set Commoner interface *)
          set_c (fun cur =>
                   {| allTenants := allTenants cur;
                      service := Some (Dispatch provider);
                      common := Some Common;
                      allLimits := allLimits cur;
                      providers := <[tenant := provider]> (providers cur) |})
      end
  end.

Definition getTenants (cfg : MetricType) : M (gmap string string) :=
  cr <- lift_outcome (credentials cfg) ;;
  r <- call (Common_GetTenants (endpoint cr) (user cr) (password cr)
               (domain_name cr) (domain_id cr))
            (EvGetTenants (endpoint cr) (user cr) (password cr)
               (domain_name cr) (domain_id cr)) ;;
  lift_result r.

(** ** Channels, goroutines and the wait group *)

(* errChn <- err: a send on a full buffered channel never returns *)
Definition send (err : error) : M unit :=
  fun s =>
    let ch := errChn s in
    if decide (length (buf ch) < cap ch)
    then set_errChn {| cap := cap ch; buf := buf ch ++ [err] |} s
    else (Blocked, s).

(* if err != nil { errChn <- err } *)
Definition send_if_error (err : option error) : M unit :=
  match err with
  | Some e => send e
  | None => ret tt
  end.

(* c.service.GetX(...): a method call on the zero value left by New panics *)
Definition get_service : M Service :=
  cur <- get_c ;;
  match service cur with
  | Some svc => ret svc
  | None => panic
  end.

(* for tenantId, volumeCount := range volumes { allVolumes[c.allTenants[tenantId]] = volumeCount } *)
Fixpoint store_volumes (volumes : list (string * Volumes)) : M unit :=
  match volumes with
  | [] => ret tt
  | (tenantId, volumeCount) :: rest =>
      cur <- get_c ;;
      let tenantName := default "" (allTenants cur !! tenantId) in
      fun s => (_ <- set_allVolumes (<[tenantName := volumeCount]> (allVolumes s)) ;;
                store_volumes rest) s
  end.

Fixpoint store_snapshots (snapshots : list (string * Snapshots)) : M unit :=
  match snapshots with
  | [] => ret tt
  | (tenantId, snapshotCount) :: rest =>
      cur <- get_c ;;
      let tenantName := default "" (allTenants cur !! tenantId) in
      fun s => (_ <- set_allSnapshots (<[tenantName := snapshotCount]> (allSnapshots s)) ;;
                store_snapshots rest) s
  end.

(* the body of a goroutine, run in one piece *)
Definition run_task (task : Task) : M unit :=
  match task with
  | VolumesTask provider =>
      svc <- get_service ;;
      r <- call (Service_GetVolumes svc provider) (EvGetVolumes provider) ;;
      _ <- send_if_error (snd r) ;;
      store_volumes (fst r)
  | SnapshotsTask provider =>
      svc <- get_service ;;
      r <- call (Service_GetSnapshots svc provider) (EvGetSnapshots provider) ;;
      _ <- send_if_error (snd r) ;;
      store_snapshots (fst r)
  | LimitsTask p t =>
      svc <- get_service ;;
      r <- call (Service_GetLimits svc p) (EvGetLimits t p) ;;
      _ <- send_if_error (snd r) ;;
      set_c (fun cur =>
               {| allTenants := allTenants cur;
                  service := service cur;
                  common := common cur;
                  allLimits := <[t := fst r]> (allLimits cur);
                  providers := providers cur |})
  end.

(* the i-th element of a list, and the list without it *)
Fixpoint take_nth {A} (i : nat) (l : list A) : option (A * list A) :=
  match l, i with
  | [], _ => None
  | x :: rest, 0 => Some (x, rest)
  | x :: rest, S j =>
      match take_nth j rest with
      | Some (y, rest') => Some (y, x :: rest')
      | None => None
      end
  end.

(* a launched goroutine gets the processor: it leaves the pool and runs *)
Definition resume (task : Task) (rest : list Task) : M unit :=
  _ <- set_done rest ;;
  run_task task.

(** A preemption point of the launching goroutine: the scheduler runs some
    of the goroutines that were launched and have not run yet, in an order
    of its choice (an answer that names no pending goroutine gives control
    back). *)
Fixpoint run_some (fuel : nat) : M unit :=
  match fuel with
  | 0 => ret tt
  | S fuel' =>
      fun s =>
        (i <- ask (sched_choose (S (length (done s)))) ;;
         match take_nth i (done s) with
         | Some (task, rest) => _ <- resume task rest ;; run_some fuel'
         | None => ret tt
         end) s
  end.

Definition preempt : M unit := fun s => run_some (length (done s)) s.

(* done.Add(1); go func() { defer done.Done(); ... }() *)
Definition go (task : Task) : M unit :=
  _ <- log (EvGo task) ;;
  _ <- (fun s => set_done (done s ++ [task]) s) ;;
  preempt.

Fixpoint run_all (fuel : nat) : M unit :=
  match fuel with
  | 0 => ret tt
  | S fuel' =>
      fun s =>
        match done s with
        | [] => ret tt s
        | _ :: _ =>
            (i <- ask (sched_choose (length (done s))) ;;
             match take_nth (i mod length (done s)) (done s) with
             | Some (task, rest) => _ <- resume task rest ;; run_all fuel'
             | None => ret tt
             end) s
        end
  end.

(* done.Wait(): every launched goroutine runs, in an order the scheduler chooses *)
Definition Wait : M unit := fun s => run_all (length (done s)) s.

(* close(errChn); if e := <-errChn; e != nil { return nil, e } *)
Definition close_and_receive : M unit :=
  fun s =>
    match buf (errChn s) with
    | e :: _ => (Err e, s)
    | [] => (Ok tt, s)
    end.

(** ** str.StringSet

    The set is backed by a Go map: [Elements] lists it in the order the
    runtime iterates over that map. *)
Fixpoint pick_order {A} (fuel : nat) (l : list A) : M (list A) :=
  match fuel with
  | 0 => ret []
  | S fuel' =>
      match l with
      | [] => ret []
      | _ :: _ =>
          i <- ask (sched_choose (length l)) ;;
          match take_nth (i mod length l) l with
          | Some (x, rest) => xs <- pick_order fuel' rest ;; ret (x :: xs)
          | None => ret []
          end
      end
  end.

Definition Elements (set : gset string) : M (list string) :=
  pick_order (length (elements set)) (elements set).

(** ** CollectMetrics *)

(* what the first loop of CollectMetrics computes *)
Record Plan : Type := {
  collectTenants : gset string;
  collectLimits : bool;
  collectVolumes : bool;
  collectSnapshots : bool
}.

Definition empty_plan : Plan :=
  {| collectTenants := ∅; collectLimits := false;
     collectVolumes := false; collectSnapshots := false |}.

(* iterate over metric types to resolve needed collection calls for requested tenants *)
Fixpoint plan_loop (metricTypes : list MetricType) (p : Plan) : Outcome Plan :=
  match metricTypes with
  | [] => Ok p
  | metricType :: rest =>
      let namespace := Namespace_ metricType in
      if decide (length namespace < 6)
      then Err (ErrNamespaceLength (length namespace))
      else
        match namespace !! 3 with
        | None => Panic
        | Some element =>
            let tenant := Value element in
            let tenants := {[tenant]} ∪ collectTenants p in
            plan_loop rest
              (if Contains (Strings namespace) "limits"
               then {| collectTenants := tenants; collectLimits := true;
                       collectVolumes := collectVolumes p;
                       collectSnapshots := collectSnapshots p |}
               else if Contains (Strings namespace) "volumes"
               then {| collectTenants := tenants; collectLimits := collectLimits p;
                       collectVolumes := true;
                       collectSnapshots := collectSnapshots p |}
               else {| collectTenants := tenants; collectLimits := collectLimits p;
                       collectVolumes := collectVolumes p;
                       collectSnapshots := true |})
        end
  end.

(* collect volumes and snapshots separately by authenticating to admin *)
Definition admin_phase (cfg : MetricType) (admin : string) (p : Plan) : M unit :=
  _ <- authenticate cfg admin ;;
  cur <- get_c ;;
  let provider := default nilProvider (providers cur !! admin) in
  _ <- set_done [] ;;
  _ <- set_errChn (make_chan 2) ;;
  _ <- (if collectVolumes p then go (VolumesTask provider) else ret tt) ;;
  _ <- (if collectSnapshots p then go (SnapshotsTask provider) else ret tt) ;;
  _ <- Wait ;;
  close_and_receive.

(* for _, tenant := range collectTenants.Elements() { ... } *)
Fixpoint limits_loop (cfg : MetricType) (collectLimits : bool) (tenants : list string)
  : M unit :=
  match tenants with
  | [] => ret tt
  | tenant :: rest =>
      cur <- get_c ;;
      let found := bool_decide (is_Some (allLimits cur !! tenant)) in
      _ <- (if collectLimits && negb found
            then
              _ <- authenticate cfg tenant ;;
              cur <- get_c ;;
              let provider := default nilProvider (providers cur !! tenant) in
              go (LimitsTask provider tenant)
            else ret tt) ;;
      limits_loop cfg collectLimits rest
  end.

(** Collect limits per each tenant only if not already collected.  When
    [authenticate] fails inside the loop the call returns at once; the
    goroutines launched before are not cancelled and run to completion:
    the model lets them finish before the state is observed again. *)
Definition limits_phase (cfg : MetricType) (p : Plan) : M unit :=
  _ <- set_done [] ;;
  _ <- set_errChn (make_chan (size (collectTenants p))) ;;
  tenants <- Elements (collectTenants p) ;;
  fun s =>
    match limits_loop cfg (collectLimits p) tenants s with
    | (Ok _, s') => (_ <- Wait ;; close_and_receive) s'
    | (Err e, s') => (_ <- Wait ;; fail e) s'
    | other => other
    end.

(* the temporary struct {S; V; L} built for [tenant] *)
Definition metricContainer (s : State W) (tenant : string)
  : Snapshots * Volumes * Limits :=
  (default zeroSnapshots (allSnapshots s !! tenant),
   default zeroVolumes (allVolumes s !! tenant),
   default zeroLimits (allLimits (c s) !! tenant)).

(* extract values by namespace from the temporary struct and create metrics *)
Fixpoint projection (metricTypes : list MetricType) : M (list MetricType) :=
  match metricTypes with
  | [] => ret []
  | metricType :: rest =>
      let namespace := Strings (Namespace_ metricType) in
      match namespace !! 3 with
      | None => panic
      | Some tenant =>
          now <- ask time_Now ;;
          fun s =>
            let metric :=
              {| Timestamp_ := now;
                 Namespace_ := Namespace_ metricType;
                 Data_ := GetValueByNamespace (metricContainer s tenant) (drop 4 namespace);
                 Config_ := ∅ |} in
            (metrics <- projection rest ;; ret (metric :: metrics)) s
      end
  end.

(* populate information about all available tenants:
   if len(c.allTenants) == 0 { c.allTenants, err = getTenants(metricTypes[0]); ... }
   (on error the map is assigned nil: it stays empty) *)
Definition populate_tenants (first : MetricType) : M unit :=
  cur <- get_c ;;
  if decide (size (allTenants cur) = 0)
  then
    tenants <- getTenants first ;;
    set_c (fun cur =>
             {| allTenants := tenants; service := service cur;
                common := common cur; allLimits := allLimits cur;
                providers := providers cur |})
  else ret tt.

(* CollectMetrics returns list of requested metric values;
   [Err e] is the return of [nil, e] *)
Definition CollectMetrics (metricTypes : list MetricType) : M (list MetricType) :=
  match metricTypes with
  | [] => panic                                   (* metricTypes[0]: index out of range *)
  | first :: _ =>
      (* get admin tenant from configuration *)
      item <- lift_result (GetConfigItem first "tenant") ;;
      admin <- lift_outcome (type_assert_string (Some item)) ;;
      _ <- populate_tenants first ;;
      p <- lift_outcome (plan_loop metricTypes empty_plan) ;;
      _ <- set_allSnapshots ∅ ;;
      _ <- set_allVolumes ∅ ;;
      _ <- admin_phase first admin p ;;
      _ <- limits_phase first p ;;
      projection metricTypes
  end.

(** Successive collection cycles on one engine instance: the host calls
    CollectMetrics again and again; a panic or a blocked call ends the
    process. *)
Fixpoint run_calls (calls : list (list MetricType)) (s : State W) : State W :=
  match calls with
  | [] => s
  | metricTypes :: rest =>
      match CollectMetrics metricTypes s with
      | (Ok _, s') => run_calls rest s'
      | (Err _, s') => run_calls rest s'
      | (_, s') => s'
      end
  end.

End Collector.

(** * GetMetricTypes

    The catalogue of the metrics the plugin can collect: one namespace per
    tenant of the directory and per leaf of the struct
    [{S types.Snapshots; V types.Volumes; L types.Limits}]. *)

(* plugin.ConfigType: the configuration the host passes to GetMetricTypes *)
Record ConfigType : Type := {
  ConfigDataNode : gmap string ConfigValue
}.

(** What GetMetricTypes takes from other packages: the zero values of the
    fields of a [plugin.MetricType] it leaves unset, and
    [ns.FromCompositionTags], which walks the tags of the struct
    [{S; V; L}]: for a prefix [current] it gives the namespaces it appends
    to the slice (its error is ignored by the collector). *)
Class Schema `{Domain} : Type := {
  nilData : Data;                 (* a nil interface{} *)
  zeroTime : time_Time;           (* time.Time{} *)
  FromCompositionTags : string -> list string
}.

(* the byte of the separator "/" *)
Definition slash : Ascii.ascii := Ascii.Ascii true true true true false true false false.

(* strings.Join *)
Definition Join (elems : list string) (sep : string) : string :=
  String.concat sep elems.

(* strings.Split for a separator of one byte: the substrings between the
   separators, [""] included; never the empty slice *)
Fixpoint Split (s : string) (sep : Ascii.ascii) : list string :=
  match s with
  | EmptyString => [""]
  | String a rest =>
      if Ascii.eqb a sep
      then "" :: Split rest sep
      else match Split rest sep with
           | first :: others => String a first :: others
           | [] => [String a ""]
           end
  end.

Section Catalogue.
Context `{D : Domain} {W : Type} {E : Env W} {S : Schema}.

Local Abbreviation M := (@M D W).

Notation "x <- m ;; k" := (bind m (fun x => k))
  (at level 100, m at next level, right associativity).

(* config.GetConfigItems reads the table of a plugin.ConfigType as it reads
   the table of a plugin.MetricType: [getTenants] sees the ConfigType as a
   metric type that carries its table *)
Definition as_MetricType (cfg : ConfigType) : MetricType :=
  {| Namespace_ := []; Config_ := ConfigDataNode cfg;
     Data_ := nilData; Timestamp_ := zeroTime |}.

(* c.allTenants = tenants *)
Definition set_allTenants (tenants : gmap string string) : M unit :=
  set_c (fun cur =>
           {| allTenants := tenants; service := service cur; common := common cur;
              allLimits := allLimits cur; providers := providers cur |}).

(* the namespaces generated for the tenants in the order [range] visits them:
   current := strings.Join([]string{vendor, fs, name, tenantName}, "/") *)
Definition tenant_namespaces (entries : list (string * string)) : list string :=
  flat_map (fun entry =>
              FromCompositionTags (Join ["intel"; "openstack"; "cinder"; snd entry] "/"))
           entries.

(* plugin.MetricType{Namespace_: core.NewNamespace(strings.Split(namespace, "/")...),
                     Config_: cfg.ConfigDataNode} *)
Definition catalogue_entry (cfg : ConfigType) (namespace : string) : MetricType :=
  {| Namespace_ := NewNamespace (Split namespace slash);
     Config_ := ConfigDataNode cfg;
     Data_ := nilData; Timestamp_ := zeroTime |}.

(* GetMetricTypes returns list of available metric types.
   [c.allTenants, err = getTenants(cfg)] assigns the directory whatever the
   result: on an error it is left nil *)
Definition GetMetricTypes (cfg : ConfigType) : M (list MetricType) :=
  fun s =>
    match getTenants (as_MetricType cfg) s with
    | (Ok tenants, s1) =>
        (_ <- set_allTenants tenants ;;
         cur <- get_c ;;
         entries <- pick_order (length (map_to_list (allTenants cur)))
                      (map_to_list (allTenants cur)) ;;
         ret (map (catalogue_entry cfg) (tenant_namespaces entries))) s1
    | (Err e, s1) => (_ <- set_allTenants ∅ ;; fail e) s1
    | (Panic, s1) => (Panic, s1)
    | (Blocked, s1) => (Blocked, s1)
    end.

End Catalogue.

(** * The vocabulary of the statements

    Predicates on events, goroutines and states in which the properties of
    the collector are stated and proved. *)

Section Vocabulary.
Context `{D : Domain} {W : Type} {E : Env W}.

Local Abbreviation M := (@M D W).

(* the outcome of a call that did not return normally, at another type *)
Definition abort {A B} (r : Outcome A) : Outcome B :=
  match r with
  | Ok _ => Panic
  | Err e => Err e
  | Panic => Panic
  | Blocked => Blocked
  end.

(* the state after a successful exchange for [tenant] *)
Definition store_session (tenant : string) (provider : ProviderClient) (cur : collector)
  : collector :=
  {| allTenants := allTenants cur;
     service := Some (Dispatch provider);
     common := Some Common;
     allLimits := allLimits cur;
     providers := <[tenant := provider]> (providers cur) |}.

(* the category the first loop of CollectMetrics files a namespace under *)
Definition wants_limits (mt : MetricType) : Prop :=
  "limits" ∈ Strings (Namespace_ mt).
Definition wants_volumes (mt : MetricType) : Prop :=
  ("limits" ∉ Strings (Namespace_ mt)) /\ ("volumes" ∈ Strings (Namespace_ mt)).
Definition wants_snapshots (mt : MetricType) : Prop :=
  ("limits" ∉ Strings (Namespace_ mt)) /\ ("volumes" ∉ Strings (Namespace_ mt)).

(* a namespace whose segment 4 is one of the three categories and none of
   whose other segments is spelled [limits] or [volumes] *)
Definition category_in_segment_4 (mt : MetricType) : Prop :=
  (exists category, Strings (Namespace_ mt) !! 4 = Some category /\
                    (category = "limits" \/ category = "volumes" \/
                     category = "snapshots")) /\
  forall i seg, Strings (Namespace_ mt) !! i = Some seg ->
                seg = "limits" \/ seg = "volumes" -> i = 4.

(* the errors a completed fetch puts on the error channel *)
Definition event_errors (ev : Event) : list error :=
  match ev with
  | EvGetVolumes _ (_, Some e) => [e]
  | EvGetSnapshots _ (_, Some e) => [e]
  | EvGetLimits _ _ (_, Some e) => [e]
  | _ => []
  end.

(* the write a completed fetch makes to the limits cache *)
Definition apply_limits (m : gmap string Limits) (ev : Event) : gmap string Limits :=
  match ev with
  | EvGetLimits t _ (limits, _) => <[t := limits]> m
  | _ => m
  end.

(* [ev] is the fetch that goroutine [task] performs *)
Definition fetch_event_of (task : Task) (ev : Event) : Prop :=
  match task, ev with
  | VolumesTask provider, EvGetVolumes provider' _ => provider' = provider
  | SnapshotsTask provider, EvGetSnapshots provider' _ => provider' = provider
  | LimitsTask p t, EvGetLimits t' p' _ => p' = p /\ t' = t
  | _, _ => False
  end.

(* two states that differ at most in the maps local to a call *)
Definition same_but_locals (s s' : State W) : Prop :=
  c s' = c s /\ world s' = world s /\ trace s' = trace s /\
  errChn s' = errChn s /\ done s' = done s.

(* the tenants whose limits fetch has completed, and those whose fetch is pending *)
Definition fetched (evs : list Event) : list string :=
  flat_map (fun ev => match ev with EvGetLimits t _ _ => [t] | _ => [] end) evs.

Definition pending (pool : list Task) : list string :=
  flat_map (fun task => match task with LimitsTask _ t => [t] | _ => [] end) pool.

(* the events a phase may produce when its goroutines all satisfy [T] *)
Definition phase_event (T : Task -> Prop) (ev : Event) : Prop :=
  match ev with
  | EvGetTenants _ _ _ _ _ _ => False
  | EvAuthenticate _ _ _ _ _ _ _ => True
  | EvGo task => T task
  | _ => exists task, T task /\ fetch_event_of task ev
  end.

(** The state of a phase that started in [s0] and has produced the events
    [new] so far: what the error channel and the limits cache hold is
    determined by the fetches completed so far, in completion order.
    [rem] are the tenants the launching loop has still to visit and [extra]
    bounds the goroutines it may still launch. *)
Record running (T : Task -> Prop) (s0 : State W) (rem : list string) (extra : nat)
    (s : State W) (new : list Event) : Prop := {
  run_service : is_Some (service (c s));
  run_trace : trace s = trace s0 ++ new;
  run_buf : buf (errChn s) = flat_map event_errors new;
  run_room : length (buf (errChn s)) + length (done s) + extra <= cap (errChn s);
  run_limits : allLimits (c s) = foldl apply_limits (allLimits (c s0)) new;
  run_pool : Forall T (done s);
  run_events : Forall (phase_event T) new;
  run_launched : forall task, EvGo task ∈ new ->
                 task ∈ done s \/ exists ev, ev ∈ new /\ fetch_event_of task ev;
  run_distinct : NoDup (fetched new ++ pending (done s) ++ rem)
}.

Definition admin_task (task : Task) : Prop :=
  match task with LimitsTask _ _ => False | _ => True end.

Definition limits_task (task : Task) : Prop :=
  match task with LimitsTask _ _ => True | _ => False end.

(* session-cache states reachable from New: a cached session implies a dispatched service *)
Definition wf (cur : collector) : Prop :=
  is_Some (service cur) \/ providers cur = ∅.

Definition is_GetTenants (ev : Event) : Prop :=
  match ev with EvGetTenants _ _ _ _ _ _ => True | _ => False end.

Definition admin_fetch (ev : Event) : Prop :=
  match ev with EvGetVolumes _ _ | EvGetSnapshots _ _ => True | _ => False end.

(* events of the directory listing and of credential exchanges *)
Definition quiet (ev : Event) : Prop :=
  match ev with
  | EvGetTenants _ _ _ _ _ _ | EvAuthenticate _ _ _ _ _ _ _ => True
  | _ => False
  end.

(* the metric value [projection] builds for request [mt] in state [s] *)
Definition projected (s : State W) (mt m : MetricType) : Prop :=
  Namespace_ m = Namespace_ mt /\
  (exists w, Timestamp_ m = fst (time_Now w)) /\
  exists tenant,
    Strings (Namespace_ mt) !! 3 = Some tenant /\
    Data_ m = GetValueByNamespace (metricContainer s tenant)
                (drop 4 (Strings (Namespace_ mt))).

(** The summary of a call for the requests [mts] that started in [s], ended
    in [s'] with outcome [r] and produced the events [new]. *)
Record call_summary (mts : list MetricType) (s : State W)
    (r : Outcome (list MetricType)) (s' : State W) (new : list Event) : Prop := {
  cs_trace : trace s' = trace s ++ new;
  cs_not_blocked : r <> Blocked;
  cs_wf : wf (c s');
  (* the cache is the old one overwritten by the completed limits fetches *)
  cs_limits : allLimits (c s') = foldl apply_limits (allLimits (c s)) new;
  cs_distinct : NoDup (fetched new);
  (* every volumes/snapshots goroutine launched has completed its fetch *)
  cs_admin_joined : forall task, admin_task task -> EvGo task ∈ new ->
                    exists ev, ev ∈ new /\ fetch_event_of task ev;
  cs_joined : r <> Panic -> forall task, EvGo task ∈ new ->
              exists ev, ev ∈ new /\ fetch_event_of task ev;
  cs_ok : forall out, r = Ok out -> flat_map event_errors new = [];
  (* once a limits fetch has completed, only the configuration can make the call panic *)
  cs_panic : r = Panic -> fetched new <> [] ->
             exists first rest, mts = first :: rest /\ credentials first = Panic;
  cs_admin_error : forall ev, ev ∈ new -> admin_fetch ev -> event_errors ev <> [] ->
                   fetched new = [] /\
                   exists e ev', r = Err e /\ ev' ∈ new /\ admin_fetch ev' /\
                                 e ∈ event_errors ev'
}.

(* goroutines and events that are not a limits fetch for tenant [t] *)
Definition task_avoids (t : string) (task : Task) : Prop :=
  match task with LimitsTask _ t' => t' <> t | _ => True end.

Definition event_avoids (t : string) (ev : Event) : Prop :=
  match ev with
  | EvGo task => task_avoids t task
  | EvGetLimits t' _ _ => t' <> t
  | _ => True
  end.

(* from [s] to [s'] the cache entry of [t] was not touched, and no limits
   fetch for [t] was launched or performed *)
Definition untouched (t : string) (s s' : State W) : Prop :=
  allLimits (c s') !! t = allLimits (c s) !! t /\
  exists new, trace s' = trace s ++ new /\ Forall (event_avoids t) new.

(* an action that keeps [I] and relates the states before and after by [R],
   however it ends *)
Definition step_ok (I : State W -> Prop) (R : State W -> State W -> Prop)
    {A} (m : M A) : Prop :=
  forall s r s', I s -> m s = (r, s') -> R s s' /\ I s'.

Definition pool_avoids (t : string) (s : State W) : Prop :=
  Forall (task_avoids t) (done s).

End Vocabulary.

(** ** The vocabulary of sessions and of the catalogue *)

(* no byte of [s] is the separator *)
Fixpoint free_of (sep : Ascii.ascii) (s : string) : Prop :=
  match s with
  | EmptyString => True
  | String a rest => a <> sep /\ free_of sep rest
  end.

Section Sessions.
Context `{D : Domain} {W : Type} {E : Env W}.

(* the items config.GetConfigItems is asked for *)
Definition required_items : list string := ["endpoint"; "user"; "password"].

(* [value] is what the lines reading an optional item leave in the variable:
   the string of the item, or the initial [""] when the item is absent *)
Definition optional_item (cfg : MetricType) (name value : string) : Prop :=
  Config_ cfg !! name = Some (CfgStr value) \/
  (Config_ cfg !! name = None /\ value = "").

(* the configuration items the collector reads *)
Definition config_items : list string :=
  "tenant" :: required_items ++ ["domain_name"; "domain_id"].

(* every item of [names] that the configuration holds is a string *)
Definition string_items (cfg : MetricType) (names : list string) : Prop :=
  forall name v, name ∈ names -> Config_ cfg !! name = Some v -> exists a, v = CfgStr a.

(* the state after the limits goroutine of [t] has stored [limits] *)
Definition store_limits (t : string) (limits : Limits) (cur : collector) : collector :=
  {| allTenants := allTenants cur;
     service := service cur;
     common := common cur;
     allLimits := <[t := limits]> (allLimits cur);
     providers := providers cur |}.

(** A way to follow a run.  [R] relates an earlier state of a run to a
    later one; [T s task] is what is known in state [s] of a goroutine that
    was launched and has not run yet; [J] is a fact about the engine that,
    once true, stays true; [A] is what is known of the admin tenant.  The
    fields say that [R] holds across each elementary step of the
    collector. *)
Record follows (J : State W -> Prop) (A : string -> Prop)
    (T : State W -> Task -> Prop) (R : State W -> State W -> Prop) : Prop := {
  fl_trans : forall s1 s2 s3, R s1 s2 -> R s2 s3 -> R s1 s3;
  fl_J : forall s s', R s s' -> J s -> J s';
  fl_T : forall s s' task, R s s' -> T s task -> T s' task;
  (* a step that changes neither the collector nor the trace *)
  fl_silent : forall s s', c s' = c s -> trace s' = trace s -> R s s';
  (* a goroutine is launched *)
  fl_go : forall s s' task,
    c s' = c s -> trace s' = trace s ++ [EvGo task] -> J s -> T s task -> R s s';
  (* a goroutine performs its fetch *)
  fl_fetch : forall s s' task ev,
    c s' = c s -> trace s' = trace s ++ [ev] -> fetch_event_of task ev ->
    J s -> T s task -> R s s';
  (* a limits goroutine stores what it fetched *)
  fl_store : forall s s' p t limits,
    c s' = store_limits t limits (c s) -> trace s' = trace s ->
    J s -> T s (LimitsTask p t) -> R s s';
  fl_authenticate : forall cfg tenant s r s',
    J s -> authenticate cfg tenant s = (r, s') -> R s s';
  fl_populate : forall first s r s',
    J s -> populate_tenants first s = (r, s') -> R s s';
  (* the goroutines the two phases launch *)
  fl_limits_task : forall s tenant provider,
    J s -> providers (c s) !! tenant = Some provider ->
    allLimits (c s) !! tenant = None -> T s (LimitsTask provider tenant);
  fl_admin_task : forall s admin provider,
    J s -> A admin -> providers (c s) !! admin = Some provider ->
    T s (VolumesTask provider) /\ T s (SnapshotsTask provider)
}.

(* [J] holds and every goroutine waiting to run satisfies [T] *)
Definition pool_ok (J : State W -> Prop) (T : State W -> Task -> Prop) (s : State W)
  : Prop :=
  J s /\ Forall (T s) (done s).

(** *** The session cache *)

(* the write a successful exchange makes to the session cache, and to the
   dispatched service *)
Definition apply_login (m : gmap string ProviderClient) (ev : Event)
  : gmap string ProviderClient :=
  match ev with
  | EvAuthenticate _ _ _ tenant _ _ (inr provider) => <[tenant := provider]> m
  | _ => m
  end.

Definition apply_dispatch (svc : option Service) (ev : Event) : option Service :=
  match ev with
  | EvAuthenticate _ _ _ _ _ _ (inr provider) => Some (Dispatch provider)
  | _ => svc
  end.

(* [ev] is a credential exchange for tenant [t] *)
Definition is_exchange (t : string) (ev : Event) : Prop :=
  match ev with
  | EvAuthenticate _ _ _ tenant _ _ _ => tenant = t
  | _ => False
  end.

(* what the session cache [m] allows: an exchange only for a tenant that has
   no session, a limits goroutine only with the session of its tenant *)
Definition session_event (m : gmap string ProviderClient) (ev : Event) : Prop :=
  match ev with
  | EvAuthenticate _ _ _ tenant _ _ _ => m !! tenant = None
  | EvGetLimits t p _ => m !! t = Some p
  | EvGo (LimitsTask p t) => m !! t = Some p
  | _ => True
  end.

(* every event of [evs] is allowed by the session cache of its moment *)
Fixpoint sessions_follow (m : gmap string ProviderClient) (evs : list Event) : Prop :=
  match evs with
  | [] => True
  | ev :: rest => session_event m ev /\ sessions_follow (apply_login m ev) rest
  end.

Definition session_task (s : State W) (task : Task) : Prop :=
  match task with
  | LimitsTask p t => providers (c s) !! t = Some p
  | _ => True
  end.

(* from [s] to [s'] the session cache and the service changed by the
   successful exchanges, and by nothing else *)
Definition session_run (s s' : State W) : Prop :=
  exists new,
    trace s' = trace s ++ new /\
    providers (c s') = foldl apply_login (providers (c s)) new /\
    service (c s') = foldl apply_dispatch (service (c s)) new /\
    sessions_follow (providers (c s)) new.

(* the provider of the last successful exchange of [evs] *)
Fixpoint last_login (evs : list Event) : option ProviderClient :=
  match evs with
  | [] => None
  | ev :: rest =>
      match last_login rest with
      | Some provider => Some provider
      | None =>
          match ev with
          | EvAuthenticate _ _ _ _ _ _ (inr provider) => Some provider
          | _ => None
          end
      end
  end.

(* the volumes and snapshots goroutines run with the session of [admin] *)
Definition admin_session_task (admin : string) (s : State W) (task : Task) : Prop :=
  match task with
  | VolumesTask p | SnapshotsTask p => providers (c s) !! admin = Some p
  | LimitsTask _ _ => True
  end.

Definition admin_session_event (admin : string) (m : gmap string ProviderClient)
    (ev : Event) : Prop :=
  match ev with
  | EvGetVolumes p _ | EvGetSnapshots p _ => m !! admin = Some p
  | _ => True
  end.

(* from [s] to [s'] no session was replaced, and every volumes or snapshots
   fetch was made with the session of [admin] *)
Definition admin_scoped (admin : string) (s s' : State W) : Prop :=
  (forall t p, providers (c s) !! t = Some p -> providers (c s') !! t = Some p) /\
  exists new, trace s' = trace s ++ new /\
              Forall (admin_session_event admin (providers (c s'))) new.

(** *** The tenant directory *)

Definition listed (s : State W) : Prop := allTenants (c s) <> ∅.

(* from [s] to [s'] the directory was neither listed nor changed *)
Definition directory_kept (s s' : State W) : Prop :=
  allTenants (c s') = allTenants (c s) /\
  exists new, trace s' = trace s ++ new /\ Forall (fun ev => ~ is_GetTenants ev) new.

(** *** The maps of a call *)

(* c.allTenants[tenantId]: the display name of a tenant id, [""] for an id
   the directory does not hold *)
Definition display_name (dir : gmap string string) (tenantId : string) : string :=
  default "" (dir !! tenantId).

(* for tenantId, count := range fetched { m[dir[tenantId]] = count }: every
   count is filed under the display name of its tenant, those of the
   tenants the directory does not know under [""] *)
Definition file_by_name {V} (dir : gmap string string) (m : gmap string V)
    (fetched : list (string * V)) : gmap string V :=
  foldl (fun m entry => <[default "" (dir !! fst entry) := snd entry]> m) m fetched.

(* the writes a completed fetch makes to the maps of the call *)
Definition apply_volumes (dir : gmap string string) (m : gmap string Volumes)
    (ev : Event) : gmap string Volumes :=
  match ev with
  | EvGetVolumes _ (volumes, _) => file_by_name dir m volumes
  | _ => m
  end.

Definition apply_snapshots (dir : gmap string string) (m : gmap string Snapshots)
    (ev : Event) : gmap string Snapshots :=
  match ev with
  | EvGetSnapshots _ (snapshots, _) => file_by_name dir m snapshots
  | _ => m
  end.

(* from [s] to [s'] the directory did not change, and the two maps of the
   call and the limits cache changed by the completed fetches *)
Definition collected (s s' : State W) : Prop :=
  allTenants (c s') = allTenants (c s) /\
  exists new,
    trace s' = trace s ++ new /\
    allVolumes s' = foldl (apply_volumes (allTenants (c s))) (allVolumes s) new /\
    allSnapshots s' = foldl (apply_snapshots (allTenants (c s))) (allSnapshots s) new /\
    allLimits (c s') = foldl apply_limits (allLimits (c s)) new.

(* an action that, when it returns normally, relates the states by [R] *)
Definition returns_ok (R : State W -> State W -> Prop) {A} (m : M A) : Prop :=
  forall s a s', m s = (Ok a, s') -> R s s'.

(* the struct {S; V; L} of [tenant] after the fetches [new] of a call that
   started with the limits cache [cache] *)
Definition container_of (dir : gmap string string) (cache : gmap string Limits)
    (new : list Event) (tenant : string) : Snapshots * Volumes * Limits :=
  (default zeroSnapshots (foldl (apply_snapshots dir) ∅ new !! tenant),
   default zeroVolumes (foldl (apply_volumes dir) ∅ new !! tenant),
   default zeroLimits (foldl apply_limits cache new !! tenant)).

End Sessions.

(** ** A concrete deployment

    Three tenants, [alpha], [beta] and [gamma]; a provider client is
    represented by the name of the tenant it is scoped to.  The identity
    service refuses tenant [locked]; the volumes fetch fails for the provider
    of tenant [broken]; the limits fetch fails for the provider of [gamma]. *)
Module Scenario.

#[export] Instance domain : Domain := {|
  ProviderClient := string;
  nilProvider := "";
  Service := unit;
  Dispatch := fun _ => tt;
  Limits := nat;
  zeroLimits := 0;
  Volumes := nat;
  zeroVolumes := 0;
  Snapshots := nat;
  zeroSnapshots := 0;
  Data := option nat;
  time_Time := nat;
  GetValueByNamespace := fun container path =>
    match path with
    | "snapshots" :: _ => Some (fst (fst container))
    | "volumes" :: _ => Some (snd (fst container))
    | "limits" :: _ => Some (snd container)
    | _ => None
    end
|}.

(* the world is a clock *)
#[export] Instance env : Env nat := {|
  openstack_Authenticate := fun _ _ _ tenant _ _ w =>
    (if String.eqb tenant "locked" then inl (ErrCollaborator "401") else inr tenant, w);
  Common_GetTenants := fun _ _ _ _ _ w =>
    (inr (<["id-alpha" := "alpha"]>
            (<["id-beta" := "beta"]> (<["id-gamma" := "gamma"]> ∅))), w);
  Service_GetVolumes := fun _ provider w =>
    (if String.eqb provider "broken"
     then ([], Some (ErrCollaborator "volumes"))
     else ([("id-alpha", 7); ("id-beta", 3)], None), w);
  Service_GetSnapshots := fun _ _ w => ([("id-alpha", 1)], None, w);
  Service_GetLimits := fun _ p w =>
    (if String.eqb p "gamma"
     then (0, Some (ErrCollaborator "limits"))
     else (50, None), w);
  time_Now := fun w => (w, S w);
  sched_choose := fun _ w => (0, w)
|}.

Definition config (admin : string) : gmap string ConfigValue :=
  <["tenant" := CfgStr admin]>
    (<["endpoint" := CfgStr "http://keystone"]>
       (<["user" := CfgStr "u"]> (<["password" := CfgStr "p"]> ∅))).

Definition request (admin : string) (segs : list string) : MetricType :=
  {| Namespace_ := NewNamespace segs; Config_ := config admin;
     Data_ := None; Timestamp_ := 0 |}.

(* a fresh engine at time 0 *)
Definition fresh : State nat :=
  {| c := New; world := 0; trace := [];
     allSnapshots := ∅; allVolumes := ∅; errChn := make_chan 0; done := [] |}.

(* the namespace of a metric of the plugin *)
Definition ns (tenant category leaf : string) : list string :=
  ["intel"; "openstack"; "cinder"; tenant; category; leaf].

(* the credentials every request of the deployment carries *)
Definition keystone : Credentials :=
  {| endpoint := "http://keystone"; user := "u"; password := "p";
     domain_name := ""; domain_id := "" |}.

(* volumes of [alpha] and limits of [beta], admin tenant [alpha] *)
Definition cycle : list MetricType :=
  [request "alpha" (ns "alpha" "volumes" "count");
   request "alpha" (ns "beta" "limits" "maxVolumes")].

(* the leaves of the struct {S; V; L} of the deployment *)
#[export] Instance schema : Schema := {|
  nilData := None;
  zeroTime := 0;
  FromCompositionTags := fun current =>
    [String.append current "/snapshots/count";
     String.append current "/volumes/count";
     String.append current "/limits/MaxTotalVolumes"]
|}.

(* the configuration the host passes to GetMetricTypes *)
Definition catalogue_config : ConfigType := {| ConfigDataNode := config "alpha" |}.

(* a configuration without password *)
Definition no_password : ConfigType :=
  {| ConfigDataNode := delete "password" (config "alpha") |}.

(* the engine after one collection cycle *)
Definition cycled : State nat := snd (CollectMetrics cycle fresh).

(* the limits of [beta], requested without configuration and with a stale value *)
Definition bare_request : @MetricType domain :=
  {| Namespace_ := NewNamespace (ns "beta" "limits" "maxVolumes");
     Config_ := ∅; Data_ := Some 9; Timestamp_ := 5 |}.

End Scenario.

(** * Properties *)

Section Properties.
Context `{D : Domain} {W : Type} {E : Env W}.

Local Abbreviation M := (@M D W).
Local Abbreviation same_but_locals := (@same_but_locals D W).
Local Abbreviation running := (@running D W).
Local Abbreviation projected := (@projected D W).
Local Abbreviation call_summary := (@call_summary D W).
Local Abbreviation untouched := (@untouched D W).
Local Abbreviation pool_avoids := (@pool_avoids D W).
Local Abbreviation step_ok := (@step_ok D W).

(** ** The monad *)

Lemma bind_Ok {A B} (m : M A) (k : A -> M B) s a s1 :
  m s = (Ok a, s1) -> bind m k s = k a s1.
Proof. intros Hm. unfold bind. now rewrite Hm. Qed.

Lemma bind_inv {A B} (m : M A) (k : A -> M B) s r s' :
  bind m k s = (r, s') ->
  (exists a s1, m s = (Ok a, s1) /\ k a s1 = (r, s')) \/
  (exists r0, m s = (r0, s') /\ (forall a, r0 <> Ok a) /\ r = abort r0).
Proof.
  unfold bind. destruct (m s) as [[a|e| |] s1]; intros Hk.
  - left. eauto.
  - right. exists (Err e). inversion Hk; subst. repeat split; congruence.
  - right. exists Panic. inversion Hk; subst. repeat split; congruence.
  - right. exists Blocked. inversion Hk; subst. repeat split; congruence.
Qed.

(** ** The session cache: authenticate *)

Lemma authenticate_cached cfg tenant s :
  is_Some (providers (c s) !! tenant) -> authenticate cfg tenant s = (Ok tt, s).
Proof.
  intros [p Hp]. unfold authenticate, bind, get_c. simpl. now rewrite Hp.
Qed.

Lemma authenticate_uncached cfg tenant s :
  providers (c s) !! tenant = None ->
  authenticate cfg tenant s =
    match credentials cfg with
    | Ok cr =>
        let answer := openstack_Authenticate (endpoint cr) (user cr) (password cr) tenant
                        (domain_name cr) (domain_id cr) (world s) in
        let s1 := {| c := c s; world := snd answer;
                     trace := trace s ++
                       [EvAuthenticate (endpoint cr) (user cr) (password cr) tenant
                          (domain_name cr) (domain_id cr) (fst answer)];
                     allSnapshots := allSnapshots s; allVolumes := allVolumes s;
                     errChn := errChn s; done := done s |} in
        match fst answer with
        | inl err => (Err err, s1)
        | inr provider =>
            (Ok tt, {| c := store_session tenant provider (c s); world := snd answer;
                       trace := trace s1;
                       allSnapshots := allSnapshots s; allVolumes := allVolumes s;
                       errChn := errChn s; done := done s |})
        end
    | Err e => (Err e, s)
    | Panic => (Panic, s)
    | Blocked => (Blocked, s)
    end.
Proof.
  intros Hp. unfold authenticate, bind, get_c, lift_outcome, call. simpl. rewrite Hp.
  destruct (credentials cfg) as [cr|e| |]; try reflexivity.
  destruct (openstack_Authenticate _ _ _ _ _ _ _) as [[err|provider] w']; reflexivity.
Qed.

(** C4.  Calling [authenticate] twice for a tenant that has no session yet,
    the first call succeeding: the first call performs exactly one credential
    exchange (its only event) and stores the provider it obtained; the second
    call, with whatever configuration, returns nil and leaves the whole state
    unchanged: same collector, same world, same trace, so the identity
    collaborator is not contacted again. *)
Theorem authenticate_twice_one_exchange cfg cfg' tenant s s1 :
  providers (c s) !! tenant = None ->
  authenticate cfg tenant s = (Ok tt, s1) ->
  (exists cr provider,
     trace s1 = trace s ++
       [EvAuthenticate (endpoint cr) (user cr) (password cr) tenant
          (domain_name cr) (domain_id cr) (inr provider)] /\
     providers (c s1) !! tenant = Some provider) /\
  authenticate cfg' tenant s1 = (Ok tt, s1).
Proof.
  intros Hnone Hfirst. rewrite authenticate_uncached in Hfirst by assumption.
  destruct (credentials cfg) as [cr|e| |]; try discriminate.
  cbv zeta in Hfirst.
  destruct (openstack_Authenticate _ _ _ _ _ _ _) as [[err|provider] w']; simpl in Hfirst;
    try discriminate.
  inversion Hfirst; subst s1; clear Hfirst. split.
  - exists cr, provider. simpl. split; [reflexivity|]. apply lookup_insert_eq.
  - apply authenticate_cached. simpl. rewrite lookup_insert_eq. eauto.
Qed.

(** C8.  When the credential exchange for an uncached tenant fails with
    [err], [authenticate] returns exactly [err], the collector is unchanged
    (nothing is stored for the tenant), and calling [authenticate] again for
    the same tenant performs the credential exchange again. *)
Theorem authenticate_failure_not_cached cfg tenant s cr err w' :
  providers (c s) !! tenant = None ->
  credentials cfg = Ok cr ->
  openstack_Authenticate (endpoint cr) (user cr) (password cr) tenant
    (domain_name cr) (domain_id cr) (world s) = (inl err, w') ->
  exists s1,
    authenticate cfg tenant s = (Err err, s1) /\
    c s1 = c s /\
    trace s1 = trace s ++
      [EvAuthenticate (endpoint cr) (user cr) (password cr) tenant
         (domain_name cr) (domain_id cr) (inl err)] /\
    exists r2 s2 answer,
      authenticate cfg tenant s1 = (r2, s2) /\
      trace s2 = trace s1 ++
        [EvAuthenticate (endpoint cr) (user cr) (password cr) tenant
           (domain_name cr) (domain_id cr) answer].
Proof.
  intros Hnone Hcr Hex. rewrite authenticate_uncached by assumption.
  rewrite Hcr. cbv zeta. rewrite Hex. simpl. eexists. split; [reflexivity|].
  simpl. split; [reflexivity|]. split; [reflexivity|].
  rewrite authenticate_uncached by (simpl; assumption).
  rewrite Hcr. cbv zeta. simpl.
  destruct (openstack_Authenticate _ _ _ _ _ _ w') as [[err2|provider] w2]; simpl;
    do 3 eexists; (split; [reflexivity|]); reflexivity.
Qed.

(** ** The empty request *)

(** C9.  [CollectMetrics] reads [metricTypes[0]] first, without a guard: on
    the empty request list it panics, in every state, before anything else
    happens (the state is untouched). *)
Theorem CollectMetrics_empty_request_panics (s : State W) :
  CollectMetrics [] s = (Panic, s).
Proof. reflexivity. Qed.

(** ** The plan *)

Lemma Contains_true (slice : list string) (lookup : string) :
  Contains slice lookup = true <-> lookup ∈ slice.
Proof.
  unfold Contains. rewrite existsb_exists. split.
  - intros (x & Hin & Heq). apply String.eqb_eq in Heq. subst x.
    now apply list_elem_of_In.
  - intros Hin. exists lookup. split; [now apply list_elem_of_In | apply String.eqb_refl].
Qed.

Lemma Contains_false (slice : list string) (lookup : string) :
  Contains slice lookup = false <-> lookup ∉ slice.
Proof.
  rewrite <- Contains_true. destruct (Contains slice lookup); split; congruence.
Qed.

Lemma plan_loop_flags mts : forall p0 p,
  plan_loop mts p0 = Ok p ->
  (collectLimits p = true <->
   collectLimits p0 = true \/ exists mt, mt ∈ mts /\ wants_limits mt) /\
  (collectVolumes p = true <->
   collectVolumes p0 = true \/ exists mt, mt ∈ mts /\ wants_volumes mt) /\
  (collectSnapshots p = true <->
   collectSnapshots p0 = true \/ exists mt, mt ∈ mts /\ wants_snapshots mt).
Proof.
  induction mts as [|mt rest IH]; intros p0 p Hp; simpl in Hp.
  - inversion Hp; subst.
    repeat split; intros; auto; destruct H as [H|(mt & Hin & _)]; auto;
      now apply not_elem_of_nil in Hin.
  - destruct (decide (length (Namespace_ mt) < 6)); [discriminate|].
    destruct (Namespace_ mt !! 3) as [element|]; [|discriminate].
    apply IH in Hp. clear IH. destruct Hp as (HL & HV & HS).
    unfold wants_limits, wants_volumes, wants_snapshots in *.
    destruct (Contains (Strings (Namespace_ mt)) "limits") eqn:Hl;
      [apply Contains_true in Hl | apply Contains_false in Hl;
       destruct (Contains (Strings (Namespace_ mt)) "volumes") eqn:Hv;
       [apply Contains_true in Hv | apply Contains_false in Hv]];
      simpl in HL, HV, HS; rewrite HL, HV, HS; clear HL HV HS;
      setoid_rewrite elem_of_cons; firstorder (subst; tauto).
Qed.

Lemma plan_loop_long mts : forall p0 p,
  plan_loop mts p0 = Ok p ->
  Forall (fun mt => 6 <= length (Namespace_ mt)) mts.
Proof.
  induction mts as [|mt rest IH]; intros p0 p Hp; simpl in Hp; [constructor|].
  destruct (decide (length (Namespace_ mt) < 6)); [discriminate|].
  destruct (Namespace_ mt !! 3) as [element|]; [|discriminate].
  constructor; [lia | eauto].
Qed.

Lemma plan_loop_short mts : forall p0,
  (exists mt, mt ∈ mts /\ length (Namespace_ mt) < 6) ->
  exists n, n < 6 /\ plan_loop mts p0 = Err (ErrNamespaceLength n).
Proof.
  induction mts as [|mt rest IH]; intros p0 (m & Hin & Hlen).
  - now apply not_elem_of_nil in Hin.
  - simpl. destruct (decide (length (Namespace_ mt) < 6)) as [Hs|Hs]; [eauto|].
    destruct (Namespace_ mt !! 3) as [element|] eqn:H3.
    + apply IH. apply elem_of_cons in Hin. destruct Hin as [->|Hin]; [lia | eauto].
    + apply lookup_ge_None in H3. lia.
Qed.


Lemma wants_by_category (mt : MetricType) :
  category_in_segment_4 mt ->
  (wants_limits mt <-> Strings (Namespace_ mt) !! 4 = Some "limits") /\
  (wants_volumes mt <-> Strings (Namespace_ mt) !! 4 = Some "volumes") /\
  (wants_snapshots mt <-> Strings (Namespace_ mt) !! 4 = Some "snapshots").
Proof.
  intros ((category & H4 & Hcat) & Honly).
  unfold wants_limits, wants_volumes, wants_snapshots.
  assert (Hl : "limits" ∈ Strings (Namespace_ mt) <->
               Strings (Namespace_ mt) !! 4 = Some "limits").
  { split.
    - intros Hin. apply list_elem_of_lookup in Hin. destruct Hin as (i & Hi).
      rewrite <- (Honly i "limits" Hi); [exact Hi | now left].
    - intros Hi. apply list_elem_of_lookup. eauto. }
  assert (Hv : "volumes" ∈ Strings (Namespace_ mt) <->
               Strings (Namespace_ mt) !! 4 = Some "volumes").
  { split.
    - intros Hin. apply list_elem_of_lookup in Hin. destruct Hin as (i & Hi).
      rewrite <- (Honly i "volumes" Hi); [exact Hi | now right].
    - intros Hi. apply list_elem_of_lookup. eauto. }
  rewrite Hl, Hv, H4.
  destruct Hcat as [-> | [-> | ->]]; repeat split; intros; try congruence;
    repeat match goal with H : _ /\ _ |- _ => destruct H end; congruence.
Qed.

(* for such namespaces the flags are determined by segment 4 *)
Lemma plan_flags_by_category mts p :
  Forall category_in_segment_4 mts ->
  plan_loop mts empty_plan = Ok p ->
  (collectLimits p = true <->
   exists mt, mt ∈ mts /\ Strings (Namespace_ mt) !! 4 = Some "limits") /\
  (collectVolumes p = true <->
   exists mt, mt ∈ mts /\ Strings (Namespace_ mt) !! 4 = Some "volumes") /\
  (collectSnapshots p = true <->
   exists mt, mt ∈ mts /\ Strings (Namespace_ mt) !! 4 = Some "snapshots").
Proof.
  intros Hall Hp. apply plan_loop_flags in Hp. simpl in Hp.
  destruct Hp as (HL & HV & HS). rewrite HL, HV, HS. rewrite Forall_forall in Hall.
  repeat split; intros H;
    first [ destruct H as [H|(mt & Hin & Hw)]; [discriminate|];
            exists mt; split; [exact Hin|];
            destruct (wants_by_category mt (Hall mt Hin)) as (W1 & W2 & W3); tauto
          | right; destruct H as (mt & Hin & Hw);
            exists mt; split; [exact Hin|];
            destruct (wants_by_category mt (Hall mt Hin)) as (W1 & W2 & W3); tauto ].
Qed.

(** ** Goroutine bodies *)

Lemma store_volumes_total volumes : forall s : State W,
  exists s', store_volumes volumes s = (Ok tt, s') /\ same_but_locals s s'.
Proof.
  induction volumes as [|[tenantId volumeCount] rest IH]; intros s; simpl.
  - exists s. repeat split.
  - unfold bind at 1. simpl. unfold bind at 1. simpl.
    match goal with |- context [store_volumes rest ?s1] =>
      destruct (IH s1) as (s' & Hs' & Hc & Hw & Ht & He & Hd) end.
    exists s'. split; [exact Hs'|]. repeat split; assumption.
Qed.

Lemma store_snapshots_total snapshots : forall s : State W,
  exists s', store_snapshots snapshots s = (Ok tt, s') /\ same_but_locals s s'.
Proof.
  induction snapshots as [|[tenantId snapshotCount] rest IH]; intros s; simpl.
  - exists s. repeat split.
  - unfold bind at 1. simpl. unfold bind at 1. simpl.
    match goal with |- context [store_snapshots rest ?s1] =>
      destruct (IH s1) as (s' & Hs' & Hc & Hw & Ht & He & Hd) end.
    exists s'. split; [exact Hs'|]. repeat split; assumption.
Qed.

Lemma send_if_error_total err (s : State W) :
  length (buf (errChn s)) < cap (errChn s) ->
  exists s', send_if_error err s = (Ok tt, s') /\
    c s' = c s /\ world s' = world s /\ trace s' = trace s /\ done s' = done s /\
    allVolumes s' = allVolumes s /\ allSnapshots s' = allSnapshots s /\
    cap (errChn s') = cap (errChn s) /\
    buf (errChn s') = buf (errChn s) ++ match err with Some e => [e] | None => [] end.
Proof.
  intros Hroom. destruct err as [e|]; simpl.
  - unfold send. destruct (decide _) as [_|Hfull]; [|contradiction].
    eexists. split; [reflexivity|]. simpl. repeat split.
  - exists s. split; [reflexivity|]. rewrite app_nil_r. repeat split.
Qed.

(** With a dispatched service and room on the error channel, a goroutine
    runs to its end: it performs its one fetch, sends the error if there is
    one, and stores what the fetch returned. *)
Lemma run_task_total task (s : State W) svc :
  service (c s) = Some svc ->
  length (buf (errChn s)) < cap (errChn s) ->
  exists ev s',
    run_task task s = (Ok tt, s') /\
    fetch_event_of task ev /\
    trace s' = trace s ++ [ev] /\
    done s' = done s /\
    cap (errChn s') = cap (errChn s) /\
    buf (errChn s') = buf (errChn s) ++ event_errors ev /\
    allLimits (c s') = apply_limits (allLimits (c s)) ev /\
    service (c s') = service (c s) /\
    providers (c s') = providers (c s) /\
    allTenants (c s') = allTenants (c s).
Proof.
  intros Hsvc Hroom. destruct task as [provider|provider|p t]; simpl.
  - unfold bind at 1. unfold get_service, bind at 1, get_c. simpl. rewrite Hsvc. simpl.
    unfold bind at 1, call.
    destruct (Service_GetVolumes svc provider (world s)) as [[volumes err] w'] eqn:Hcall.
    simpl. unfold bind at 1.
    match goal with |- context [send_if_error err ?s1] =>
      destruct (send_if_error_total err s1 Hroom)
        as (s2 & -> & Hc & Hw & Ht & Hd & _ & _ & Hcap & Hbuf) end.
    destruct (store_volumes_total volumes s2) as (s3 & -> & Hc3 & Hw3 & Ht3 & He3 & Hd3).
    exists (EvGetVolumes provider (volumes, err)), s3. simpl in *.
    rewrite Ht3, Ht, Hd3, Hd, He3, Hcap, Hbuf, Hc3, Hc.
    destruct err; repeat split; first [reflexivity | congruence].
  - unfold bind at 1. unfold get_service, bind at 1, get_c. simpl. rewrite Hsvc. simpl.
    unfold bind at 1, call.
    destruct (Service_GetSnapshots svc provider (world s)) as [[snapshots err] w'] eqn:Hcall.
    simpl. unfold bind at 1.
    match goal with |- context [send_if_error err ?s1] =>
      destruct (send_if_error_total err s1 Hroom)
        as (s2 & -> & Hc & Hw & Ht & Hd & _ & _ & Hcap & Hbuf) end.
    destruct (store_snapshots_total snapshots s2) as (s3 & -> & Hc3 & Hw3 & Ht3 & He3 & Hd3).
    exists (EvGetSnapshots provider (snapshots, err)), s3. simpl in *.
    rewrite Ht3, Ht, Hd3, Hd, He3, Hcap, Hbuf, Hc3, Hc.
    destruct err; repeat split; first [reflexivity | congruence].
  - unfold bind at 1. unfold get_service, bind at 1, get_c. simpl. rewrite Hsvc. simpl.
    unfold bind at 1, call.
    destruct (Service_GetLimits svc p (world s)) as [[limits err] w'] eqn:Hcall.
    simpl. unfold bind at 1.
    match goal with |- context [send_if_error err ?s1] =>
      destruct (send_if_error_total err s1 Hroom)
        as (s2 & -> & Hc & Hw & Ht & Hd & _ & _ & Hcap & Hbuf) end.
    exists (EvGetLimits t p (limits, err)). eexists. split; [reflexivity|].
    simpl in *. rewrite Ht, Hd, Hcap, Hbuf, Hc.
    destruct err; repeat split; first [reflexivity | congruence].
Qed.

(** ** The pool of launched goroutines *)

Lemma take_nth_Some {A} (l : list A) : forall i x rest,
  take_nth i l = Some (x, rest) -> l ≡ₚ x :: rest.
Proof.
  induction l as [|y l IH]; intros i x rest H; [destruct i; discriminate|].
  destruct i as [|j]; simpl in H.
  - now inversion H.
  - destruct (take_nth j l) as [[z rest']|] eqn:Hj; [|discriminate].
    inversion H; subst. apply IH in Hj. etransitivity; [apply Permutation_cons; [reflexivity | exact Hj]|]. apply Permutation_swap.
Qed.

Lemma take_nth_lt {A} (l : list A) : forall i,
  i < length l -> exists x rest, take_nth i l = Some (x, rest).
Proof.
  induction l as [|y l IH]; intros i Hi; simpl in Hi; [lia|].
  destruct i as [|j]; simpl; [eauto|].
  destruct (IH j) as (x & rest & ->); [lia | eauto].
Qed.

Lemma fetched_app evs evs' : fetched (evs ++ evs') = fetched evs ++ fetched evs'.
Proof. unfold fetched. apply flat_map_app. Qed.

Lemma pending_app pool pool' : pending (pool ++ pool') = pending pool ++ pending pool'.
Proof. unfold pending. apply flat_map_app. Qed.

Lemma fetched_event_of task ev :
  fetch_event_of task ev -> fetched [ev] = pending [task].
Proof.
  destruct task, ev; simpl; try tauto. intros [_ ->]. reflexivity.
Qed.

Lemma event_errors_length ev : length (event_errors ev) <= 1.
Proof.
  destruct ev as [| |? [? [?|]]|? [? [?|]]|? ? [? [?|]]|]; simpl; lia.
Qed.

(* one goroutine of the pool runs *)
Lemma running_step T s0 rem extra s new task rest :
  running T s0 rem extra s new ->
  done s ≡ₚ task :: rest ->
  exists ev s',
    resume task rest s = (Ok tt, s') /\
    done s' = rest /\
    fetch_event_of task ev /\
    running T s0 rem extra s' (new ++ [ev]).
Proof.
  intros [Hsvc Htr Hbuf Hroom Hlim Hpool Hev Hgo Hnd] Hperm.
  destruct Hsvc as [svc Hsvc].
  assert (Hlen : length (done s) = S (length rest)) by now rewrite Hperm.
  unfold resume, bind at 1. simpl.
  match goal with |- context [run_task task ?s1] =>
    destruct (run_task_total task s1 svc) as
      (ev & s' & -> & Hfe & Htr' & Hd' & Hcap' & Hbuf' & Hlim' & Hsvc' & _ & _);
      [exact Hsvc | simpl; lia |]
  end.
  simpl in *. exists ev, s'. split; [reflexivity|]. split; [exact Hd'|]. split; [exact Hfe|].
  constructor.
  - rewrite Hsvc', Hsvc. eauto.
  - rewrite Htr', Htr. now rewrite app_assoc.
  - rewrite Hbuf', Hbuf, flat_map_app. simpl. now rewrite app_nil_r.
  - rewrite Hbuf', Hd', Hcap', length_app. pose proof (event_errors_length ev). lia.
  - rewrite Hlim', Hlim, foldl_app. reflexivity.
  - rewrite Hd'. rewrite Hperm in Hpool. now inversion Hpool.
  - apply Forall_app. split; [exact Hev|]. constructor; [|constructor].
    assert (HT : T task) by (rewrite Hperm in Hpool; now inversion Hpool).
    destruct task, ev; simpl in Hfe |- *; try tauto; eexists; (split; [exact HT|]);
      simpl; tauto.
  - intros task' Hin. rewrite Hd'. apply elem_of_app in Hin. destruct Hin as [Hin|Hin].
    + destruct (Hgo task' Hin) as [Hp|(ev' & Hin' & Hfe')].
      * rewrite Hperm in Hp. apply elem_of_cons in Hp. destruct Hp as [->|Hp]; [|now left].
        right. exists ev. split; [|exact Hfe]. apply elem_of_app. right. now left.
      * right. exists ev'. split; [|exact Hfe']. apply elem_of_app. now left.
    + apply list_elem_of_singleton in Hin. subst ev. destruct task; simpl in Hfe; tauto.
  - rewrite Hd', fetched_app, (fetched_event_of _ _ Hfe), <- app_assoc.
    assert (Hp : pending (done s) ≡ₚ pending [task] ++ pending rest).
    { rewrite <- pending_app. unfold pending. now apply Permutation_flat_map. }
    rewrite Hp, <- app_assoc in Hnd. exact Hnd.
Qed.

(* the invariant does not depend on the world *)
Lemma running_ask {A} T s0 rem extra s new (f : W -> A * W) :
  running T s0 rem extra s new ->
  exists a s', ask f s = (Ok a, s') /\ done s' = done s /\ running T s0 rem extra s' new.
Proof.
  intros [Hsvc Htr Hbuf Hroom Hlim Hpool Hev Hgo Hnd]. unfold ask.
  destruct (f (world s)) as [a w']. do 2 eexists. split; [reflexivity|].
  split; [reflexivity|]. constructor; assumption.
Qed.

Lemma run_some_running T s0 rem extra fuel : forall s new,
  running T s0 rem extra s new ->
  exists s' new',
    run_some fuel s = (Ok tt, s') /\ running T s0 rem extra s' (new ++ new').
Proof.
  induction fuel as [|fuel IH]; intros s new Hrun; simpl.
  - exists s, []. rewrite app_nil_r. split; [reflexivity | exact Hrun].
  - destruct (running_ask T s0 rem extra s new (sched_choose (S (length (done s)))) Hrun)
      as (i & s1 & Hask & Hd1 & Hrun1).
    unfold bind at 1. rewrite Hask.
    destruct (take_nth i (done s)) as [[task rest]|] eqn:Hpick.
    + apply take_nth_Some in Hpick. rewrite <- Hd1 in Hpick.
      destruct (running_step _ _ _ _ _ _ _ _ Hrun1 Hpick) as (ev & s2 & Hstep & _ & _ & Hrun2).
      unfold bind at 1. rewrite Hstep.
      destruct (IH s2 _ Hrun2) as (s' & new' & Hs' & Hrun').
      exists s', (ev :: new'). split; [exact Hs'|].
      rewrite <- app_assoc in Hrun'. exact Hrun'.
    + exists s1, []. rewrite app_nil_r. split; [reflexivity | exact Hrun1].
Qed.

Lemma run_all_running T s0 rem extra fuel : forall s new,
  running T s0 rem extra s new ->
  length (done s) <= fuel ->
  exists s' new',
    run_all fuel s = (Ok tt, s') /\ done s' = [] /\
    running T s0 rem extra s' (new ++ new').
Proof.
  induction fuel as [|fuel IH]; intros s new Hrun Hfuel; simpl.
  - exists s, []. rewrite app_nil_r. split; [reflexivity|].
    split; [|exact Hrun]. destruct (done s); [reflexivity | simpl in Hfuel; lia].
  - destruct (done s) as [|task0 pool0] eqn:Hpool.
    + exists s, []. rewrite app_nil_r. split; [reflexivity|]. split; assumption.
    + rewrite <- Hpool.
      destruct (running_ask T s0 rem extra s new (sched_choose (length (done s))) Hrun)
        as (i & s1 & Hask & Hd1 & Hrun1).
      unfold bind at 1. rewrite Hask.
      destruct (take_nth_lt (done s) (i mod length (done s))) as (task & rest & Hpick).
      { apply Nat.mod_upper_bound. rewrite Hpool. simpl. lia. }
      rewrite Hpick. apply take_nth_Some in Hpick.
      assert (Hlen : length (done s) = S (length rest)) by now rewrite Hpick.
      rewrite <- Hd1 in Hpick.
      destruct (running_step _ _ _ _ _ _ _ _ Hrun1 Hpick) as (ev & s2 & Hstep & Hd2 & _ & Hrun2).
      unfold bind at 1. rewrite Hstep.
      destruct (IH s2 _ Hrun2) as (s' & new' & Hs' & Hd' & Hrun').
      { rewrite Hd2. rewrite Hpool in Hlen. simpl in *. lia. }
      exists s', (ev :: new'). split; [exact Hs'|]. split; [exact Hd'|].
      rewrite <- app_assoc in Hrun'. exact Hrun'.
Qed.

Lemma Wait_running T s0 rem extra s new :
  running T s0 rem extra s new ->
  exists s' new',
    Wait s = (Ok tt, s') /\ done s' = [] /\ running T s0 rem extra s' (new ++ new').
Proof. intros Hrun. unfold Wait. now apply run_all_running. Qed.

(* launching a goroutine: [rem'] is [rem] without the tenant the goroutine is for *)
Lemma go_running T s0 rem rem' extra s new task :
  running T s0 rem (S extra) s new ->
  T task ->
  rem = pending [task] ++ rem' ->
  exists s' new',
    go task s = (Ok tt, s') /\
    running T s0 rem' extra s' (new ++ EvGo task :: new').
Proof.
  intros [Hsvc Htr Hbuf Hroom Hlim Hpool Hev Hgo Hnd] HT Hrem.
  unfold go, bind at 1. simpl. unfold bind at 1. simpl. unfold preempt. simpl.
  match goal with |- context [run_some ?n ?s1] =>
    destruct (run_some_running T s0 rem' extra n s1 (new ++ [EvGo task]))
      as (s' & new' & Hs' & Hrun') end.
  { constructor; simpl.
    - exact Hsvc.
    - rewrite Htr. now rewrite app_assoc.
    - rewrite flat_map_app. simpl. now rewrite app_nil_r.
    - rewrite length_app. simpl. lia.
    - rewrite foldl_app. simpl. exact Hlim.
    - apply Forall_app. split; [exact Hpool|]. now repeat constructor.
    - apply Forall_app. split; [exact Hev|]. now repeat constructor.
    - intros task' Hin. apply elem_of_app in Hin. destruct Hin as [Hin|Hin].
      + destruct (Hgo task' Hin) as [Hp|(ev' & Hin' & Hfe')].
        * left. apply elem_of_app. now left.
        * right. exists ev'. split; [|exact Hfe']. apply elem_of_app. now left.
      + apply list_elem_of_singleton in Hin. inversion Hin; subst task'.
        left. apply elem_of_app. right. now left.
    - rewrite fetched_app. simpl. rewrite app_nil_r, pending_app, <- app_assoc.
      rewrite <- Hrem. exact Hnd. }
  exists s', new'. split; [exact Hs'|]. rewrite <- app_assoc in Hrun'. exact Hrun'.
Qed.

(* fewer tenants to visit, fewer goroutines to launch *)
Lemma running_weaken T s0 rem rem' extra extra' s new :
  running T s0 rem extra s new ->
  rem' `sublist_of` rem -> extra' <= extra ->
  running T s0 rem' extra' s new.
Proof.
  intros [Hsvc Htr Hbuf Hroom Hlim Hpool Hev Hgo Hnd] Hsub Hle.
  constructor; try assumption; [lia|].
  apply (sublist_NoDup _ _ Hnd).
  repeat apply sublist_app; try reflexivity. exact Hsub.
Qed.

(** ** authenticate inside a phase *)

Lemma obind_not_Blocked {A B} (r : Outcome A) (k : A -> Outcome B) :
  r <> Blocked -> (forall a, k a <> Blocked) -> obind r k <> Blocked.
Proof. destruct r; simpl; auto; discriminate. Qed.

Lemma type_assert_string_not_Blocked item : type_assert_string item <> Blocked.
Proof. destruct item as [[| |]|]; discriminate. Qed.

Lemma optional_string_not_Blocked (cfg : MetricType) name :
  optional_string cfg name <> Blocked.
Proof.
  unfold optional_string. destruct (GetConfigItem cfg name);
    [discriminate | apply type_assert_string_not_Blocked].
Qed.

Lemma credentials_not_Blocked (cfg : MetricType) : credentials cfg <> Blocked.
Proof.
  unfold credentials. destruct (GetConfigItems cfg _); [discriminate|].
  repeat (apply obind_not_Blocked;
          [first [apply type_assert_string_not_Blocked | apply optional_string_not_Blocked]
          | intros ?]).
  discriminate.
Qed.

(** What [authenticate] does, in every case: it never blocks, it touches
    only the session cache, the dispatched service and the trace, to which
    it adds at most one credential exchange, for [tenant]. *)
Lemma authenticate_effect cfg tenant (s : State W) r s' :
  authenticate cfg tenant s = (r, s') ->
  r <> Blocked /\
  allLimits (c s') = allLimits (c s) /\
  allTenants (c s') = allTenants (c s) /\
  allSnapshots s' = allSnapshots s /\ allVolumes s' = allVolumes s /\
  errChn s' = errChn s /\ done s' = done s /\
  (is_Some (service (c s)) -> is_Some (service (c s'))) /\
  (forall t, is_Some (providers (c s) !! t) -> is_Some (providers (c s') !! t)) /\
  (r = Ok tt -> is_Some (providers (c s') !! tenant)) /\
  (providers (c s) !! tenant = None -> r = Ok tt -> is_Some (service (c s'))) /\
  exists new,
    trace s' = trace s ++ new /\ length new <= 1 /\
    Forall (fun ev => exists ep u pw dn di res,
                ev = EvAuthenticate ep u pw tenant dn di res) new.
Proof.
  intros Hrun. destruct (providers (c s) !! tenant) as [p|] eqn:Hp.
  - rewrite authenticate_cached in Hrun by eauto. inversion Hrun; subst.
    repeat split; try congruence; eauto.
    exists []. rewrite app_nil_r. repeat split; [simpl; lia | constructor].
  - rewrite authenticate_uncached in Hrun by assumption.
    pose proof (credentials_not_Blocked cfg) as Hnb.
    destruct (credentials cfg) as [cr|e| |]; try congruence;
      try (inversion Hrun; subst; repeat split; try congruence; eauto;
           exists []; rewrite app_nil_r; repeat split; [simpl; lia | constructor]).
    cbv zeta in Hrun.
    destruct (openstack_Authenticate _ _ _ _ _ _ _) as [[err|provider] w']; simpl in Hrun;
      inversion Hrun; subst; simpl; repeat split; try congruence; eauto.
    + eexists. split; [reflexivity|]. split; [simpl; lia|].
      repeat constructor. do 6 eexists. reflexivity.
    + intros t [q Hq]. destruct (decide (tenant = t)) as [->|Hne].
      * rewrite lookup_insert_eq. eauto.
      * rewrite lookup_insert_ne by assumption. eauto.
    + intros _. rewrite lookup_insert_eq. eauto.
    + eexists. split; [reflexivity|]. split; [simpl; lia|].
      repeat constructor. do 6 eexists. reflexivity.
Qed.

(* [authenticate] panics only on a type assertion of the configuration *)
Lemma authenticate_Panic cfg tenant (s : State W) s' :
  authenticate cfg tenant s = (Panic, s') -> credentials cfg = Panic.
Proof.
  intros Hrun. destruct (providers (c s) !! tenant) as [p|] eqn:Hp.
  - rewrite authenticate_cached in Hrun by eauto. discriminate.
  - rewrite authenticate_uncached in Hrun by assumption.
    destruct (credentials cfg) as [cr|e| |]; try discriminate; [|reflexivity].
    cbv zeta in Hrun.
    destruct (openstack_Authenticate _ _ _ _ _ _ _) as [[err|provider] w']; discriminate.
Qed.

(* credential exchanges put nothing on the channel, write nothing to the
   cache and launch nothing *)
Lemma exchange_events (T : Task -> Prop) (tenant : string) (new : list Event) :
  Forall (fun ev => exists ep u pw dn di res,
              ev = EvAuthenticate ep u pw tenant dn di res) new ->
  flat_map event_errors new = [] /\ fetched new = [] /\
  (forall m, foldl apply_limits m new = m) /\
  Forall (phase_event T) new /\ forall task, EvGo task ∉ new.
Proof.
  induction 1 as [|ev evs (ep & u & pw & dn & di & res & ->) _ IH].
  - repeat split; try constructor. intros task Hin. now apply not_elem_of_nil in Hin.
  - destruct IH as (H1 & H2 & H3 & H4 & H5). simpl. repeat split; try assumption.
    + now constructor.
    + intros task Hin. apply elem_of_cons in Hin. destruct Hin as [Hin|Hin];
        [discriminate | now apply (H5 task)].
Qed.

Lemma authenticate_running T s0 rem extra cfg tenant s new r s' :
  running T s0 rem extra s new ->
  authenticate cfg tenant s = (r, s') ->
  r <> Blocked /\ exists new', running T s0 rem extra s' (new ++ new').
Proof.
  intros [Hsvc Htr Hbuf Hroom Hlim Hpool Hev Hgo Hnd] Hauth.
  apply authenticate_effect in Hauth.
  destruct Hauth as (Hnb & HL & _ & _ & _ & Hch & Hd & Hs & _ & _ & _ & new' & Ht & _ & Hnew).
  split; [exact Hnb|]. exists new'.
  destruct (exchange_events T tenant new' Hnew) as (Q1 & Q2 & Q3 & Q4 & Q5).
  constructor.
  - auto.
  - rewrite Ht, Htr. now rewrite app_assoc.
  - rewrite Hch, Hbuf, flat_map_app, Q1. now rewrite app_nil_r.
  - rewrite Hch, Hd. exact Hroom.
  - rewrite HL, foldl_app, Q3. exact Hlim.
  - rewrite Hd. exact Hpool.
  - apply Forall_app. split; assumption.
  - intros task Hin. rewrite Hd. apply elem_of_app in Hin.
    destruct Hin as [Hin|Hin]; [|now apply Q5 in Hin].
    destruct (Hgo task Hin) as [Hp|(ev & Hin' & Hfe)]; [now left|].
    right. exists ev. split; [|exact Hfe]. apply elem_of_app. now left.
  - rewrite fetched_app, Q2, app_nil_r, Hd. exact Hnd.
Qed.

(** ** The two phases *)

Lemma limits_loop_running s0 cfg flag : forall rem extra s new,
  running limits_task s0 rem extra s new ->
  length rem <= extra ->
  exists r s' new',
    limits_loop cfg flag rem s = (r, s') /\ r <> Blocked /\
    (r = Panic -> credentials cfg = Panic) /\
    running limits_task s0 [] 0 s' (new ++ new').
Proof.
  induction rem as [|tenant rest IH]; intros extra s new Hrun Hlen; simpl.
  - exists (Ok tt), s, []. rewrite app_nil_r. split; [reflexivity|].
    split; [discriminate|]. split; [discriminate|].
    eapply running_weaken; [exact Hrun | reflexivity | lia].
  - simpl in Hlen. destruct extra as [|extra]; [lia|].
    unfold bind at 1. simpl.
    destruct (flag && negb (bool_decide (is_Some (allLimits (c s) !! tenant)))) eqn:Hlaunch.
    + unfold bind at 1. unfold bind at 1.
      destruct (authenticate cfg tenant s) as [r1 s1] eqn:Hauth.
      destruct (authenticate_running _ _ _ _ _ _ _ _ _ _ Hrun Hauth) as (Hnb & new1 & Hrun1).
      destruct r1 as [[]|e| |]; try congruence.
      * unfold bind at 1. simpl.
        destruct (go_running limits_task s0 (tenant :: rest) rest extra s1 (new ++ new1)
                    (LimitsTask (default nilProvider (providers (c s1) !! tenant)) tenant))
          as (s2 & new2 & Hgo & Hrun2); [exact Hrun1 | exact I | reflexivity |].
        rewrite Hgo.
        destruct (IH extra s2 _ Hrun2) as (r & s' & new' & Hloop & Hr & Hpanic & Hrun');
          [lia|].
        exists r, s', (new1 ++ EvGo (LimitsTask (default nilProvider
                                             (providers (c s1) !! tenant)) tenant)
                         :: new2 ++ new').
        split; [exact Hloop|]. split; [exact Hr|]. split; [exact Hpanic|].
        repeat rewrite <- app_assoc in Hrun'. simpl in Hrun'.
        repeat rewrite <- app_assoc. exact Hrun'.
      * exists (Err e), s1, new1. split; [reflexivity|]. split; [discriminate|].
        split; [discriminate|].
        eapply running_weaken; [exact Hrun1 | apply sublist_nil_l | lia].
      * exists Panic, s1, new1. split; [reflexivity|]. split; [discriminate|].
        split; [intros _; exact (authenticate_Panic _ _ _ _ Hauth)|].
        eapply running_weaken; [exact Hrun1 | apply sublist_nil_l | lia].
    + unfold bind at 1. simpl.
      apply (IH extra s new); [|lia].
      eapply running_weaken; [exact Hrun | apply sublist_cons; reflexivity | lia].
Qed.

Lemma pick_order_cons {A} fuel (x : A) l (s : State W) :
  pick_order (S fuel) (x :: l) s =
  bind (ask (sched_choose (length (x :: l))))
    (fun i => match take_nth (i mod length (x :: l)) (x :: l) with
              | Some (y, rest) => bind (pick_order fuel rest) (fun ys => ret (y :: ys))
              | None => ret []
              end) s.
Proof. reflexivity. Qed.

(* the order in which a set is listed is a permutation of its elements *)
Lemma pick_order_total {A} fuel : forall (l : list A) (s : State W),
  length l <= fuel ->
  exists l' s',
    pick_order fuel l s = (Ok l', s') /\ l' ≡ₚ l /\
    c s' = c s /\ trace s' = trace s /\ errChn s' = errChn s /\ done s' = done s /\
    allSnapshots s' = allSnapshots s /\ allVolumes s' = allVolumes s.
Proof.
  induction fuel as [|fuel IH]; intros l s Hlen.
  - destruct l; [|simpl in Hlen; lia]. exists [], s. repeat split; reflexivity.
  - destruct l as [|x0 l0]; [exists [], s; repeat split; reflexivity|].
    rewrite pick_order_cons. remember (x0 :: l0) as l eqn:Hl.
    unfold bind at 1, ask.
    destruct (sched_choose (length l) (world s)) as [i w'].
    destruct (take_nth_lt l (i mod length l)) as (x & rest & Hpick).
    { apply Nat.mod_upper_bound. subst l. simpl. lia. }
    rewrite Hpick. apply take_nth_Some in Hpick. unfold bind at 1.
    match goal with |- context [pick_order fuel rest ?s1] =>
      destruct (IH rest s1) as (l' & s' & -> & Hperm & Hc & Ht & He & Hd & Hs & Hv) end.
    { assert (length l = S (length rest)) by now rewrite Hpick. lia. }
    exists (x :: l'), s'. split; [reflexivity|]. simpl in *.
    split; [now rewrite Hpick, Hperm|]. repeat split; assumption.
Qed.

(* a phase starts: no goroutine, an empty channel with room for [n] errors *)
Lemma running_start T (s0 s : State W) rem n :
  is_Some (service (c s)) ->
  trace s = trace s0 -> allLimits (c s) = allLimits (c s0) ->
  done s = [] -> errChn s = make_chan n ->
  NoDup rem -> length rem <= n ->
  running T s0 rem n s [].
Proof.
  intros Hsvc Htr Hlim Hd Hch Hnd Hlen. constructor; simpl.
  - exact Hsvc.
  - now rewrite app_nil_r.
  - now rewrite Hch.
  - rewrite Hch, Hd. simpl. lia.
  - exact Hlim.
  - rewrite Hd. constructor.
  - constructor.
  - intros task Hin. now apply not_elem_of_nil in Hin.
  - rewrite Hd. simpl. exact Hnd.
Qed.

(** The limits phase, started with a dispatched service: it never blocks;
    unless it panics every goroutine it launched has run when it returns;
    it returns nil only when no fetch failed. *)
Lemma limits_phase_running cfg p (s : State W) :
  is_Some (service (c s)) ->
  exists r s' new,
    limits_phase cfg p s = (r, s') /\ r <> Blocked /\
    running limits_task s [] 0 s' new /\
    (r <> Panic -> done s' = []) /\
    (r = Ok tt -> buf (errChn s') = []) /\
    (r = Panic -> credentials cfg = Panic).
Proof.
  intros Hsvc. unfold limits_phase.
  unfold bind at 1. simpl. unfold bind at 1. simpl. unfold bind at 1. unfold Elements.
  match goal with |- context [pick_order ?n ?l ?s1] =>
    destruct (pick_order_total n l s1) as
      (tenants & s2 & -> & Hperm & Hc & Ht & He & Hd & _ & _); [lia|] end.
  simpl in Hc, Ht, He, Hd.
  assert (Hrun : running limits_task s tenants (length tenants) s2 []).
  { apply running_start with (n := length tenants); try assumption.
    - now rewrite Hc.
    - now rewrite Hc.
    - rewrite He. f_equal. rewrite Hperm. reflexivity.
    - rewrite Hperm. apply NoDup_elements.
    - lia. }
  destruct (limits_loop_running s cfg (collectLimits p) tenants _ s2 [] Hrun)
    as (r & s3 & new & -> & Hr & Hpanic & Hrun3); [lia|]. simpl in Hrun3.
  destruct r as [[]|e| |]; try congruence.
  - destruct (Wait_running _ _ _ _ _ _ Hrun3) as (s4 & new4 & Hw & Hd4 & Hrun4).
    unfold bind at 1. rewrite Hw. unfold close_and_receive.
    destruct (buf (errChn s4)) as [|e rest] eqn:Hbuf.
    + exists (Ok tt), s4, (new ++ new4).
      split; [reflexivity|]. split; [discriminate|]. split; [exact Hrun4|].
      split; [intros _; exact Hd4|]. split; [intros _; exact Hbuf|]. discriminate.
    + exists (Err e), s4, (new ++ new4).
      split; [reflexivity|]. split; [discriminate|]. split; [exact Hrun4|].
      split; [intros _; exact Hd4|]. split; discriminate.
  - destruct (Wait_running _ _ _ _ _ _ Hrun3) as (s4 & new4 & Hw & Hd4 & Hrun4).
    unfold bind at 1. rewrite Hw. unfold fail.
    exists (Err e), s4, (new ++ new4).
    split; [reflexivity|]. split; [discriminate|]. split; [exact Hrun4|].
    split; [intros _; exact Hd4|]. split; discriminate.
  - exists Panic, s3, new.
    split; [reflexivity|]. split; [discriminate|]. split; [exact Hrun3|].
    split; [congruence|]. split; [discriminate|]. exact Hpanic.
Qed.

Lemma New_wf : wf New.
Proof. right. reflexivity. Qed.

(** The admin phase.  Either [authenticate] fails and nothing is launched,
    or the goroutines are launched, all of them run, and the first error on
    the channel, if any, is returned. *)
Lemma admin_phase_running cfg admin p (s : State W) r s' :
  wf (c s) ->
  admin_phase cfg admin p s = (r, s') ->
  (exists r0,
      authenticate cfg admin s = (r0, s') /\ r = abort r0 /\ forall a, r0 <> Ok a) \/
  (exists new,
      running admin_task s [] 0 s' new /\ done s' = [] /\
      match buf (errChn s') with
      | [] => r = Ok tt
      | e :: _ => r = Err e
      end).
Proof.
  intros Hwf Hrun. unfold admin_phase in Hrun.
  apply bind_inv in Hrun. destruct Hrun as [([] & s1 & Hauth & Hrun)|(r0 & Hauth & Hr0 & ->)];
    [|left; eauto].
  right. pose proof (authenticate_effect _ _ _ _ _ Hauth) as
    (_ & HL & _ & _ & _ & _ & _ & Hsvc & _ & Hcached & Hfresh & new1 & Ht & _ & Hnew).
  assert (Hs1 : is_Some (service (c s1))).
  { destruct (providers (c s) !! admin) as [q|] eqn:Hq; [|now apply Hfresh].
    apply Hsvc. destruct Hwf as [Hwf|Hwf]; [exact Hwf|].
    rewrite Hwf, lookup_empty in Hq. discriminate. }
  unfold bind at 1 in Hrun. simpl in Hrun.
  unfold bind at 1 in Hrun. simpl in Hrun.
  unfold bind at 1 in Hrun. simpl in Hrun.
  set (provider := default nilProvider (providers (c s1) !! admin)) in *.
  match type of Hrun with bind _ _ ?s2 = _ =>
    assert (Hrun2 : running admin_task s1 [] 2 s2 []) by
      (apply running_start with (n := 2); simpl; auto using NoDup_nil_2);
    remember s2 as st2 eqn:Hst2; clear Hst2 end.
  assert (Hvol : exists s3 new3,
             (if collectVolumes p then go (VolumesTask provider) else ret tt) st2
             = (Ok tt, s3) /\ running admin_task s1 [] 1 s3 new3).
  { destruct (collectVolumes p).
    - destruct (go_running admin_task s1 [] [] 1 st2 [] (VolumesTask provider))
        as (s3 & new3 & Hgo & Hrun3); [exact Hrun2 | exact I | reflexivity |]. eauto.
    - exists st2, []. split; [reflexivity|].
      eapply running_weaken; [exact Hrun2 | reflexivity | lia]. }
  destruct Hvol as (s3 & new3 & Hgo3 & Hrun3).
  unfold bind at 1 in Hrun. rewrite Hgo3 in Hrun.
  assert (Hsnap : exists s4 new4,
             (if collectSnapshots p then go (SnapshotsTask provider) else ret tt) s3
             = (Ok tt, s4) /\ running admin_task s1 [] 0 s4 new4).
  { destruct (collectSnapshots p).
    - destruct (go_running admin_task s1 [] [] 0 s3 new3 (SnapshotsTask provider))
        as (s4 & new4 & Hgo & Hrun4); [exact Hrun3 | exact I | reflexivity |]. eauto.
    - exists s3, new3. split; [reflexivity|].
      eapply running_weaken; [exact Hrun3 | reflexivity | lia]. }
  destruct Hsnap as (s4 & new4 & Hgo4 & Hrun4).
  unfold bind at 1 in Hrun. rewrite Hgo4 in Hrun.
  destruct (Wait_running _ _ _ _ _ _ Hrun4) as (s5 & new5 & Hw & Hd5 & Hrun5).
  unfold bind at 1 in Hrun. rewrite Hw in Hrun. unfold close_and_receive in Hrun.
  destruct (exchange_events admin_task admin new1 Hnew) as (Q1 & Q2 & Q3 & Q4 & Q5).
  assert (s' = s5) by (destruct (buf (errChn s5)); inversion Hrun; reflexivity).
  subst s'. exists (new1 ++ (new4 ++ new5)).
  destruct Hrun5 as [Hsvc5 Htr5 Hbuf5 Hroom5 Hlim5 Hpool5 Hev5 Hgo5 Hnd5].
  split; [|split].
  - constructor.
    + exact Hsvc5.
    + rewrite Htr5, Ht. now rewrite <- app_assoc.
    + rewrite flat_map_app, Q1. exact Hbuf5.
    + exact Hroom5.
    + transitivity (foldl apply_limits (foldl apply_limits (allLimits (c s)) new1)
                      (new4 ++ new5)); [rewrite Q3, <- HL; exact Hlim5 | symmetry; apply foldl_app].
    + exact Hpool5.
    + apply Forall_app. split; assumption.
    + intros task Hin. apply elem_of_app in Hin. destruct Hin as [Hin|Hin];
        [now apply Q5 in Hin|].
      destruct (Hgo5 task Hin) as [Hp|(ev & Hin' & Hfe)]; [now left|].
      right. exists ev. split; [|exact Hfe]. apply elem_of_app. now right.
    + rewrite fetched_app, Q2. exact Hnd5.
  - exact Hd5.
  - destruct (buf (errChn s5)); inversion Hrun; subst; reflexivity.
Qed.

(** ** Kinds of events *)

Lemma quiet_events evs :
  Forall quiet evs ->
  flat_map event_errors evs = [] /\ fetched evs = [] /\
  (forall m, foldl apply_limits m evs = m) /\
  (forall task, EvGo task ∉ evs) /\
  (forall ev, ev ∈ evs -> ~ admin_fetch ev).
Proof.
  induction 1 as [|ev evs Hq _ IH].
  - split; [reflexivity|]. split; [reflexivity|]. split; [reflexivity|].
    split; [intros task; apply not_elem_of_nil|].
    intros ev Hin. now apply not_elem_of_nil in Hin.
  - destruct IH as (H1 & H2 & H3 & H4 & H5).
    destruct ev; simpl in Hq; try contradiction; simpl;
      (split; [exact H1|]); (split; [exact H2|]); (split; [exact H3|]); split;
      try (intros task Hin; apply elem_of_cons in Hin; destruct Hin as [Hin|Hin];
           [discriminate | now apply (H4 task)]);
      (intros ev Hin; apply elem_of_cons in Hin; destruct Hin as [->|Hin];
       [simpl; tauto | now apply H5]).
Qed.

Lemma admin_events evs :
  Forall (phase_event admin_task) evs ->
  fetched evs = [] /\ (forall m, foldl apply_limits m evs = m) /\
  (forall ev, ev ∈ evs -> event_errors ev <> [] -> admin_fetch ev) /\
  (forall task, EvGo task ∈ evs -> admin_task task).
Proof.
  induction 1 as [|ev evs Hp _ IH].
  - repeat split; intros; exfalso; eapply not_elem_of_nil; eassumption.
  - destruct IH as (H1 & H2 & H3 & H4).
    assert (Hnl : forall t p r, ev <> EvGetLimits t p r).
    { intros t p r ->. simpl in Hp. destruct Hp as ([| |] & HT & Hfe); simpl in *; tauto. }
    repeat split.
    + destruct ev; simpl; try assumption. exfalso. eapply Hnl. reflexivity.
    + intros m. destruct ev; simpl; try apply H2. exfalso. eapply Hnl. reflexivity.
    + intros ev' Hin Herr. apply elem_of_cons in Hin. destruct Hin as [->|Hin]; [|auto].
      destruct ev; simpl in *; try congruence; try exact I.
      exfalso. eapply Hnl. reflexivity.
    + intros task Hin. apply elem_of_cons in Hin. destruct Hin as [Hin|Hin]; [|auto].
      subst ev. exact Hp.
Qed.

Lemma limits_events evs :
  Forall (phase_event limits_task) evs ->
  (forall ev, ev ∈ evs -> ~ admin_fetch ev) /\
  (forall task, EvGo task ∈ evs -> limits_task task).
Proof.
  induction 1 as [|ev evs Hp _ IH].
  - split; intros; exfalso; eapply not_elem_of_nil; eassumption.
  - destruct IH as (H1 & H2). split.
    + intros ev' Hin Hf. apply elem_of_cons in Hin. destruct Hin as [->|Hin];
        [|now apply (H1 ev')].
      destruct ev; simpl in Hf; try contradiction;
        destruct Hp as ([| |] & HT & Hfe); simpl in *; tauto.
    + intros task Hin. apply elem_of_cons in Hin. destruct Hin as [Hin|Hin]; [|auto].
      subst ev. exact Hp.
Qed.

Lemma no_errors_elem evs :
  flat_map event_errors evs = [] -> forall ev, ev ∈ evs -> event_errors ev = [].
Proof.
  induction evs as [|ev0 evs IH]; simpl; intros Hnil ev Hin.
  - now apply not_elem_of_nil in Hin.
  - apply app_eq_nil in Hnil. destruct Hnil as [H0 Hrest].
    apply elem_of_cons in Hin. destruct Hin as [->|Hin]; auto.
Qed.

Lemma error_elem e evs :
  e ∈ flat_map event_errors evs -> exists ev, ev ∈ evs /\ e ∈ event_errors ev.
Proof.
  induction evs as [|ev0 evs IH]; simpl; intros Hin.
  - now apply not_elem_of_nil in Hin.
  - apply elem_of_app in Hin. destruct Hin as [Hin|Hin].
    + exists ev0. split; [now left | exact Hin].
    + destruct (IH Hin) as (ev & Hev & He). exists ev. split; [now right | exact He].
Qed.

Lemma fetched_nil_foldl evs :
  fetched evs = [] -> forall m, foldl apply_limits m evs = m.
Proof.
  induction evs as [|ev evs IH]; simpl; intros Hnil m; [reflexivity|].
  apply app_eq_nil in Hnil. destruct Hnil as [H0 Hrest].
  rewrite IH by assumption. destruct ev; simpl in *; try reflexivity. discriminate.
Qed.

(** The cache after a run of fetches for pairwise distinct tenants holds,
    for each of them, what its fetch returned. *)
Lemma foldl_apply_limits_other evs : forall m t,
  t ∉ fetched evs -> foldl apply_limits m evs !! t = m !! t.
Proof.
  induction evs as [|ev evs IH]; simpl; intros m t Hnot; [reflexivity|].
  rewrite elem_of_app in Hnot. rewrite IH by tauto.
  destruct ev as [| | | |t' p [limits err]|]; simpl in *; try reflexivity.
  apply lookup_insert_ne. intros ->. apply Hnot. left. now left.
Qed.

Lemma foldl_apply_limits_fetched evs : forall m t p limits err,
  NoDup (fetched evs) ->
  EvGetLimits t p (limits, err) ∈ evs ->
  foldl apply_limits m evs !! t = Some limits.
Proof.
  induction evs as [|ev evs IH]; simpl; intros m t p limits err Hnd Hin.
  - now apply not_elem_of_nil in Hin.
  - apply NoDup_app in Hnd. destruct Hnd as (Hnd0 & Hdisj & Hnd).
    apply elem_of_cons in Hin. destruct Hin as [<-|Hin]; [|eauto].
    simpl. rewrite foldl_apply_limits_other.
    + apply lookup_insert_eq.
    + apply Hdisj. simpl. now left.
Qed.

(* a cached entry is only ever overwritten, never removed *)
Lemma foldl_apply_limits_is_Some evs : forall m t,
  is_Some (m !! t) -> is_Some (foldl apply_limits m evs !! t).
Proof.
  induction evs as [|ev evs IH]; simpl; intros m t Hsome; [exact Hsome|].
  apply IH. destruct ev as [| | | |t' p [limits err]|]; simpl; try exact Hsome.
  destruct (decide (t' = t)) as [->|Hne].
  - rewrite lookup_insert_eq. eauto.
  - now rewrite lookup_insert_ne.
Qed.

(** ** The steps of CollectMetrics *)

Lemma CollectMetrics_cons first rest (s : State W) :
  CollectMetrics (first :: rest) s =
  bind (lift_result (GetConfigItem first "tenant")) (fun item =>
  bind (lift_outcome (type_assert_string (Some item))) (fun admin =>
  bind (populate_tenants first) (fun _ =>
  bind (lift_outcome (plan_loop (first :: rest) empty_plan)) (fun p =>
  bind (set_allSnapshots ∅) (fun _ =>
  bind (set_allVolumes ∅) (fun _ =>
  bind (admin_phase first admin p) (fun _ =>
  bind (limits_phase first p) (fun _ =>
  projection (first :: rest))))))))) s.
Proof. reflexivity. Qed.

Lemma populate_tenants_effect first (s : State W) r s' :
  populate_tenants first s = (r, s') ->
  r <> Blocked /\
  providers (c s') = providers (c s) /\ service (c s') = service (c s) /\
  allLimits (c s') = allLimits (c s) /\
  exists pre,
    trace s' = trace s ++ pre /\ length pre <= 1 /\ Forall is_GetTenants pre /\
    (allTenants (c s) <> ∅ -> pre = [] /\ r = Ok tt) /\
    (forall ep u pw dn di ts, EvGetTenants ep u pw dn di (inr ts) ∈ pre -> r = Ok tt).
Proof.
  unfold populate_tenants, bind at 1, get_c. simpl.
  destruct (decide (size (allTenants (c s)) = 0)) as [Hz|Hnz].
  - unfold getTenants, bind at 1, bind at 1, lift_outcome.
    pose proof (credentials_not_Blocked first) as Hnb.
    destruct (credentials first) as [cr|e| |]; try congruence;
      try (intros Hrun; inversion Hrun; subst;
           (split; [congruence|]); (split; [reflexivity|]); (split; [reflexivity|]);
           (split; [reflexivity|]);
           exists []; rewrite app_nil_r; (split; [reflexivity|]); (split; [simpl; lia|]);
           (split; [constructor|]);
           split; [intros Hne; apply map_size_empty_iff in Hz; congruence
                  | intros ? ? ? ? ? ? Hin; now apply not_elem_of_nil in Hin]).
    unfold bind at 1, call.
    destruct (Common_GetTenants _ _ _ _ _ _) as [[err|tenants] w']; simpl;
      intros Hrun; inversion Hrun; subst; simpl; repeat split; try congruence;
      (eexists; split; [reflexivity|]; split; [simpl; lia|]; split; [now repeat constructor|];
       split; [intros Hne; apply map_size_empty_iff in Hz; congruence|]).
    + intros ep u pw dn di ts Hin. apply list_elem_of_singleton in Hin. discriminate.
    + intros; reflexivity.
  - intros Hrun. inversion Hrun; subst.
    (split; [congruence|]); (split; [reflexivity|]); (split; [reflexivity|]);
    (split; [reflexivity|]).
    exists []. rewrite app_nil_r. (split; [reflexivity|]); (split; [simpl; lia|]);
    (split; [constructor|]).
    split; [intros _; split; reflexivity|].
    intros ? ? ? ? ? ? Hin. now apply not_elem_of_nil in Hin.
Qed.

Lemma projection_effect mts : forall (s : State W) r s',
  projection mts s = (r, s') ->
  c s' = c s /\ trace s' = trace s /\
  allSnapshots s' = allSnapshots s /\ allVolumes s' = allVolumes s /\
  (r = Panic \/ exists out, r = Ok out /\ Forall2 (projected s) mts out).
Proof.
  induction mts as [|mt rest IH]; intros s r s' Hrun; simpl in Hrun.
  - inversion Hrun; subst. repeat split. right. exists []. split; [reflexivity | constructor].
  - destruct (Strings (Namespace_ mt) !! 3) as [tenant|] eqn:H3.
    + unfold bind at 1, ask in Hrun.
      destruct (time_Now (world s)) as [now w'] eqn:Hnow.
      unfold bind at 1 in Hrun.
      match type of Hrun with context [projection rest ?s1] =>
        destruct (projection rest s1) as [r1 s2] eqn:Hrest;
        apply IH in Hrest; simpl in Hrest;
        destruct Hrest as (Hc & Ht & Hs & Hv & Hout) end.
      destruct Hout as [->|(out & -> & Hall)].
      * inversion Hrun; subst. repeat split; auto.
      * inversion Hrun; subst. repeat split; auto. right. eexists. split; [reflexivity|].
        constructor.
        -- split; [reflexivity|]. split; [exists (world s); now rewrite Hnow|].
           exists tenant. split; [exact H3 | reflexivity].
        -- eapply Forall2_impl; [exact Hall|].
           intros mt' m' (Hn & Hts & t' & Ht' & Hd). split; [exact Hn|].
           split; [exact Hts|]. exists t'. split; [exact Ht' | exact Hd].
    + inversion Hrun; subst. repeat split. now left.
Qed.

(** ** What a call to CollectMetrics does, as a whole *)

Lemma authenticate_wf cfg tenant (s : State W) r s' :
  wf (c s) -> authenticate cfg tenant s = (r, s') -> wf (c s').
Proof.
  intros Hwf Hauth. destruct (providers (c s) !! tenant) as [p|] eqn:Hp.
  - rewrite authenticate_cached in Hauth by eauto. now inversion Hauth; subst.
  - rewrite authenticate_uncached in Hauth by assumption.
    destruct (credentials cfg) as [cr|e| |]; try (now inversion Hauth; subst).
    cbv zeta in Hauth.
    destruct (openstack_Authenticate _ _ _ _ _ _ _) as [[err|provider] w']; simpl in Hauth;
      inversion Hauth; subst; simpl; [exact Hwf|]. left. simpl. eauto.
Qed.

(* a call that ended before any goroutine was launched *)
Lemma quiet_summary mts (s : State W) r s' new :
  trace s' = trace s ++ new -> Forall quiet new ->
  r <> Blocked -> (forall out, r <> Ok out) ->
  wf (c s') -> allLimits (c s') = allLimits (c s) ->
  call_summary mts s r s' new.
Proof.
  intros Ht Hq Hnb Hnok Hwf HL.
  destruct (quiet_events new Hq) as (Q1 & Q2 & Q3 & Q4 & Q5).
  constructor; try assumption.
  - now rewrite Q3.
  - rewrite Q2. constructor.
  - intros task _ Hin. now apply Q4 in Hin.
  - intros _ task Hin. now apply Q4 in Hin.
  - intros out ->. now specialize (Hnok out).
  - intros _ Hne. now rewrite Q2 in Hne.
  - intros ev Hin Hf _. now apply Q5 in Hin.
Qed.

(* a call that ended at the join of the admin phase, on the first error received *)
Lemma admin_error_summary mts (s s2 s3 : State W) pre adm e rest :
  trace s2 = trace s ++ pre -> Forall quiet pre ->
  allLimits (c s2) = allLimits (c s) ->
  running admin_task s2 [] 0 s3 adm -> done s3 = [] ->
  buf (errChn s3) = e :: rest ->
  call_summary mts s (Err e) s3 (pre ++ adm).
Proof.
  intros Ht Hq HL [Hsvc Htr Hbuf Hroom Hlim Hpool Hev Hgo Hnd] Hd Hb.
  destruct (quiet_events pre Hq) as (Q1 & Q2 & Q3 & Q4 & Q5).
  destruct (admin_events adm Hev) as (A1 & A2 & A3 & A4).
  constructor.
  - rewrite Htr, Ht. now rewrite app_assoc.
  - discriminate.
  - now left.
  - rewrite Hlim, HL, A2, foldl_app, Q3, A2. reflexivity.
  - rewrite fetched_app, Q2, A1. constructor.
  - intros task _ Hin. apply elem_of_app in Hin. destruct Hin as [Hin|Hin];
      [now apply Q4 in Hin|].
    destruct (Hgo task Hin) as [Hp|(ev & Hin' & Hfe)].
    + rewrite Hd in Hp. now apply not_elem_of_nil in Hp.
    + exists ev. split; [apply elem_of_app; now right | exact Hfe].
  - intros _ task Hin. apply elem_of_app in Hin. destruct Hin as [Hin|Hin];
      [now apply Q4 in Hin|].
    destruct (Hgo task Hin) as [Hp|(ev & Hin' & Hfe)].
    + rewrite Hd in Hp. now apply not_elem_of_nil in Hp.
    + exists ev. split; [apply elem_of_app; now right | exact Hfe].
  - discriminate.
  - discriminate.
  - intros _ _ _ _. split; [rewrite fetched_app, Q2, A1; reflexivity|].
    assert (Hin : e ∈ flat_map event_errors adm) by (rewrite <- Hbuf, Hb; now left).
    apply error_elem in Hin. destruct Hin as (ev' & Hin' & He).
    exists e, ev'. split; [reflexivity|]. split; [apply elem_of_app; now right|].
    split; [|exact He]. apply A3; [exact Hin'|]. intros Hnil. rewrite Hnil in He.
    now apply not_elem_of_nil in He.
Qed.

(* a call that went through the limits phase *)
Lemma limits_summary mts (s s2 s3 s4 s' : State W) r pre adm lim :
  trace s2 = trace s ++ pre -> Forall quiet pre ->
  allLimits (c s2) = allLimits (c s) ->
  running admin_task s2 [] 0 s3 adm -> done s3 = [] -> buf (errChn s3) = [] ->
  running limits_task s3 [] 0 s4 lim ->
  (r <> Panic -> done s4 = []) ->
  (forall out, r = Ok out -> buf (errChn s4) = []) ->
  (r = Panic -> exists first rest, mts = first :: rest /\ credentials first = Panic) ->
  r <> Blocked -> c s' = c s4 -> trace s' = trace s4 ->
  call_summary mts s r s' (pre ++ adm ++ lim).
Proof.
  intros Ht Hq HL [Hsvc Htr Hbuf Hroom Hlim Hpool Hev Hgo Hnd] Hd Hb
    [Hsvc4 Htr4 Hbuf4 Hroom4 Hlim4 Hpool4 Hev4 Hgo4 Hnd4] Hd4 Hb4 Hpanic Hnb Hc' Ht'.
  destruct (quiet_events pre Hq) as (Q1 & Q2 & Q3 & Q4 & Q5).
  destruct (admin_events adm Hev) as (A1 & A2 & A3 & A4).
  destruct (limits_events lim Hev4) as (L1 & L2).
  assert (Hadm : forall task, EvGo task ∈ adm -> exists ev,
               ev ∈ pre ++ adm ++ lim /\ fetch_event_of task ev).
  { intros task Hin. destruct (Hgo task Hin) as [Hp|(ev & Hin' & Hfe)].
    - rewrite Hd in Hp. now apply not_elem_of_nil in Hp.
    - exists ev. split; [|exact Hfe]. rewrite !elem_of_app. tauto. }
  constructor.
  - rewrite Ht', Htr4, Htr, Ht. now rewrite !app_assoc.
  - exact Hnb.
  - rewrite Hc'. now left.
  - rewrite Hc', Hlim4, Hlim, HL, A2, !foldl_app, Q3, A2. reflexivity.
  - rewrite !fetched_app, Q2, A1. simpl. apply NoDup_app in Hnd4. tauto.
  - intros task Htask Hin. rewrite !elem_of_app in Hin. destruct Hin as [Hin|[Hin|Hin]].
    + now apply Q4 in Hin.
    + now apply Hadm.
    + apply L2 in Hin. destruct task; simpl in *; tauto.
  - intros Hnp task Hin. rewrite !elem_of_app in Hin. destruct Hin as [Hin|[Hin|Hin]].
    + now apply Q4 in Hin.
    + now apply Hadm.
    + destruct (Hgo4 task Hin) as [Hp|(ev & Hin' & Hfe)].
      * rewrite (Hd4 Hnp) in Hp. now apply not_elem_of_nil in Hp.
      * exists ev. split; [|exact Hfe]. rewrite !elem_of_app. tauto.
  - intros out Hout. rewrite !flat_map_app, Q1, <- Hbuf, Hb, <- Hbuf4, (Hb4 _ Hout).
    reflexivity.
  - intros Hp _. now apply Hpanic.
  - intros ev Hin Hf Herr. exfalso. rewrite !elem_of_app in Hin.
    destruct Hin as [Hin|[Hin|Hin]].
    + now apply Q5 in Hin.
    + apply Herr. apply (no_errors_elem adm); [now rewrite <- Hbuf | exact Hin].
    + now apply L1 in Hin.
Qed.

Lemma abort_not_Ok {A B} (r : Outcome A) (b : B) : abort r <> Ok b.
Proof. destruct r; discriminate. Qed.

Lemma abort_not_Blocked {A B} (r : Outcome A) :
  r <> Blocked -> @abort A B r <> Blocked.
Proof. destruct r; simpl; congruence. Qed.

Lemma lift_result_inv {A} (x : error + A) (s : State W) r s' :
  lift_result x s = (r, s') -> s' = s /\ r <> Blocked.
Proof. destruct x; intros H; inversion H; subst; split; congruence. Qed.

Lemma lift_outcome_inv {A} (o : Outcome A) (s : State W) r s' :
  lift_outcome o s = (r, s') -> s' = s /\ r = o.
Proof. intros H. inversion H. split; reflexivity. Qed.

Lemma plan_loop_not_Blocked mts : forall p0, plan_loop mts p0 <> Blocked.
Proof.
  induction mts as [|mt rest IH]; intros p0; simpl; [discriminate|].
  destruct (decide _); [discriminate|]. destruct (_ !! 3); [apply IH | discriminate].
Qed.

(* after the length check of the plan, indexing the namespaces is safe *)
Lemma projection_no_panic mts : forall (s : State W) r s',
  Forall (fun mt => 6 <= length (Namespace_ mt)) mts ->
  projection mts s = (r, s') -> r <> Panic.
Proof.
  induction mts as [|mt rest IH]; intros s r s' Hlong Hrun; simpl in Hrun.
  - inversion Hrun. discriminate.
  - inversion Hlong as [|? ? Hmt Hrest]; subst.
    destruct (Strings (Namespace_ mt) !! 3) as [tenant|] eqn:H3.
    + unfold bind at 1, ask in Hrun. destruct (time_Now (world s)) as [now w'].
      apply bind_inv in Hrun. destruct Hrun as [(ms & s1 & H1 & Hrun)|(r0 & H1 & Hr0 & ->)].
      * inversion Hrun. discriminate.
      * apply IH in H1; [|exact Hrest]. destruct r0; simpl; congruence.
    + apply lookup_ge_None in H3. unfold Strings in H3. rewrite length_map in H3. lia.
Qed.

(** Every call of [CollectMetrics] on a well-formed engine has a summary. *)
Lemma CollectMetrics_summary mts (s : State W) r s' :
  wf (c s) ->
  CollectMetrics mts s = (r, s') ->
  exists new, call_summary mts s r s' new.
Proof.
  intros Hwf Hrun. destruct mts as [|first rest].
  { inversion Hrun; subst. exists []. apply quiet_summary; try congruence.
    - now rewrite app_nil_r.
    - constructor. }
  rewrite CollectMetrics_cons in Hrun.
  (* the admin tenant *)
  apply bind_inv in Hrun. destruct Hrun as [(item & s1 & H1 & Hrun)|(r0 & H1 & Hr0 & ->)];
    apply lift_result_inv in H1; destruct H1 as [-> Hnb1].
  2:{ exists []. apply quiet_summary; try congruence.
      - now rewrite app_nil_r.
      - constructor.
      - now apply abort_not_Blocked.
      - intros out. apply abort_not_Ok. }
  apply bind_inv in Hrun. destruct Hrun as [(admin & s1 & H2 & Hrun)|(r0 & H2 & Hr0 & ->)];
    apply lift_outcome_inv in H2; destruct H2 as [-> H2].
  2:{ exists []. apply quiet_summary; try congruence.
      - now rewrite app_nil_r.
      - constructor.
      - apply abort_not_Blocked. rewrite H2. apply type_assert_string_not_Blocked.
      - intros out. apply abort_not_Ok. }
  (* the tenant directory *)
  apply bind_inv in Hrun. destruct Hrun as [([] & s2 & H3 & Hrun)|(r0 & H3 & Hr0 & ->)];
    apply populate_tenants_effect in H3;
    destruct H3 as (Hnb3 & Hp3 & Hs3 & Hl3 & pre & Ht3 & _ & Hpre & _).
  2:{ exists pre. apply quiet_summary; try assumption.
      - eapply Forall_impl; [exact Hpre|]. intros []; simpl; tauto.
      - now apply abort_not_Blocked.
      - intros out. apply abort_not_Ok.
      - unfold wf. now rewrite Hp3, Hs3. }
  assert (Hq : Forall quiet pre) by (eapply Forall_impl; [exact Hpre|]; intros []; simpl; tauto).
  assert (Hwf2 : wf (c s2)) by (unfold wf; now rewrite Hp3, Hs3).
  (* the plan *)
  apply bind_inv in Hrun. destruct Hrun as [(p & s3 & H4 & Hrun)|(r0 & H4 & Hr0 & ->)];
    apply lift_outcome_inv in H4; destruct H4 as [-> H4].
  2:{ exists pre. apply quiet_summary; try assumption.
      - apply abort_not_Blocked. rewrite H4. apply plan_loop_not_Blocked.
      - intros out. apply abort_not_Ok. }
  unfold bind at 1 in Hrun. simpl in Hrun. unfold bind at 1 in Hrun. simpl in Hrun.
  match type of Hrun with bind _ _ ?st = _ => remember st as s4 eqn:Hs4 end.
  assert (Hc4 : c s4 = c s2) by now subst s4.
  assert (Ht4 : trace s4 = trace s ++ pre) by now subst s4.
  clear Hs4.
  (* the admin phase *)
  apply bind_inv in Hrun. destruct Hrun as [([] & s5 & H5 & Hrun)|(r0 & H5 & Hr0 & ->)];
    (apply admin_phase_running in H5; [|now rewrite Hc4]);
    destruct H5 as [(ra & Hauth & Hra & Hnok)|(adm & Hrun5 & Hd5 & Hbuf5)].
  - exfalso. destruct ra; simpl in Hra; discriminate.
  - destruct (buf (errChn s5)) as [|e erest] eqn:Hb5; [|discriminate].
    (* the limits phase *)
    destruct (limits_phase_running first p s5 (run_service _ _ _ _ _ _ Hrun5))
      as (rl & s6 & lim & Hlim & Hnbl & Hrun6 & Hd6 & Hok6 & Hpanic).
    unfold bind at 1 in Hrun. rewrite Hlim in Hrun.
    exists (pre ++ adm ++ lim).
    destruct rl as [[]|e| |]; try congruence.
    + assert (Hnp : r <> Panic).
      { eapply (projection_no_panic (first :: rest)); [|exact Hrun].
        symmetry in H4. exact (plan_loop_long _ _ _ H4). }
      apply (projection_effect (first :: rest) s6 r s') in Hrun.
      destruct Hrun as (Hc' & Ht' & _ & _ & Hr).
      eapply limits_summary; try eassumption; try reflexivity.
      * now rewrite Hc4, Hl3.
      * intros _. apply Hd6. discriminate.
      * intros out _. now apply Hok6.
      * intros Hp. contradiction.
      * destruct Hr as [->|(out & -> & _)]; discriminate.
    + inversion Hrun; subst.
      eapply limits_summary; try eassumption; try reflexivity.
      * now rewrite Hc4, Hl3.
      * intros _. apply Hd6. discriminate.
      * discriminate.
      * discriminate.
      * discriminate.
    + inversion Hrun; subst.
      eapply limits_summary; try eassumption; try reflexivity.
      * now rewrite Hc4, Hl3.
      * intros Hp. now contradiction Hp.
      * discriminate.
      * intros _. exists first, rest. split; [reflexivity|]. now apply Hpanic.
      * discriminate.
  - apply authenticate_effect in Hauth as Heff.
    destruct Heff as (Hnba & HL & _ & _ & _ & _ & _ & _ & _ & _ & _ & new1 & Ht1 & _ & Hnew).
    exists (pre ++ new1). apply quiet_summary.
    + rewrite Ht1, Ht4. now rewrite app_assoc.
    + apply Forall_app. split; [exact Hq|]. eapply Forall_impl; [exact Hnew|].
      intros ev (ep & u & pw & dn & di & res & ->). exact I.
    + subst r0. apply abort_not_Blocked. now apply abort_not_Blocked.
    + intros out. apply abort_not_Ok.
    + eapply authenticate_wf; [|exact Hauth]. now rewrite Hc4.
    + now rewrite HL, Hc4, Hl3.
  - exists (pre ++ adm). destruct (buf (errChn s')) as [|e erest] eqn:Hb5.
    + exfalso. apply (Hr0 tt). exact Hbuf5.
    + subst r0. simpl. eapply admin_error_summary; try eassumption.
      now rewrite Hc4, Hl3.
Qed.

(** ** The limits cache is never re-fetched *)

Lemma untouched_refl t s : untouched t s s.
Proof. split; [reflexivity|]. exists []. now rewrite app_nil_r. Qed.

Lemma untouched_trans t s1 s2 s3 :
  untouched t s1 s2 -> untouched t s2 s3 -> untouched t s1 s3.
Proof.
  intros (H1 & new1 & Ht1 & Hf1) (H2 & new2 & Ht2 & Hf2). split; [congruence|].
  exists (new1 ++ new2). split; [rewrite Ht2, Ht1; now rewrite app_assoc|].
  apply Forall_app. now split.
Qed.

Lemma step_ok_bind (I : State W -> Prop) (R : State W -> State W -> Prop)
    {A B} (m : M A) (k : A -> M B) :
  (forall s1 s2 s3, R s1 s2 -> R s2 s3 -> R s1 s3) ->
  step_ok I R m -> (forall a, step_ok I R (k a)) -> step_ok I R (bind m k).
Proof.
  intros Htrans Hm Hk s r s' HI Hrun. apply bind_inv in Hrun.
  destruct Hrun as [(a & s1 & H1 & H2)|(r0 & H1 & _ & _)].
  - destruct (Hm _ _ _ HI H1) as [HR1 HI1]. destruct (Hk a _ _ _ HI1 H2) as [HR2 HI2].
    split; [eapply Htrans; eassumption | exact HI2].
  - exact (Hm _ _ _ HI H1).
Qed.

Lemma send_if_error_inv err (s : State W) r s' :
  send_if_error err s = (r, s') ->
  c s' = c s /\ trace s' = trace s /\ done s' = done s.
Proof.
  destruct err as [e|]; simpl; [unfold send; destruct (decide _)|];
    intros H; inversion H; subst; repeat split.
Qed.

(* actions that leave the collector, the trace and the pool alone *)
Lemma step_ok_silent t {A} (m : M A) :
  (forall s r s', m s = (r, s') -> c s' = c s /\ trace s' = trace s /\ done s' = done s) ->
  step_ok (pool_avoids t) (untouched t) m.
Proof.
  intros Hm s r s' HI Hrun. destruct (Hm _ _ _ Hrun) as (Hc & Ht & Hd). split.
  - split; [now rewrite Hc|]. exists []. now rewrite app_nil_r.
  - unfold pool_avoids. now rewrite Hd.
Qed.

Lemma get_service_untouched t : step_ok (pool_avoids t) (untouched t) get_service.
Proof.
  apply step_ok_silent. intros s r s'. unfold get_service, bind, get_c. simpl.
  destruct (service (c s)); intros H; inversion H; subst; repeat split.
Qed.

Lemma call_untouched t {A} (f : W -> A * W) (ev : A -> Event) :
  (forall a, event_avoids t (ev a)) ->
  step_ok (pool_avoids t) (untouched t) (call f ev).
Proof.
  intros Hev s r s' HI Hrun. unfold call in Hrun. destruct (f (world s)) as [a w'].
  inversion Hrun; subst. split; [|exact HI]. split; [reflexivity|].
  eexists. split; [reflexivity|]. simpl. now repeat constructor.
Qed.

Lemma ask_untouched t {A} (f : W -> A * W) :
  step_ok (pool_avoids t) (untouched t) (ask f).
Proof.
  apply step_ok_silent. intros s r s'. unfold ask. destruct (f (world s)).
  intros H; inversion H; subst; repeat split.
Qed.

Lemma send_if_error_untouched t err :
  step_ok (pool_avoids t) (untouched t) (send_if_error err).
Proof. apply step_ok_silent. intros s r s'. apply send_if_error_inv. Qed.

Lemma store_volumes_untouched t volumes :
  step_ok (pool_avoids t) (untouched t) (store_volumes volumes).
Proof.
  apply step_ok_silent. intros s r s' Hrun.
  destruct (store_volumes_total volumes s) as (s1 & H1 & Hc & _ & Ht & _ & Hd).
  rewrite H1 in Hrun. inversion Hrun; subst. repeat split; assumption.
Qed.

Lemma store_snapshots_untouched t snapshots :
  step_ok (pool_avoids t) (untouched t) (store_snapshots snapshots).
Proof.
  apply step_ok_silent. intros s r s' Hrun.
  destruct (store_snapshots_total snapshots s) as (s1 & H1 & Hc & _ & Ht & _ & Hd).
  rewrite H1 in Hrun. inversion Hrun; subst. repeat split; assumption.
Qed.

Lemma run_task_untouched t task :
  task_avoids t task -> step_ok (pool_avoids t) (untouched t) (run_task task).
Proof.
  intros Hav. destruct task as [provider|provider|p t']; simpl.
  - apply step_ok_bind; [apply untouched_trans | apply get_service_untouched | intros svc].
    apply step_ok_bind; [apply untouched_trans | now apply call_untouched | intros res].
    apply step_ok_bind; [apply untouched_trans | apply send_if_error_untouched | intros _].
    apply store_volumes_untouched.
  - apply step_ok_bind; [apply untouched_trans | apply get_service_untouched | intros svc].
    apply step_ok_bind; [apply untouched_trans | now apply call_untouched | intros res].
    apply step_ok_bind; [apply untouched_trans | apply send_if_error_untouched | intros _].
    apply store_snapshots_untouched.
  - apply step_ok_bind; [apply untouched_trans | apply get_service_untouched | intros svc].
    apply step_ok_bind; [apply untouched_trans | now apply call_untouched | intros res].
    apply step_ok_bind; [apply untouched_trans | apply send_if_error_untouched | intros _].
    intros s r s' HI Hrun. inversion Hrun; subst. split; [|exact HI].
    split; [simpl; now apply lookup_insert_ne|]. exists []. simpl. now rewrite app_nil_r.
Qed.

Lemma pool_avoids_pick t (pool : list Task) task rest :
  Forall (task_avoids t) pool -> pool ≡ₚ task :: rest ->
  task_avoids t task /\ Forall (task_avoids t) rest.
Proof. intros Hall Hperm. rewrite Hperm in Hall. now inversion Hall. Qed.

Lemma resume_untouched t task rest (s : State W) r s' :
  task_avoids t task -> Forall (task_avoids t) rest ->
  resume task rest s = (r, s') ->
  untouched t s s' /\ pool_avoids t s'.
Proof.
  intros Htask Hrest Hrun. unfold resume, bind at 1 in Hrun. simpl in Hrun.
  match type of Hrun with run_task _ ?s1 = _ =>
    assert (HR1 : untouched t s s1) by
      (split; [reflexivity|]; exists []; simpl; now rewrite app_nil_r);
    assert (HI1 : pool_avoids t s1) by exact Hrest end.
  destruct (run_task_untouched t task Htask _ _ _ HI1 Hrun) as [HR2 HI2].
  split; [eauto using untouched_trans | exact HI2].
Qed.

Lemma run_some_S fuel (s : State W) :
  run_some (S fuel) s =
  bind (ask (sched_choose (S (length (done s)))))
    (fun i => match take_nth i (done s) with
              | Some (task, rest) => bind (resume task rest) (fun _ => run_some fuel)
              | None => ret tt
              end) s.
Proof. reflexivity. Qed.

Lemma run_some_untouched t fuel :
  step_ok (pool_avoids t) (untouched t) (run_some fuel).
Proof.
  induction fuel as [|fuel IH].
  - apply step_ok_silent. intros s r s' H. inversion H; subst. repeat split.
  - intros s r s' HI Hrun. rewrite run_some_S in Hrun.
    apply bind_inv in Hrun. destruct Hrun as [(i & s1 & H1 & Hrun)|(r0 & H1 & _ & _)];
      [|exact (ask_untouched t _ _ _ _ HI H1)].
    destruct (ask_untouched t _ _ _ _ HI H1) as [HR1 HI1].
    destruct (take_nth i (done s)) as [[task rest]|] eqn:Hpick.
    + apply take_nth_Some in Hpick.
      destruct (pool_avoids_pick t _ _ _ HI Hpick) as [Htask Hrest].
      apply bind_inv in Hrun. destruct Hrun as [([] & s2 & H2 & Hrun)|(r0 & H2 & _ & _)];
        destruct (resume_untouched t _ _ _ _ _ Htask Hrest H2) as [HR2 HI2].
      * destruct (IH _ _ _ HI2 Hrun) as [HR3 HI3].
        split; [eauto using untouched_trans | exact HI3].
      * split; [eauto using untouched_trans | exact HI2].
    + inversion Hrun; subst. split; assumption.
Qed.

Lemma run_all_S fuel (s : State W) :
  run_all (S fuel) s =
  match done s with
  | [] => (Ok tt, s)
  | _ :: _ =>
      bind (ask (sched_choose (length (done s))))
        (fun i => match take_nth (i mod length (done s)) (done s) with
                  | Some (task, rest) => bind (resume task rest) (fun _ => run_all fuel)
                  | None => ret tt
                  end) s
  end.
Proof. reflexivity. Qed.

Lemma run_all_untouched t fuel :
  step_ok (pool_avoids t) (untouched t) (run_all fuel).
Proof.
  induction fuel as [|fuel IH].
  - apply step_ok_silent. intros s r s' H. inversion H; subst. repeat split.
  - intros s r s' HI Hrun. rewrite run_all_S in Hrun.
    destruct (done s) as [|task0 pool0] eqn:Hpool.
    { inversion Hrun; subst. split; [apply untouched_refl | exact HI]. }
    rewrite <- Hpool in Hrun. clear Hpool.
    apply bind_inv in Hrun. destruct Hrun as [(i & s1 & H1 & Hrun)|(r0 & H1 & _ & _)];
      [|exact (ask_untouched t _ _ _ _ HI H1)].
    destruct (ask_untouched t _ _ _ _ HI H1) as [HR1 HI1].
    destruct (take_nth (i mod length (done s)) (done s)) as [[task rest]|] eqn:Hpick.
    + apply take_nth_Some in Hpick.
      destruct (pool_avoids_pick t _ _ _ HI Hpick) as [Htask Hrest].
      apply bind_inv in Hrun. destruct Hrun as [([] & s2 & H2 & Hrun)|(r0 & H2 & _ & _)];
        destruct (resume_untouched t _ _ _ _ _ Htask Hrest H2) as [HR2 HI2].
      * destruct (IH _ _ _ HI2 Hrun) as [HR3 HI3].
        split; [eauto using untouched_trans | exact HI3].
      * split; [eauto using untouched_trans | exact HI2].
    + inversion Hrun; subst. split; assumption.
Qed.

Lemma Wait_untouched t : step_ok (pool_avoids t) (untouched t) Wait.
Proof. intros s r s' HI Hrun. exact (run_all_untouched t _ _ _ _ HI Hrun). Qed.

Lemma go_untouched t task :
  task_avoids t task -> step_ok (pool_avoids t) (untouched t) (go task).
Proof.
  intros Hav s r s' HI Hrun. unfold go, bind at 1 in Hrun. simpl in Hrun.
  unfold bind at 1 in Hrun. simpl in Hrun. unfold preempt in Hrun. simpl in Hrun.
  match type of Hrun with run_some _ ?s2 = _ =>
    assert (HR2 : untouched t s s2) by
      (split; [reflexivity|]; exists [EvGo task]; split; [reflexivity|]; now repeat constructor);
    assert (HI2 : pool_avoids t s2) by
      (unfold pool_avoids; simpl; apply Forall_app; split; [exact HI | now repeat constructor])
  end.
  destruct (run_some_untouched t _ _ _ _ HI2 Hrun) as [HR3 HI3].
  split; [eauto using untouched_trans | exact HI3].
Qed.

Lemma authenticate_untouched t cfg tenant :
  step_ok (pool_avoids t) (untouched t) (authenticate cfg tenant).
Proof.
  intros s r s' HI Hrun. apply authenticate_effect in Hrun.
  destruct Hrun as (_ & HL & _ & _ & _ & _ & Hd & _ & _ & _ & _ & new & Ht & _ & Hnew).
  split.
  - split; [now rewrite HL|]. exists new. split; [exact Ht|].
    eapply Forall_impl; [exact Hnew|]. intros ev (ep & u & pw & dn & di & res & ->). exact I.
  - unfold pool_avoids. now rewrite Hd.
Qed.

Lemma close_and_receive_untouched t :
  step_ok (pool_avoids t) (untouched t) close_and_receive.
Proof.
  apply step_ok_silent. intros s r s'. unfold close_and_receive.
  destruct (buf (errChn s)); intros H; inversion H; subst; repeat split.
Qed.

(** While [t] has an entry in the cache, the loop of the limits phase
    launches nothing for [t]. *)
Lemma limits_loop_untouched t cfg flag : forall rem s r s',
  is_Some (allLimits (c s) !! t) -> pool_avoids t s ->
  limits_loop cfg flag rem s = (r, s') ->
  untouched t s s' /\ pool_avoids t s'.
Proof.
  induction rem as [|tenant rest IH]; intros s r s' Hcached HI Hrun; simpl in Hrun.
  - inversion Hrun; subst. split; [apply untouched_refl | exact HI].
  - unfold bind at 1 in Hrun. simpl in Hrun.
    apply bind_inv in Hrun.
    assert (Hstep : step_ok (pool_avoids t) (untouched t)
              (if flag && negb (bool_decide (is_Some (allLimits (c s) !! tenant)))
               then bind (authenticate cfg tenant) (fun _ =>
                      bind get_c (fun cur =>
                        go (LimitsTask (default nilProvider (providers cur !! tenant)) tenant)))
               else ret tt)).
    { destruct (flag && negb (bool_decide (is_Some (allLimits (c s) !! tenant)))) eqn:Hl.
      - assert (Hne : tenant <> t).
        { intros ->. apply andb_prop in Hl. destruct Hl as [_ Hl].
          apply negb_true_iff, bool_decide_eq_false in Hl. contradiction. }
        apply step_ok_bind; [apply untouched_trans | apply authenticate_untouched | intros _].
        apply step_ok_bind; [apply untouched_trans | | intros cur; now apply go_untouched].
        apply step_ok_silent. intros s0 r0 s0' H. inversion H; subst. repeat split.
      - apply step_ok_silent. intros s0 r0 s0' H. inversion H; subst. repeat split. }
    destruct Hrun as [([] & s1 & H1 & Hrun)|(r0 & H1 & _ & _)].
    + destruct (Hstep _ _ _ HI H1) as [HR1 HI1].
      destruct (IH s1 r s') as [HR2 HI2]; try assumption.
      * destruct HR1 as [HL _]. now rewrite HL.
      * split; [eauto using untouched_trans | exact HI2].
    + exact (Hstep _ _ _ HI H1).
Qed.

Lemma limits_phase_untouched t cfg p (s : State W) r s' :
  is_Some (allLimits (c s) !! t) ->
  limits_phase cfg p s = (r, s') ->
  untouched t s s'.
Proof.
  intros Hcached Hrun. unfold limits_phase in Hrun.
  unfold bind at 1 in Hrun. simpl in Hrun. unfold bind at 1 in Hrun. simpl in Hrun.
  unfold bind at 1, Elements in Hrun.
  match type of Hrun with context [pick_order ?n ?l ?s1] =>
    destruct (pick_order_total n l s1) as
      (tenants & s2 & Hpick & _ & Hc & Ht & _ & Hd & _ & _); [lia|] end.
  rewrite Hpick in Hrun. simpl in Hc, Ht, Hd.
  assert (HR2 : untouched t s s2).
  { split; [now rewrite Hc|]. exists []. now rewrite app_nil_r. }
  assert (HI2 : pool_avoids t s2) by (unfold pool_avoids; rewrite Hd; constructor).
  destruct (limits_loop cfg (collectLimits p) tenants s2) as [rl s3] eqn:Hloop.
  apply limits_loop_untouched with (t := t) in Hloop; [|now rewrite Hc | exact HI2].
  destruct Hloop as [HR3 HI3].
  assert (HR : untouched t s s3) by eauto using untouched_trans.
  destruct rl as [[]|e| |].
  - apply bind_inv in Hrun. destruct Hrun as [([] & s4 & H4 & Hrun)|(r0 & H4 & _ & _)];
      destruct (Wait_untouched t _ _ _ HI3 H4) as [HR4 HI4];
      [|eauto using untouched_trans].
    destruct (close_and_receive_untouched t _ _ _ HI4 Hrun) as [HR5 _].
    eauto using untouched_trans.
  - apply bind_inv in Hrun. destruct Hrun as [([] & s4 & H4 & Hrun)|(r0 & H4 & _ & _)];
      destruct (Wait_untouched t _ _ _ HI3 H4) as [HR4 HI4];
      [|eauto using untouched_trans].
    inversion Hrun; subst. eauto using untouched_trans.
  - inversion Hrun; subst. exact HR.
  - inversion Hrun; subst. exact HR.
Qed.

Lemma admin_phase_untouched t cfg admin p (s : State W) r s' :
  admin_phase cfg admin p s = (r, s') -> untouched t s s'.
Proof.
  intros Hrun. unfold admin_phase in Hrun.
  apply bind_inv in Hrun. destruct Hrun as [([] & s1 & H1 & Hrun)|(r0 & H1 & _ & _)].
  2:{ apply authenticate_effect in H1.
      destruct H1 as (_ & HL & _ & _ & _ & _ & _ & _ & _ & _ & _ & new & Ht & _ & Hnew).
      split; [now rewrite HL|]. exists new. split; [exact Ht|].
      eapply Forall_impl; [exact Hnew|]. intros ev (ep & u & pw & dn & di & res & ->).
      exact I. }
  apply authenticate_effect in H1.
  destruct H1 as (_ & HL & _ & _ & _ & _ & _ & _ & _ & _ & _ & new & Ht & _ & Hnew).
  assert (HR1 : untouched t s s1).
  { split; [now rewrite HL|]. exists new. split; [exact Ht|].
    eapply Forall_impl; [exact Hnew|]. intros ev (ep & u & pw & dn & di & res & ->).
    exact I. }
  unfold bind at 1 in Hrun. simpl in Hrun.
  unfold bind at 1 in Hrun. simpl in Hrun.
  unfold bind at 1 in Hrun. simpl in Hrun.
  match type of Hrun with bind _ _ ?s2 = _ =>
    assert (HR2 : untouched t s1 s2) by
      (split; [reflexivity|]; exists []; simpl; now rewrite app_nil_r);
    assert (HI2 : pool_avoids t s2) by constructor;
    remember s2 as st2 eqn:Hst2; clear Hst2 end.
  assert (Hrest : step_ok (pool_avoids t) (untouched t)
            (bind (if collectVolumes p
                   then go (VolumesTask (default nilProvider (providers (c s1) !! admin)))
                   else ret tt) (fun _ =>
             bind (if collectSnapshots p
                   then go (SnapshotsTask (default nilProvider (providers (c s1) !! admin)))
                   else ret tt) (fun _ =>
             bind Wait (fun _ => close_and_receive))))).
  { apply step_ok_bind; [apply untouched_trans | | intros _].
    { destruct (collectVolumes p); [now apply go_untouched|].
      apply step_ok_silent. intros s0 r0 s0' H. inversion H; subst. repeat split. }
    apply step_ok_bind; [apply untouched_trans | | intros _].
    { destruct (collectSnapshots p); [now apply go_untouched|].
      apply step_ok_silent. intros s0 r0 s0' H. inversion H; subst. repeat split. }
    apply step_ok_bind; [apply untouched_trans | apply Wait_untouched | intros _].
    apply close_and_receive_untouched. }
  destruct (Hrest _ _ _ HI2 Hrun) as [HR3 _]. eauto using untouched_trans.
Qed.

(** One call leaves every cached tenant untouched. *)
Lemma CollectMetrics_untouched t mts (s : State W) r s' :
  is_Some (allLimits (c s) !! t) ->
  CollectMetrics mts s = (r, s') ->
  untouched t s s'.
Proof.
  intros Hcached Hrun. destruct mts as [|first rest].
  { inversion Hrun; subst. apply untouched_refl. }
  rewrite CollectMetrics_cons in Hrun.
  apply bind_inv in Hrun. destruct Hrun as [(item & s1 & H1 & Hrun)|(r0 & H1 & _ & _)];
    apply lift_result_inv in H1; destruct H1 as [-> _]; [|apply untouched_refl].
  apply bind_inv in Hrun. destruct Hrun as [(admin & s1 & H2 & Hrun)|(r0 & H2 & _ & _)];
    apply lift_outcome_inv in H2; destruct H2 as [-> _]; [|apply untouched_refl].
  assert (Hpop : forall r0 s2, populate_tenants first s = (r0, s2) -> untouched t s s2).
  { intros r0 s2 H3. apply populate_tenants_effect in H3.
    destruct H3 as (_ & _ & _ & Hl3 & pre & Ht3 & _ & Hpre & _).
    split; [now rewrite Hl3|]. exists pre. split; [exact Ht3|].
    eapply Forall_impl; [exact Hpre|]. intros []; simpl; tauto. }
  apply bind_inv in Hrun. destruct Hrun as [([] & s2 & H3 & Hrun)|(r0 & H3 & _ & _)];
    apply Hpop in H3; [|exact H3].
  assert (HR : untouched t s s2) by exact H3.
  apply bind_inv in Hrun. destruct Hrun as [(p & s3 & H4 & Hrun)|(r0 & H4 & _ & _)];
    apply lift_outcome_inv in H4; destruct H4 as [-> _]; [|exact HR].
  unfold bind at 1 in Hrun. simpl in Hrun. unfold bind at 1 in Hrun. simpl in Hrun.
  match type of Hrun with bind _ _ ?st = _ =>
    assert (HR4 : untouched t s2 st) by
      (split; [reflexivity|]; exists []; simpl; now rewrite app_nil_r);
    remember st as s4 eqn:Hs4; clear Hs4 end.
  apply bind_inv in Hrun. destruct Hrun as [([] & s5 & H5 & Hrun)|(r0 & H5 & _ & _)];
    apply (admin_phase_untouched t) in H5; [|eauto using untouched_trans].
  assert (HR5 : untouched t s s5) by eauto using untouched_trans.
  apply bind_inv in Hrun. destruct Hrun as [([] & s6 & H6 & Hrun)|(r0 & H6 & _ & _)];
    (apply (limits_phase_untouched t) in H6;
     [|destruct HR5 as [HL5 _]; now rewrite HL5]); [|eauto using untouched_trans].
  apply (projection_effect (first :: rest)) in Hrun.
  destruct Hrun as (Hc & Ht & _).
  assert (HR7 : untouched t s6 s').
  { split; [now rewrite Hc|]. exists []. now rewrite app_nil_r. }
  eauto using untouched_trans.
Qed.

Lemma run_calls_untouched t calls : forall s : State W,
  is_Some (allLimits (c s) !! t) -> untouched t s (run_calls calls s).
Proof.
  induction calls as [|mts rest IH]; intros s Hcached; simpl.
  - apply untouched_refl.
  - destruct (CollectMetrics mts s) as [r s1] eqn:Hcall.
    apply (CollectMetrics_untouched t) in Hcall; [|exact Hcached].
    assert (Hc1 : is_Some (allLimits (c s1) !! t))
      by (destruct Hcall as [HL _]; now rewrite HL).
    destruct r; try exact Hcall; eauto using untouched_trans.
Qed.

Lemma untouched_no_fetch t (s s' : State W) :
  untouched t s s' ->
  exists new, trace s' = trace s ++ new /\
    (forall p, EvGo (LimitsTask p t) ∉ new) /\
    (forall p r, EvGetLimits t p r ∉ new).
Proof.
  intros (_ & new & Ht & Hall). exists new. split; [exact Ht|].
  rewrite Forall_forall in Hall. split.
  - intros p Hin. apply Hall in Hin. simpl in Hin. congruence.
  - intros p r Hin. apply Hall in Hin. simpl in Hin. congruence.
Qed.



Lemma fetched_elem t p r (evs : list Event) :
  EvGetLimits t p r ∈ evs -> t ∈ fetched evs.
Proof.
  induction evs as [|ev evs IH]; intros Hin.
  - now apply not_elem_of_nil in Hin.
  - simpl. apply elem_of_app. apply elem_of_cons in Hin. destruct Hin as [<-|Hin].
    + left. now left.
    + right. now apply IH.
Qed.


(** C5.  Every volumes or snapshots goroutine a call launched has completed
    its fetch when the call returns.  When one of these fetches failed, the
    call returns an error, which is the error of a failed volumes or
    snapshots fetch of this call, and so no metric value; it ends at the
    join, before the limits phase, and the limits cache is as before. *)
Theorem admin_phase_all_or_nothing mts (s : State W) r s' new :
  wf (c s) ->
  CollectMetrics mts s = (r, s') ->
  trace s' = trace s ++ new ->
  (forall task, admin_task task -> EvGo task ∈ new ->
                exists ev, ev ∈ new /\ fetch_event_of task ev) /\
  ((exists ev, ev ∈ new /\ admin_fetch ev /\ event_errors ev <> []) ->
   (exists e ev, r = Err e /\ ev ∈ new /\ admin_fetch ev /\ e ∈ event_errors ev) /\
   allLimits (c s') = allLimits (c s)).
Proof.
  intros Hwf Hcall Htrace.
  destruct (CollectMetrics_summary _ _ _ _ Hwf Hcall) as (new0 & Hsum).
  assert (new0 = new) by (pose proof (cs_trace _ _ _ _ _ Hsum) as H;
                          rewrite Htrace in H; now apply app_inv_head in H).
  subst new0. split; [exact (cs_admin_joined _ _ _ _ _ Hsum)|].
  intros (ev & Hin & Hadm & Herr).
  destruct (cs_admin_error _ _ _ _ _ Hsum ev Hin Hadm Herr)
    as (Hnone & e & ev' & Hr & Hev').
  split; [eauto|]. rewrite (cs_limits _ _ _ _ _ Hsum). now apply fetched_nil_foldl.
Qed.

(** ** The values returned *)

Lemma bind_Ok_inv {A B} (m : M A) (k : A -> M B) s b s' :
  bind m k s = (Ok b, s') -> exists a s1, m s = (Ok a, s1) /\ k a s1 = (Ok b, s').
Proof.
  intros H. apply bind_inv in H. destruct H as [H|(r0 & _ & _ & Hab)]; [exact H|].
  symmetry in Hab. now apply abort_not_Ok in Hab.
Qed.


(** ** Malformed namespaces *)

(** C2, as the code has it.  A request list with a namespace of fewer than
    6 segments never succeeds, and before it returns the call performs no
    authentication and no volumes, snapshots or limits fetch: its only
    possible event is one listing of the tenant directory, which happens
    when the engine's directory is empty.  When the [tenant] item of the
    first request is a string, and the directory was populated or its
    listing succeeded, the error returned is the namespace-length error. *)
Theorem short_namespace_rejected mts (s : State W) r s' :
  (exists mt, mt ∈ mts /\ length (Namespace_ mt) < 6) ->
  CollectMetrics mts s = (r, s') ->
  (forall out, r <> Ok out) /\
  exists new,
    trace s' = trace s ++ new /\ length new <= 1 /\ Forall is_GetTenants new /\
    (allTenants (c s) <> ∅ -> new = []) /\
    (forall first rest admin,
        mts = first :: rest ->
        GetConfigItem first "tenant" = inr (CfgStr admin) ->
        allTenants (c s) <> ∅ \/
        (exists ep u pw dn di ts, EvGetTenants ep u pw dn di (inr ts) ∈ new) ->
        exists n, n < 6 /\ r = Err (ErrNamespaceLength n)).
Proof.
  intros Hshort Hrun. destruct mts as [|first rest].
  { destruct Hshort as (mt & Hin & _). now apply not_elem_of_nil in Hin. }
  destruct (plan_loop_short (first :: rest) empty_plan Hshort) as (n & Hn & Hplan).
  rewrite CollectMetrics_cons in Hrun.
  assert (Hnil : forall r0 : Outcome (list MetricType),
             (forall out, r0 <> Ok out) ->
             (forall admin, GetConfigItem first "tenant" = inr (CfgStr admin) -> False) ->
             (forall out, r0 <> Ok out) /\
             exists new, trace s = trace s ++ new /\ length new <= 1 /\
               Forall is_GetTenants new /\ (allTenants (c s) <> ∅ -> new = []) /\
               (forall first' rest' admin,
                   first :: rest = first' :: rest' ->
                   GetConfigItem first' "tenant" = inr (CfgStr admin) ->
                   allTenants (c s) <> ∅ \/
                   (exists ep u pw dn di ts, EvGetTenants ep u pw dn di (inr ts) ∈ new) ->
                   exists n, n < 6 /\ r0 = Err (ErrNamespaceLength n))).
  { intros r0 Hr0 Hcfg. split; [exact Hr0|]. exists []. rewrite app_nil_r.
    split; [reflexivity|]. split; [simpl; lia|]. split; [constructor|].
    split; [reflexivity|]. intros first' rest' admin Heq Hitem _.
    inversion Heq; subst. exfalso. eauto. }
  apply bind_inv in Hrun. destruct Hrun as [(item & s1 & H1 & Hrun)|(r0 & H1 & Hr0 & ->)].
  2:{ apply lift_result_inv in H1 as Hs. destruct Hs as [-> _].
      apply Hnil; [intros out; apply abort_not_Ok|].
      intros admin Hitem. rewrite Hitem in H1. inversion H1; subst. now apply (Hr0 (CfgStr admin)). }
  assert (Hitem : GetConfigItem first "tenant" = inr item /\ s1 = s).
  { destruct (GetConfigItem first "tenant"); inversion H1; subst; split; reflexivity. }
  destruct Hitem as [Hitem ->]. clear H1.
  apply bind_inv in Hrun. destruct Hrun as [(admin & s1 & H2 & Hrun)|(r0 & H2 & Hr0 & ->)];
    apply lift_outcome_inv in H2; destruct H2 as [-> H2].
  2:{ apply Hnil; [intros out; apply abort_not_Ok|].
      intros admin Hitem'. rewrite Hitem in Hitem'. inversion Hitem'; subst.
      simpl in Hr0. now apply (Hr0 admin). }
  clear Hnil.
  apply bind_inv in Hrun. destruct Hrun as [([] & s2 & H3 & Hrun)|(r0 & H3 & Hr0 & ->)];
    apply populate_tenants_effect in H3;
    destruct H3 as (_ & _ & _ & _ & pre & Ht3 & Hlen & Hpre & Hfull & Hlisted).
  2:{ split; [intros out; apply abort_not_Ok|]. exists pre.
      split; [exact Ht3|]. split; [exact Hlen|]. split; [exact Hpre|].
      split; [intros Hne; now apply Hfull|].
      intros first' rest' admin' _ _ [Hne|(ep & u & pw & dn & di & ts & Hin)]; exfalso.
      - destruct (Hfull Hne) as [_ Hok]. now apply (Hr0 tt).
      - apply Hlisted in Hin. now apply (Hr0 tt). }
  apply bind_inv in Hrun. destruct Hrun as [(p & s3 & H4 & Hrun)|(r0 & H4 & Hr0 & ->)];
    apply lift_outcome_inv in H4; destruct H4 as [-> H4]; [congruence|].
  rewrite Hplan in H4. subst r0. simpl.
  split; [discriminate|]. exists pre.
  split; [exact Ht3|]. split; [exact Hlen|]. split; [exact Hpre|].
  split; [intros Hne; now apply Hfull|]. intros _ _ _ _ _ _. eauto.
Qed.

(** ** Engines reachable from New *)

(* the error channels have room for every error: no goroutine blocks *)
Lemma CollectMetrics_never_blocks mts (s : State W) :
  wf (c s) -> fst (CollectMetrics mts s) <> Blocked.
Proof.
  intros Hwf. destruct (CollectMetrics mts s) as [r s'] eqn:Hrun.
  destruct (CollectMetrics_summary _ _ _ _ Hwf Hrun) as (new & Hsum).
  exact (cs_not_blocked _ _ _ _ _ Hsum).
Qed.

Lemma CollectMetrics_wf mts (s : State W) r s' :
  wf (c s) -> CollectMetrics mts s = (r, s') -> wf (c s').
Proof.
  intros Hwf Hrun. destruct (CollectMetrics_summary _ _ _ _ Hwf Hrun) as (new & Hsum).
  exact (cs_wf _ _ _ _ _ Hsum).
Qed.

Lemma run_calls_wf calls : forall s : State W, wf (c s) -> wf (c (run_calls calls s)).
Proof.
  induction calls as [|mts rest IH]; intros s Hwf; simpl; [exact Hwf|].
  destruct (CollectMetrics mts s) as [r s1] eqn:Hcall.
  apply CollectMetrics_wf in Hcall; [|exact Hwf]. destruct r; auto.
Qed.

End Properties.

(** * Further properties *)

Section Coverage.
Context `{D : Domain} {W : Type} {E : Env W}.

Local Abbreviation M := (@M D W).
Local Abbreviation running := (@running D W).
Local Abbreviation untouched := (@untouched D W).
Local Abbreviation call_summary := (@call_summary D W).
Local Abbreviation step_ok := (@step_ok D W).

(** ** Reading the credentials *)

(** X1.  The credentials are read when, and only when, the endpoint, the
    user and the password are strings of the configuration and each of the
    two domain items is either absent or a string; an absent domain item is
    passed on as the empty string. *)
Theorem credentials_Ok_iff (cfg : MetricType) (cr : Credentials) :
  credentials cfg = Ok cr <->
  Config_ cfg !! "endpoint" = Some (CfgStr (endpoint cr)) /\
  Config_ cfg !! "user" = Some (CfgStr (user cr)) /\
  Config_ cfg !! "password" = Some (CfgStr (password cr)) /\
  optional_item cfg "domain_name" (domain_name cr) /\
  optional_item cfg "domain_id" (domain_id cr).
Proof.
  unfold credentials, optional_item, optional_string, GetConfigItems, GetConfigItem.
  split.
  - destruct (Config_ cfg !! "endpoint") as [v1|] eqn:H1; [|discriminate].
    destruct (Config_ cfg !! "user") as [v2|] eqn:H2; [|discriminate].
    destruct (Config_ cfg !! "password") as [v3|] eqn:H3; [|discriminate].
    simplify_map_eq.
    destruct v1; simpl; try discriminate.
    destruct v2; simpl; try discriminate.
    destruct v3; simpl; try discriminate.
    destruct (Config_ cfg !! "domain_name") as [[dn| |]|]; simpl; try discriminate;
      (destruct (Config_ cfg !! "domain_id") as [[di| |]|]; simpl; try discriminate;
       intros [= <-]; simpl; tauto).
  - destruct cr as [ep u pw dn di]; simpl.
    intros (-> & -> & -> & Hdn & Hdi).
    simplify_map_eq. simpl.
    destruct Hdn as [-> | [-> ->]]; destruct Hdi as [-> | [-> ->]]; reflexivity.
Qed.

Lemma credentials_missing (cfg : MetricType) (name : string) :
  name ∈ required_items -> Config_ cfg !! name = None ->
  exists missing,
    missing ∈ required_items /\ Config_ cfg !! missing = None /\
    credentials cfg = Err (ErrConfigItem missing).
Proof.
  unfold required_items, credentials, GetConfigItems, GetConfigItem.
  intros Hin Hnone.
  destruct (Config_ cfg !! "endpoint") as [v1|] eqn:H1;
    [|exists "endpoint"; repeat split; [apply list_elem_of_In; simpl; tauto | done]].
  destruct (Config_ cfg !! "user") as [v2|] eqn:H2;
    [|exists "user"; repeat split; [apply list_elem_of_In; simpl; tauto | done]].
  destruct (Config_ cfg !! "password") as [v3|] eqn:H3;
    [|exists "password"; repeat split; [apply list_elem_of_In; simpl; tauto | done]].
  exfalso.
  apply elem_of_cons in Hin as [-> | Hin]; [congruence|].
  apply elem_of_cons in Hin as [-> | Hin]; [congruence|].
  apply list_elem_of_singleton in Hin as ->. congruence.
Qed.


Lemma credentials_no_panic (cfg : MetricType) :
  string_items cfg config_items -> credentials cfg <> Panic.
Proof.
  intros Hstr.
  assert (Hs : forall name, name ∈ config_items ->
               Config_ cfg !! name = None \/ exists a, Config_ cfg !! name = Some (CfgStr a)).
  { intros name Hin. destruct (Config_ cfg !! name) as [v|] eqn:Hv; [right|now left].
    destruct (Hstr name v Hin Hv) as [a ->]. now exists a. }
  unfold credentials, optional_string, GetConfigItems, GetConfigItem.
  destruct (Hs "endpoint") as [-> | [a1 ->]];
    [apply list_elem_of_In; simpl; tauto | discriminate |].
  destruct (Hs "user") as [-> | [a2 ->]];
    [apply list_elem_of_In; simpl; tauto | discriminate |].
  destruct (Hs "password") as [-> | [a3 ->]];
    [apply list_elem_of_In; simpl; tauto | discriminate |].
  simplify_map_eq. simpl.
  destruct (Hs "domain_name") as [-> | [a4 ->]];
    [apply list_elem_of_In; simpl; tauto | |];
    (destruct (Hs "domain_id") as [-> | [a5 ->]];
     [apply list_elem_of_In; simpl; tauto | |]); simpl; discriminate.
Qed.

Lemma getTenants_inv cfg (s : State W) r s' :
  getTenants cfg s = (r, s') ->
  match credentials cfg with
  | Ok cr =>
      exists answer,
        trace s' = trace s ++
          [EvGetTenants (endpoint cr) (user cr) (password cr)
             (domain_name cr) (domain_id cr) answer] /\
        c s' = c s /\ done s' = done s /\
        r = match answer with inl e => Err e | inr ts => Ok ts end
  | other => s' = s /\ r = abort other
  end.
Proof.
  unfold getTenants. intros Hrun.
  apply bind_inv in Hrun. destruct Hrun as [(cr & s1 & H1 & Hrun)|(r0 & H1 & Hr0 & ->)];
    apply lift_outcome_inv in H1; destruct H1 as [-> H1].
  - rewrite <- H1. unfold bind, call in Hrun.
    destruct (Common_GetTenants _ _ _ _ _ (world s)) as [answer w'].
    exists answer. destruct answer; inversion Hrun; subst; simpl; auto.
  - rewrite <- H1. destruct r0; try (split; reflexivity). now contradiction (Hr0 a).
Qed.

Lemma populate_tenants_Panic first (s : State W) s' :
  populate_tenants first s = (Panic, s') -> credentials first = Panic.
Proof.
  unfold populate_tenants. intros Hrun. unfold bind at 1, get_c in Hrun.
  destruct (decide _); [|inversion Hrun].
  apply bind_inv in Hrun. destruct Hrun as [(ts & s1 & H1 & Hrun)|(r0 & H1 & Hr0 & Hr)].
  - inversion Hrun.
  - apply getTenants_inv in H1. destruct (credentials first) as [cr|err| |] eqn:Hcr.
    + destruct H1 as (answer & _ & _ & _ & ->). destruct answer; simpl in Hr; try discriminate.
      now contradiction (Hr0 g).
    + destruct H1 as [_ ->]. discriminate.
    + reflexivity.
    + destruct H1 as [_ ->]. discriminate.
Qed.

Lemma plan_loop_not_Panic mts : forall p0, plan_loop mts p0 <> Panic.
Proof.
  induction mts as [|mt rest IH]; intros p0; simpl; [discriminate|].
  destruct (decide _) as [Hlt|Hge]; [discriminate|].
  destruct (Namespace_ mt !! 3) eqn:H3; [apply IH|].
  apply lookup_ge_None in H3. lia.
Qed.

(** A call panics only for an empty request list or an item of the
    configuration that is not a string. *)
Lemma CollectMetrics_Panic mts (s : State W) s' :
  wf (c s) ->
  CollectMetrics mts s = (Panic, s') ->
  mts = [] \/
  exists first rest, mts = first :: rest /\
    ((exists v, Config_ first !! "tenant" = Some v /\ forall a, v <> CfgStr a) \/
     credentials first = Panic).
Proof.
  intros Hwf Hrun. destruct mts as [|first rest]; [now left|right].
  exists first, rest. split; [reflexivity|].
  rewrite CollectMetrics_cons in Hrun.
  apply bind_inv in Hrun. destruct Hrun as [(item & s1 & H1 & Hrun)|(r0 & H1 & Hr0 & Hr)].
  2:{ exfalso. unfold GetConfigItem in H1. destruct (Config_ first !! "tenant") as [v|];
      inversion H1; subst; [now contradiction (Hr0 v) | discriminate]. }
  assert (Hitem : Config_ first !! "tenant" = Some item /\ s1 = s).
  { unfold GetConfigItem in H1. destruct (Config_ first !! "tenant"); inversion H1. auto. }
  destruct Hitem as [Hitem ->]. clear H1.
  apply bind_inv in Hrun. destruct Hrun as [(admin & s1 & H2 & Hrun)|(r0 & H2 & Hr0 & Hr)];
    apply lift_outcome_inv in H2; destruct H2 as [-> H2].
  2:{ left. exists item. split; [exact Hitem|]. intros a ->. simpl in H2.
      now contradiction (Hr0 a). }
  right.
  apply bind_inv in Hrun. destruct Hrun as [([] & s2 & H3 & Hrun)|(r0 & H3 & Hr0 & Hr)].
  2:{ destruct r0; try discriminate; [now contradiction (Hr0 a)|].
      now apply populate_tenants_Panic in H3. }
  apply populate_tenants_effect in H3.
  destruct H3 as (_ & Hp3 & Hs3 & _).
  assert (Hwf2 : wf (c s2)) by (unfold wf; now rewrite Hp3, Hs3).
  apply bind_inv in Hrun. destruct Hrun as [(p & s3 & H4 & Hrun)|(r0 & H4 & Hr0 & Hr)];
    apply lift_outcome_inv in H4; destruct H4 as [-> H4].
  2:{ exfalso. destruct r0; try discriminate; [now contradiction (Hr0 a)|].
      now apply (plan_loop_not_Panic (first :: rest) empty_plan). }
  unfold bind at 1 in Hrun. simpl in Hrun. unfold bind at 1 in Hrun. simpl in Hrun.
  match type of Hrun with bind _ _ ?st = _ => remember st as s4 eqn:Hs4 end.
  assert (Hc4 : c s4 = c s2) by now subst s4.
  clear Hs4.
  apply bind_inv in Hrun. destruct Hrun as [([] & s5 & H5 & Hrun)|(r0 & H5 & Hr0 & Hr)];
    (apply admin_phase_running in H5; [|now rewrite Hc4]);
    destruct H5 as [(ra & Hauth & Hra & Hnok)|(adm & Hrun5 & Hd5 & Hbuf5)].
  - exfalso. destruct ra; simpl in Hra; discriminate.
  - destruct (limits_phase_running first p s5 (run_service _ _ _ _ _ _ Hrun5))
      as (rl & s6 & lim & Hlim & Hnbl & Hrun6 & Hd6 & Hok6 & Hpanic).
    unfold bind at 1 in Hrun. rewrite Hlim in Hrun.
    destruct rl as [[]|e| |]; try congruence.
    + exfalso. eapply (projection_no_panic (first :: rest)); [|exact Hrun|reflexivity].
      symmetry in H4. exact (plan_loop_long _ _ _ H4).
    + now apply Hpanic.
  - subst r0. destruct ra; simpl in Hr; try discriminate; [now contradiction (Hnok a)|].
    now apply authenticate_Panic in Hauth.
  - exfalso. destruct (buf (errChn s')); subst r0; [now contradiction (Hr0 tt) | discriminate].
Qed.

Lemma New_run_wf calls (s : State W) : c s = New -> wf (c (run_calls calls s)).
Proof. intros Hnew. apply run_calls_wf. rewrite Hnew. apply New_wf. Qed.

(** X3.  On an engine created by [New], whatever calls came before, a call
    for a non-empty request list whose configuration items are all strings
    never panics: no index is out of range, no type assertion fails and no
    method is called on a nil service. *)
Theorem CollectMetrics_no_panic calls first rest (s : State W) :
  c s = New ->
  string_items first config_items ->
  fst (CollectMetrics (first :: rest) (run_calls calls s)) <> Panic.
Proof.
  intros Hnew Hstr Hp. pose proof (New_run_wf calls s Hnew) as Hwf.
  destruct (CollectMetrics (first :: rest) (run_calls calls s)) as [r s'] eqn:Hrun.
  simpl in Hp. subst r.
  apply CollectMetrics_Panic in Hrun; [|exact Hwf].
  destruct Hrun as [Hnil|(first' & rest' & Heq & [(v & Hv & Hns)|Hcr])]; [discriminate| |];
    inversion Heq; subst first' rest'.
  - destruct (Hstr "tenant" v) as [a ->]; [apply list_elem_of_In; simpl; tauto | exact Hv |].
    now apply (Hns a).
  - now apply credentials_no_panic in Hcr.
Qed.

(** X4.  The error channels are large enough: on an engine created by [New],
    whatever calls came before, no goroutine of a call is left blocked on a
    send. *)
Theorem CollectMetrics_run_never_blocks calls mts (s : State W) :
  c s = New ->
  fst (CollectMetrics mts (run_calls calls s)) <> Blocked.
Proof.
  intros Hnew. apply CollectMetrics_never_blocks. now apply New_run_wf.
Qed.

(** ** Limits fetches over the life of an engine *)

Lemma fetched_elem_inv t (evs : list Event) :
  t ∈ fetched evs -> exists p r, EvGetLimits t p r ∈ evs.
Proof.
  induction evs as [|ev evs IH]; simpl; intros Hin; [now apply not_elem_of_nil in Hin|].
  apply elem_of_app in Hin as [Hin|Hin].
  - destruct ev; try (now apply not_elem_of_nil in Hin).
    apply list_elem_of_singleton in Hin as ->. eexists _, _. left.
  - destruct (IH Hin) as (p & r & H). exists p, r. now right.
Qed.

(* what one call does to the limits cache *)
Lemma CollectMetrics_fetches mts (s : State W) r s' :
  wf (c s) ->
  CollectMetrics mts s = (r, s') ->
  wf (c s') /\
  (forall t, is_Some (allLimits (c s) !! t) -> is_Some (allLimits (c s') !! t)) /\
  exists new,
    trace s' = trace s ++ new /\ NoDup (fetched new) /\
    forall t, t ∈ fetched new ->
      allLimits (c s) !! t = None /\ is_Some (allLimits (c s') !! t).
Proof.
  intros Hwf Hrun.
  destruct (CollectMetrics_summary _ _ _ _ Hwf Hrun) as (new & Hsum).
  split; [exact (cs_wf _ _ _ _ _ Hsum)|].
  split.
  { intros t Ht. rewrite (cs_limits _ _ _ _ _ Hsum). now apply foldl_apply_limits_is_Some. }
  exists new. split; [exact (cs_trace _ _ _ _ _ Hsum)|].
  split; [exact (cs_distinct _ _ _ _ _ Hsum)|].
  intros t Hin. apply fetched_elem_inv in Hin as (p & [limits err] & Hin). split.
  - destruct (allLimits (c s) !! t) as [l|] eqn:Hl; [exfalso|reflexivity].
    assert (Hu : untouched t s s').
    { eapply CollectMetrics_untouched; [|exact Hrun]. rewrite Hl. now eexists. }
    apply untouched_no_fetch in Hu as (new' & Ht' & _ & Hno).
    rewrite (cs_trace _ _ _ _ _ Hsum) in Ht'. apply app_inv_head in Ht'. subst new'.
    exact (Hno _ _ Hin).
  - rewrite (cs_limits _ _ _ _ _ Hsum).
    erewrite foldl_apply_limits_fetched; [now eexists | exact (cs_distinct _ _ _ _ _ Hsum) | exact Hin].
Qed.


(** ** Every requested tenant gets its limits *)

Lemma plan_loop_tenants mts : forall p0 p,
  plan_loop mts p0 = Ok p ->
  forall t, t ∈ collectTenants p <->
            t ∈ collectTenants p0 \/
            exists mt, mt ∈ mts /\ Strings (Namespace_ mt) !! 3 = Some t.
Proof.
  induction mts as [|mt rest IH]; intros p0 p Hplan t; simpl in Hplan.
  - inversion Hplan; subst. split; [now left|].
    intros [H|(mt & Hin & _)]; [exact H|now apply not_elem_of_nil in Hin].
  - destruct (decide _) as [Hlt|Hge]; [discriminate|].
    destruct (Namespace_ mt !! 3) as [element|] eqn:H3; [|discriminate].
    assert (Hseg : Strings (Namespace_ mt) !! 3 = Some (Value element)).
    { unfold Strings. now rewrite list_lookup_fmap, H3. }
    apply IH with (t := t) in Hplan. rewrite Hplan. clear Hplan.
    assert (Hten : t ∈ {[Value element]} ∪ collectTenants p0 <->
                   t = Value element \/ t ∈ collectTenants p0)
      by (rewrite elem_of_union, elem_of_singleton; reflexivity).
    split.
    + intros [Hin|(mt' & Hin & Hmt')].
      * assert (Hin' : t ∈ {[Value element]} ∪ collectTenants p0)
          by (destruct (Contains _ "limits"); [|destruct (Contains _ "volumes")]; exact Hin).
        apply Hten in Hin' as [->|Hin']; [right|now left].
        exists mt. split; [left|exact Hseg].
      * right. exists mt'. split; [now right|exact Hmt'].
    + intros [Hin|(mt' & Hin & Hmt')].
      * left. destruct (Contains _ "limits"); [|destruct (Contains _ "volumes")];
          simpl; apply Hten; now right.
      * apply elem_of_cons in Hin as [->|Hin].
        -- left. rewrite Hseg in Hmt'. inversion Hmt'; subst.
           destruct (Contains _ "limits"); [|destruct (Contains _ "volumes")];
             simpl; apply Hten; now left.
        -- right. exists mt'. split; assumption.
Qed.

(** X6.  The tenants of the plan are exactly the values of segment 3 of the
    requests. *)
Theorem plan_tenants_are_segment_3 mts p :
  plan_loop mts empty_plan = Ok p ->
  forall t, t ∈ collectTenants p <->
            exists mt, mt ∈ mts /\ Strings (Namespace_ mt) !! 3 = Some t.
Proof.
  intros Hplan t. rewrite (plan_loop_tenants _ _ _ Hplan t). split.
  - intros [Hin|H]; [now apply not_elem_of_empty in Hin | exact H].
  - intros H. now right.
Qed.

Lemma limits_loop_covers s0 cfg : forall rem extra (s : State W) new s',
  running limits_task s0 rem extra s new ->
  length rem <= extra ->
  limits_loop cfg true rem s = (Ok tt, s') ->
  exists new',
    running limits_task s0 [] 0 s' (new ++ new') /\
    forall t, t ∈ rem ->
      is_Some (allLimits (c s') !! t) \/ exists p, EvGo (LimitsTask p t) ∈ new ++ new'.
Proof.
  induction rem as [|tenant rest IH]; intros extra s new s' Hrun Hlen Hloop; simpl in Hloop.
  - inversion Hloop; subst. exists []. rewrite app_nil_r. split.
    + eapply running_weaken; [exact Hrun | reflexivity | lia].
    + intros t Hin. now apply not_elem_of_nil in Hin.
  - simpl in Hlen. destruct extra as [|extra]; [lia|].
    unfold bind at 1 in Hloop. simpl in Hloop.
    destruct (bool_decide (is_Some (allLimits (c s) !! tenant))) eqn:Hfound; simpl in Hloop.
    + unfold bind at 1 in Hloop. simpl in Hloop.
      apply bool_decide_eq_true in Hfound.
      destruct (IH extra s new s') as (new' & Hrun' & Hcov); [|lia|exact Hloop|].
      { eapply running_weaken; [exact Hrun | apply sublist_cons; reflexivity | lia]. }
      exists new'. split; [exact Hrun'|].
      intros t Hin. apply elem_of_cons in Hin as [->|Hin]; [left|now apply Hcov].
      rewrite (run_limits _ _ _ _ _ _ Hrun'), foldl_app, <- (run_limits _ _ _ _ _ _ Hrun).
      now apply foldl_apply_limits_is_Some.
    + unfold bind at 1 in Hloop. unfold bind at 1 in Hloop.
      destruct (authenticate cfg tenant s) as [r1 s1] eqn:Hauth.
      destruct (authenticate_running _ _ _ _ _ _ _ _ _ _ Hrun Hauth) as (Hnb & new1 & Hrun1).
      destruct r1 as [[]|e| |]; try discriminate.
      unfold bind at 1 in Hloop. simpl in Hloop.
      destruct (go_running limits_task s0 (tenant :: rest) rest extra s1 (new ++ new1)
                  (LimitsTask (default nilProvider (providers (c s1) !! tenant)) tenant))
        as (s2 & new2 & Hgo & Hrun2); [exact Hrun1 | exact I | reflexivity |].
      rewrite Hgo in Hloop.
      destruct (IH extra s2 _ s' Hrun2) as (new' & Hrun' & Hcov); [lia|exact Hloop|].
      exists (new1 ++ EvGo (LimitsTask (default nilProvider
                                           (providers (c s1) !! tenant)) tenant)
                :: new2 ++ new').
      repeat rewrite <- app_assoc in Hrun'. simpl in Hrun'.
      repeat rewrite <- app_assoc in Hcov. simpl in Hcov.
      split; [exact Hrun'|].
      intros t Hin. apply elem_of_cons in Hin as [->|Hin]; [right|now apply Hcov].
      eexists. apply elem_of_app. right. apply elem_of_app. right. left.
Qed.

Lemma limits_phase_covers cfg p (s : State W) s' :
  is_Some (service (c s)) ->
  collectLimits p = true ->
  limits_phase cfg p s = (Ok tt, s') ->
  forall t, t ∈ collectTenants p -> is_Some (allLimits (c s') !! t).
Proof.
  intros Hsvc Hflag Hphase t Hin. unfold limits_phase in Hphase.
  unfold bind at 1 in Hphase. simpl in Hphase. unfold bind at 1 in Hphase. simpl in Hphase.
  unfold bind at 1 in Hphase. unfold Elements in Hphase.
  match type of Hphase with context [pick_order ?n ?l ?s1] =>
    destruct (pick_order_total n l s1) as
      (tenants & s2 & Hpick & Hperm & Hc & Ht & He & Hd & _ & _); [lia|] end.
  rewrite Hpick in Hphase.
  simpl in Hc, Ht, He, Hd.
  assert (Hrun : running limits_task s tenants (length tenants) s2 []).
  { apply running_start with (n := length tenants); try assumption.
    - now rewrite Hc.
    - now rewrite Hc.
    - rewrite He. f_equal. rewrite Hperm. reflexivity.
    - rewrite Hperm. apply NoDup_elements.
    - lia. }
  rewrite Hflag in Hphase.
  destruct (limits_loop cfg true tenants s2) as [r s3] eqn:Hloop.
  destruct r as [[]|e| |]; try discriminate.
  2:{ apply bind_inv in Hphase.
      destruct Hphase as [(a & s4 & _ & Hf)|(r0 & _ & _ & Hr)]; [inversion Hf|].
      destruct r0; discriminate. }
  destruct (limits_loop_covers s cfg tenants _ s2 [] s3 Hrun) as (new & Hrun3 & Hcov);
    [lia|exact Hloop|]. simpl in Hrun3, Hcov.
  destruct (Wait_running _ _ _ _ _ _ Hrun3) as (s4 & new4 & Hw & Hd4 & Hrun4).
  unfold bind at 1 in Hphase. rewrite Hw in Hphase. unfold close_and_receive in Hphase.
  destruct (buf (errChn s4)); inversion Hphase; subst s'.
  assert (Hin' : t ∈ tenants) by (rewrite Hperm; now apply elem_of_elements).
  destruct (Hcov t Hin') as [Hsome|(pr & Hgo)].
  - rewrite (run_limits _ _ _ _ _ _ Hrun4), foldl_app, <- (run_limits _ _ _ _ _ _ Hrun3).
    now apply foldl_apply_limits_is_Some.
  - destruct (run_launched _ _ _ _ _ _ Hrun4 (LimitsTask pr t)) as [Hpool|(ev & Hev & Hfetch)].
    + apply elem_of_app. now left.
    + rewrite Hd4 in Hpool. now apply not_elem_of_nil in Hpool.
    + destruct ev as [| | | |t' p' [limits err]|]; simpl in Hfetch; try contradiction.
      destruct Hfetch as [-> ->].
      rewrite (run_limits _ _ _ _ _ _ Hrun4).
      erewrite foldl_apply_limits_fetched; [now eexists | | exact Hev].
      pose proof (run_distinct _ _ _ _ _ _ Hrun4) as Hnd.
      now apply NoDup_app in Hnd as [Hnd _].
Qed.

(** X7.  When a request list names a limits metric and the call returns
    normally, the limits cache holds an entry for every tenant the list
    names, also for the tenants of which only volumes or snapshots were
    requested. *)
Theorem limits_cover_every_requested_tenant mts (s : State W) out s' :
  wf (c s) ->
  CollectMetrics mts s = (Ok out, s') ->
  (exists mt, mt ∈ mts /\ wants_limits mt) ->
  forall mt t, mt ∈ mts -> Strings (Namespace_ mt) !! 3 = Some t ->
               is_Some (allLimits (c s') !! t).
Proof.
  intros Hwf Hrun Hlim mt t Hmt Ht.
  destruct mts as [|first rest]; [inversion Hrun|].
  rewrite CollectMetrics_cons in Hrun.
  apply bind_Ok_inv in Hrun as (item & s1 & H1 & Hrun).
  apply lift_result_inv in H1 as [-> _].
  apply bind_Ok_inv in Hrun as (admin & s1 & H2 & Hrun).
  apply lift_outcome_inv in H2 as [-> _].
  apply bind_Ok_inv in Hrun as ([] & s2 & H3 & Hrun).
  apply populate_tenants_effect in H3. destruct H3 as (_ & Hp3 & Hs3 & _).
  assert (Hwf2 : wf (c s2)) by (unfold wf; now rewrite Hp3, Hs3).
  apply bind_Ok_inv in Hrun as (p & s3 & H4 & Hrun).
  apply lift_outcome_inv in H4 as [-> H4]. symmetry in H4.
  apply bind_Ok_inv in Hrun as ([] & s3 & H5 & Hrun).
  apply bind_Ok_inv in Hrun as ([] & s4 & H6 & Hrun).
  assert (Hc4 : c s4 = c s2) by (inversion H5; subst; inversion H6; subst; reflexivity).
  apply bind_Ok_inv in Hrun as ([] & s5 & H7 & Hrun).
  apply admin_phase_running in H7; [|now rewrite Hc4].
  destruct H7 as [(ra & _ & Hra & _)|(adm & Hrun5 & _ & _)].
  { destruct ra; discriminate. }
  apply bind_Ok_inv in Hrun as ([] & s6 & H8 & Hrun).
  apply (projection_effect (first :: rest) s6 (Ok out) s') in Hrun.
  destruct Hrun as (Hc' & _). rewrite Hc'.
  eapply limits_phase_covers; [exact (run_service _ _ _ _ _ _ Hrun5) | | exact H8 |].
  - destruct (plan_loop_flags _ _ _ H4) as [HL _]. apply HL. now right.
  - apply (plan_loop_tenants _ _ _ H4). right. exists mt. split; assumption.
Qed.

End Coverage.

(** * Following a run step by step *)

Section Following.
Context `{D : Domain} {W : Type} {E : Env W}.
Context (J : State W -> Prop) (A : string -> Prop)
        (T : State W -> Task -> Prop) (R : State W -> State W -> Prop).
Context (F : follows J A T R).

Local Abbreviation M := (@M D W).
Local Abbreviation step_ok := (@step_ok D W).
Local Abbreviation Inv := (pool_ok J T).

Lemma follows_refl s : R s s.
Proof. now apply (fl_silent _ _ _ _ F). Qed.

Lemma follows_keep s s' : R s s' -> Inv s -> done s' = done s -> Inv s'.
Proof.
  intros HR [HJ HT] Hd. split; [exact (fl_J _ _ _ _ F _ _ HR HJ)|].
  rewrite Hd. eapply Forall_impl; [exact HT|]. intros task. exact (fl_T _ _ _ _ F _ _ _ HR).
Qed.

Lemma follows_silent {X} (m : M X) :
  (forall s r s', m s = (r, s') -> c s' = c s /\ trace s' = trace s /\ done s' = done s) ->
  step_ok Inv R m.
Proof.
  intros Hm s r s' HI Hrun. destruct (Hm _ _ _ Hrun) as (Hc & Ht & Hd).
  assert (HR : R s s') by now apply (fl_silent _ _ _ _ F).
  split; [exact HR|]. now apply (follows_keep s).
Qed.

(* what running the body of a goroutine does to the state *)
Lemma run_task_inv task (s : State W) r s' :
  run_task task s = (r, s') ->
  done s' = done s /\
  ((c s' = c s /\ trace s' = trace s) \/
   exists ev, fetch_event_of task ev /\ trace s' = trace s ++ [ev] /\
     (c s' = c s \/
      exists p t limits, task = LimitsTask p t /\ c s' = store_limits t limits (c s))).
Proof.
  intros Hrun.
  assert (Hsvc : forall r0 s0, get_service s = (r0, s0) -> s0 = s).
  { intros r0 s0. unfold get_service, bind, get_c. destruct (service (c s)); now inversion 1. }
  destruct task as [provider|provider|p t]; simpl in Hrun;
    (apply bind_inv in Hrun; destruct Hrun as [(svc & s1 & H1 & Hrun)|(r0 & H1 & _ & _)];
     apply Hsvc in H1; subst; [|split; [reflexivity|left; split; reflexivity]]);
    unfold bind at 1, call in Hrun;
    match type of Hrun with context [let (_, _) := ?f (world s) in _] =>
      destruct (f (world s)) as [res w'] end;
    (apply bind_inv in Hrun; destruct Hrun as [([] & s2 & H2 & Hrun)|(r0 & H2 & _ & _)];
     apply send_if_error_inv in H2; destruct H2 as (Hc2 & Ht2 & Hd2); simpl in Hc2, Ht2, Hd2).
  - destruct (store_volumes_total (fst res) s2) as (s3 & H3 & Hc3 & _ & Ht3 & _ & Hd3).
    rewrite H3 in Hrun. inversion Hrun; subst. split; [congruence|]. right.
    exists (EvGetVolumes provider res). split; [reflexivity|]. split; [congruence|].
    left. congruence.
  - split; [exact Hd2|]. right. exists (EvGetVolumes provider res).
    split; [reflexivity|]. split; [exact Ht2|]. now left.
  - destruct (store_snapshots_total (fst res) s2) as (s3 & H3 & Hc3 & _ & Ht3 & _ & Hd3).
    rewrite H3 in Hrun. inversion Hrun; subst. split; [congruence|]. right.
    exists (EvGetSnapshots provider res). split; [reflexivity|]. split; [congruence|].
    left. congruence.
  - split; [exact Hd2|]. right. exists (EvGetSnapshots provider res).
    split; [reflexivity|]. split; [exact Ht2|]. now left.
  - inversion Hrun; subst. simpl. split; [exact Hd2|]. right.
    exists (EvGetLimits t p res). split; [split; reflexivity|]. split; [exact Ht2|].
    right. exists p, t, (fst res). split; [reflexivity|]. unfold store_limits. now rewrite Hc2.
  - split; [exact Hd2|]. right. exists (EvGetLimits t p res).
    split; [split; reflexivity|]. split; [exact Ht2|]. now left.
Qed.

Lemma run_task_follows task (s : State W) r s' :
  Inv s -> T s task -> run_task task s = (r, s') -> R s s' /\ Inv s'.
Proof.
  intros HI HT Hrun. apply run_task_inv in Hrun.
  destruct Hrun as (Hd & [[Hc Ht]|(ev & Hev & Ht & [Hc|(p & t & limits & -> & Hc)])]).
  - assert (HR : R s s') by now apply (fl_silent _ _ _ _ F).
    split; [exact HR|]. now apply (follows_keep s).
  - assert (HR : R s s') by (eapply (fl_fetch _ _ _ _ F); try eassumption; apply HI).
    split; [exact HR|]. now apply (follows_keep s).
  - set (s1 := {| c := c s; world := world s; trace := trace s ++ [ev];
                  allSnapshots := allSnapshots s; allVolumes := allVolumes s;
                  errChn := errChn s; done := done s |}).
    assert (HR1 : R s s1) by (eapply (fl_fetch _ _ _ _ F); try eassumption; try reflexivity; apply HI).
    assert (HI1 : Inv s1) by now apply (follows_keep s).
    assert (HR2 : R s1 s').
    { eapply (fl_store _ _ _ _ F) with (p := p); [exact Hc | exact Ht | apply HI1 |].
      exact (fl_T _ _ _ _ F _ _ _ HR1 HT). }
    assert (HR : R s s') by exact (fl_trans _ _ _ _ F _ _ _ HR1 HR2).
    split; [exact HR|]. now apply (follows_keep s).
Qed.

Lemma pool_pick (s : State W) task rest :
  Forall (T s) (done s) -> done s ≡ₚ task :: rest -> T s task /\ Forall (T s) rest.
Proof. intros Hall Hperm. rewrite Hperm in Hall. now inversion Hall. Qed.

Lemma resume_follows task rest (s : State W) r s' :
  J s -> T s task -> Forall (T s) rest ->
  resume task rest s = (r, s') -> R s s' /\ Inv s'.
Proof.
  intros HJ Htask Hrest Hrun. unfold resume, bind at 1 in Hrun. simpl in Hrun.
  match type of Hrun with run_task _ ?s1 = _ =>
    assert (HR1 : R s s1) by (now apply (fl_silent _ _ _ _ F));
    assert (HI1 : Inv s1);
    [split; [exact (fl_J _ _ _ _ F _ _ HR1 HJ)|]; simpl;
     eapply Forall_impl; [exact Hrest|]; intros task'; exact (fl_T _ _ _ _ F _ _ _ HR1)|];
    assert (HT1 : T s1 task) by exact (fl_T _ _ _ _ F _ _ _ HR1 Htask)
  end.
  destruct (run_task_follows _ _ _ _ HI1 HT1 Hrun) as [HR2 HI2].
  split; [exact (fl_trans _ _ _ _ F _ _ _ HR1 HR2) | exact HI2].
Qed.

Lemma ask_follows {X} (f : W -> X * W) : step_ok Inv R (ask f).
Proof.
  apply follows_silent. intros s r s'. unfold ask. destruct (f (world s)).
  intros H; inversion H; subst; repeat split.
Qed.

Lemma run_some_follows fuel : step_ok Inv R (run_some fuel).
Proof.
  induction fuel as [|fuel IH].
  - apply follows_silent. intros s r s' H. inversion H; subst. repeat split.
  - intros s r s' HI Hrun. rewrite run_some_S in Hrun.
    apply bind_inv in Hrun. destruct Hrun as [(i & s1 & H1 & Hrun)|(r0 & H1 & _ & _)];
      [|exact (ask_follows _ _ _ _ HI H1)].
    assert (Hd1 : done s1 = done s).
    { unfold ask in H1. destruct (sched_choose _ _). now inversion H1. }
    destruct (ask_follows _ _ _ _ HI H1) as [HR1 HI1].
    destruct (take_nth i (done s)) as [[task rest]|] eqn:Hpick.
    + apply take_nth_Some in Hpick. rewrite <- Hd1 in Hpick.
      destruct (pool_pick _ _ _ (proj2 HI1) Hpick) as [Htask Hrest].
      apply bind_inv in Hrun. destruct Hrun as [([] & s2 & H2 & Hrun)|(r0 & H2 & _ & _)];
        destruct (resume_follows _ _ _ _ _ (proj1 HI1) Htask Hrest H2) as [HR2 HI2].
      * destruct (IH _ _ _ HI2 Hrun) as [HR3 HI3].
        split; [|exact HI3].
        exact (fl_trans _ _ _ _ F _ _ _ HR1 (fl_trans _ _ _ _ F _ _ _ HR2 HR3)).
      * split; [exact (fl_trans _ _ _ _ F _ _ _ HR1 HR2) | exact HI2].
    + inversion Hrun; subst. split; assumption.
Qed.

Lemma run_all_follows fuel : step_ok Inv R (run_all fuel).
Proof.
  induction fuel as [|fuel IH].
  - apply follows_silent. intros s r s' H. inversion H; subst. repeat split.
  - intros s r s' HI Hrun. rewrite run_all_S in Hrun.
    destruct (done s) as [|task0 pool0] eqn:Hpool.
    { inversion Hrun; subst. split; [apply follows_refl | exact HI]. }
    rewrite <- Hpool in Hrun. clear Hpool.
    apply bind_inv in Hrun. destruct Hrun as [(i & s1 & H1 & Hrun)|(r0 & H1 & _ & _)];
      [|exact (ask_follows _ _ _ _ HI H1)].
    assert (Hd1 : done s1 = done s).
    { unfold ask in H1. destruct (sched_choose _ _). now inversion H1. }
    destruct (ask_follows _ _ _ _ HI H1) as [HR1 HI1].
    destruct (take_nth (i mod length (done s)) (done s)) as [[task rest]|] eqn:Hpick.
    + apply take_nth_Some in Hpick. rewrite <- Hd1 in Hpick.
      destruct (pool_pick _ _ _ (proj2 HI1) Hpick) as [Htask Hrest].
      apply bind_inv in Hrun. destruct Hrun as [([] & s2 & H2 & Hrun)|(r0 & H2 & _ & _)];
        destruct (resume_follows _ _ _ _ _ (proj1 HI1) Htask Hrest H2) as [HR2 HI2].
      * destruct (IH _ _ _ HI2 Hrun) as [HR3 HI3].
        split; [|exact HI3].
        exact (fl_trans _ _ _ _ F _ _ _ HR1 (fl_trans _ _ _ _ F _ _ _ HR2 HR3)).
      * split; [exact (fl_trans _ _ _ _ F _ _ _ HR1 HR2) | exact HI2].
    + inversion Hrun; subst. split; assumption.
Qed.

Lemma Wait_follows : step_ok Inv R Wait.
Proof. intros s r s' HI Hrun. exact (run_all_follows _ _ _ _ HI Hrun). Qed.

Lemma go_follows task (s : State W) r s' :
  Inv s -> T s task -> go task s = (r, s') -> R s s' /\ Inv s'.
Proof.
  intros HI HT Hrun. unfold go, bind at 1 in Hrun. simpl in Hrun.
  unfold bind at 1 in Hrun. simpl in Hrun. unfold preempt in Hrun. simpl in Hrun.
  match type of Hrun with run_some _ ?s2 = _ =>
    assert (HR2 : R s s2) by
      (eapply (fl_go _ _ _ _ F); [reflexivity | reflexivity | apply HI | exact HT]);
    assert (HI2 : Inv s2);
    [split; [exact (fl_J _ _ _ _ F _ _ HR2 (proj1 HI))|]; simpl;
     apply Forall_app; split;
     [eapply Forall_impl; [exact (proj2 HI)|]; intros task'; exact (fl_T _ _ _ _ F _ _ _ HR2)
     |repeat constructor; exact (fl_T _ _ _ _ F _ _ _ HR2 HT)]|]
  end.
  destruct (run_some_follows _ _ _ _ HI2 Hrun) as [HR3 HI3].
  split; [exact (fl_trans _ _ _ _ F _ _ _ HR2 HR3) | exact HI3].
Qed.

Lemma authenticate_follows cfg tenant : step_ok Inv R (authenticate cfg tenant).
Proof.
  intros s r s' HI Hrun.
  assert (HR : R s s') by exact (fl_authenticate _ _ _ _ F _ _ _ _ _ (proj1 HI) Hrun).
  split; [exact HR|]. apply (follows_keep s); [exact HR | exact HI |].
  apply authenticate_effect in Hrun. tauto.
Qed.

Lemma close_and_receive_follows : step_ok Inv R close_and_receive.
Proof.
  apply follows_silent. intros s r s'. unfold close_and_receive.
  destruct (buf (errChn s)); intros H; inversion H; subst; repeat split.
Qed.

Lemma limits_loop_follows cfg flag : forall rem (s : State W) r s',
  Inv s -> limits_loop cfg flag rem s = (r, s') -> R s s' /\ Inv s'.
Proof.
  induction rem as [|tenant rest IH]; intros s r s' HI Hrun; simpl in Hrun.
  - inversion Hrun; subst. split; [apply follows_refl | exact HI].
  - unfold bind at 1 in Hrun. simpl in Hrun.
    apply bind_inv in Hrun.
    assert (Hstep : forall r1 s1,
              (if flag && negb (bool_decide (is_Some (allLimits (c s) !! tenant)))
               then bind (authenticate cfg tenant) (fun _ =>
                      bind get_c (fun cur =>
                        go (LimitsTask (default nilProvider (providers cur !! tenant)) tenant)))
               else ret tt) s = (r1, s1) -> R s s1 /\ Inv s1).
    { intros r1 s1 H1.
      destruct (flag && negb (bool_decide (is_Some (allLimits (c s) !! tenant)))) eqn:Hl.
      - apply andb_prop in Hl. destruct Hl as [_ Hl].
        apply negb_true_iff, bool_decide_eq_false in Hl.
        apply bind_inv in H1. destruct H1 as [([] & s2 & H2 & H1)|(r0 & H2 & _ & _)];
          [|exact (authenticate_follows _ _ _ _ _ HI H2)].
        destruct (authenticate_follows _ _ _ _ _ HI H2) as [HR2 HI2].
        apply authenticate_effect in H2.
        destruct H2 as (_ & HL & _ & _ & _ & _ & _ & _ & _ & Hsome & _).
        destruct (Hsome eq_refl) as [provider Hprov].
        unfold bind at 1 in H1. simpl in H1. rewrite Hprov in H1. simpl in H1.
        assert (HT : T s2 (LimitsTask provider tenant)).
        { apply (fl_limits_task _ _ _ _ F); [apply HI2 | exact Hprov |].
          rewrite HL. now apply eq_None_not_Some. }
        destruct (go_follows _ _ _ _ HI2 HT H1) as [HR3 HI3].
        split; [exact (fl_trans _ _ _ _ F _ _ _ HR2 HR3) | exact HI3].
      - inversion H1; subst. split; [apply follows_refl | exact HI]. }
    destruct Hrun as [([] & s1 & H1 & Hrun)|(r0 & H1 & _ & _)].
    + destruct (Hstep _ _ H1) as [HR1 HI1].
      destruct (IH s1 r s' HI1 Hrun) as [HR2 HI2].
      split; [exact (fl_trans _ _ _ _ F _ _ _ HR1 HR2) | exact HI2].
    + exact (Hstep _ _ H1).
Qed.

Lemma limits_phase_follows cfg p (s : State W) r s' :
  J s -> limits_phase cfg p s = (r, s') -> R s s'.
Proof.
  intros HJ Hrun. unfold limits_phase in Hrun.
  unfold bind at 1 in Hrun. simpl in Hrun. unfold bind at 1 in Hrun. simpl in Hrun.
  unfold bind at 1, Elements in Hrun.
  match type of Hrun with context [pick_order ?n ?l ?s1] =>
    destruct (pick_order_total n l s1) as
      (tenants & s2 & Hpick & _ & Hc & Ht & _ & Hd & _ & _); [lia|] end.
  rewrite Hpick in Hrun. simpl in Hc, Ht, Hd.
  assert (HR2 : R s s2) by now apply (fl_silent _ _ _ _ F).
  assert (HI2 : Inv s2).
  { split; [exact (fl_J _ _ _ _ F _ _ HR2 HJ)|]. rewrite Hd. constructor. }
  destruct (limits_loop cfg (collectLimits p) tenants s2) as [rl s3] eqn:Hloop.
  apply limits_loop_follows in Hloop; [|exact HI2].
  destruct Hloop as [HR3 HI3].
  assert (HR : R s s3) by exact (fl_trans _ _ _ _ F _ _ _ HR2 HR3).
  destruct rl as [[]|e| |].
  - apply bind_inv in Hrun. destruct Hrun as [([] & s4 & H4 & Hrun)|(r0 & H4 & _ & _)];
      destruct (Wait_follows _ _ _ HI3 H4) as [HR4 HI4];
      [|exact (fl_trans _ _ _ _ F _ _ _ HR HR4)].
    destruct (close_and_receive_follows _ _ _ HI4 Hrun) as [HR5 _].
    exact (fl_trans _ _ _ _ F _ _ _ HR (fl_trans _ _ _ _ F _ _ _ HR4 HR5)).
  - apply bind_inv in Hrun. destruct Hrun as [([] & s4 & H4 & Hrun)|(r0 & H4 & _ & _)];
      destruct (Wait_follows _ _ _ HI3 H4) as [HR4 HI4];
      [|exact (fl_trans _ _ _ _ F _ _ _ HR HR4)].
    inversion Hrun; subst. exact (fl_trans _ _ _ _ F _ _ _ HR HR4).
  - inversion Hrun; subst. exact HR.
  - inversion Hrun; subst. exact HR.
Qed.

Lemma admin_phase_follows cfg admin p (s : State W) r s' :
  J s -> A admin -> admin_phase cfg admin p s = (r, s') -> R s s'.
Proof.
  intros HJ HA Hrun. unfold admin_phase in Hrun.
  apply bind_inv in Hrun. destruct Hrun as [([] & s1 & H1 & Hrun)|(r0 & H1 & _ & _)];
    [|exact (fl_authenticate _ _ _ _ F _ _ _ _ _ HJ H1)].
  assert (HR1 : R s s1) by exact (fl_authenticate _ _ _ _ F _ _ _ _ _ HJ H1).
  apply authenticate_effect in H1.
  destruct H1 as (_ & _ & _ & _ & _ & _ & _ & _ & _ & Hsome & _).
  destruct (Hsome eq_refl) as [provider Hprov].
  unfold bind at 1 in Hrun. simpl in Hrun. rewrite Hprov in Hrun. simpl in Hrun.
  unfold bind at 1 in Hrun. simpl in Hrun.
  unfold bind at 1 in Hrun. simpl in Hrun.
  match type of Hrun with bind _ _ ?s2 = _ =>
    assert (HR2 : R s1 s2) by (now apply (fl_silent _ _ _ _ F));
    assert (HI2 : Inv s2) by
      (split; [exact (fl_J _ _ _ _ F _ _ HR2 (fl_J _ _ _ _ F _ _ HR1 HJ)) | constructor]);
    assert (Hp2 : providers (c s2) !! admin = Some provider) by exact Hprov;
    remember s2 as st2 eqn:Hst2; clear Hst2 end.
  destruct (fl_admin_task _ _ _ _ F st2 admin provider (proj1 HI2) HA Hp2) as [HTv HTs].
  apply bind_inv in Hrun.
  assert (Hvol : forall r3 s3,
            (if collectVolumes p then go (VolumesTask provider) else ret tt) st2 = (r3, s3) ->
            R st2 s3 /\ Inv s3).
  { intros r3 s3 H3. destruct (collectVolumes p); [exact (go_follows _ _ _ _ HI2 HTv H3)|].
    inversion H3; subst. split; [apply follows_refl | exact HI2]. }
  destruct Hrun as [([] & s3 & H3 & Hrun)|(r0 & H3 & _ & _)];
    destruct (Hvol _ _ H3) as [HR3 HI3];
    [|exact (fl_trans _ _ _ _ F _ _ _ HR1 (fl_trans _ _ _ _ F _ _ _ HR2 HR3))].
  assert (HR : R s s3) by
    exact (fl_trans _ _ _ _ F _ _ _ HR1 (fl_trans _ _ _ _ F _ _ _ HR2 HR3)).
  assert (HTs3 : T s3 (SnapshotsTask provider)) by exact (fl_T _ _ _ _ F _ _ _ HR3 HTs).
  apply bind_inv in Hrun.
  assert (Hsnap : forall r4 s4,
            (if collectSnapshots p then go (SnapshotsTask provider) else ret tt) s3 = (r4, s4) ->
            R s3 s4 /\ Inv s4).
  { intros r4 s4 H4. destruct (collectSnapshots p); [exact (go_follows _ _ _ _ HI3 HTs3 H4)|].
    inversion H4; subst. split; [apply follows_refl | exact HI3]. }
  destruct Hrun as [([] & s4 & H4 & Hrun)|(r0 & H4 & _ & _)];
    destruct (Hsnap _ _ H4) as [HR4 HI4];
    [|exact (fl_trans _ _ _ _ F _ _ _ HR HR4)].
  apply bind_inv in Hrun. destruct Hrun as [([] & s5 & H5 & Hrun)|(r0 & H5 & _ & _)];
    destruct (Wait_follows _ _ _ HI4 H5) as [HR5 HI5];
    [|exact (fl_trans _ _ _ _ F _ _ _ HR (fl_trans _ _ _ _ F _ _ _ HR4 HR5))].
  destruct (close_and_receive_follows _ _ _ HI5 Hrun) as [HR6 _].
  exact (fl_trans _ _ _ _ F _ _ _ HR
           (fl_trans _ _ _ _ F _ _ _ HR4 (fl_trans _ _ _ _ F _ _ _ HR5 HR6))).
Qed.

(** One call, however it ends, is followed by [R]. *)
Lemma CollectMetrics_follows mts (s : State W) r s' :
  J s ->
  (forall first rest admin, mts = first :: rest ->
     Config_ first !! "tenant" = Some (CfgStr admin) -> A admin) ->
  CollectMetrics mts s = (r, s') ->
  R s s'.
Proof.
  intros HJ HA Hrun. destruct mts as [|first rest].
  { inversion Hrun; subst. apply follows_refl. }
  rewrite CollectMetrics_cons in Hrun.
  apply bind_inv in Hrun. destruct Hrun as [(item & s1 & H1 & Hrun)|(r0 & H1 & _ & _)].
  2:{ apply lift_result_inv in H1 as [-> _]. apply follows_refl. }
  assert (Hitem : Config_ first !! "tenant" = Some item /\ s1 = s).
  { unfold GetConfigItem in H1. destruct (Config_ first !! "tenant"); inversion H1. auto. }
  destruct Hitem as [Hitem ->]. clear H1.
  apply bind_inv in Hrun. destruct Hrun as [(admin & s1 & H2 & Hrun)|(r0 & H2 & _ & _)];
    apply lift_outcome_inv in H2; destruct H2 as [-> H2]; [|apply follows_refl].
  assert (Hadmin : A admin).
  { apply (HA first rest); [reflexivity|]. rewrite Hitem.
    destruct item; simpl in H2; inversion H2. reflexivity. }
  apply bind_inv in Hrun. destruct Hrun as [([] & s2 & H3 & Hrun)|(r0 & H3 & _ & _)];
    apply (fl_populate _ _ _ _ F _ _ _ _ HJ) in H3; [|exact H3].
  assert (HJ2 : J s2) by exact (fl_J _ _ _ _ F _ _ H3 HJ).
  apply bind_inv in Hrun. destruct Hrun as [(p & s3 & H4 & Hrun)|(r0 & H4 & _ & _)];
    apply lift_outcome_inv in H4; destruct H4 as [-> _]; [|exact H3].
  unfold bind at 1 in Hrun. simpl in Hrun. unfold bind at 1 in Hrun. simpl in Hrun.
  match type of Hrun with bind _ _ ?st = _ =>
    assert (HR4 : R s2 st) by (now apply (fl_silent _ _ _ _ F));
    remember st as s4 eqn:Hs4; clear Hs4 end.
  assert (HJ4 : J s4) by exact (fl_J _ _ _ _ F _ _ HR4 HJ2).
  assert (HR : R s s4) by exact (fl_trans _ _ _ _ F _ _ _ H3 HR4).
  apply bind_inv in Hrun. destruct Hrun as [([] & s5 & H5 & Hrun)|(r0 & H5 & _ & _)];
    apply (admin_phase_follows _ _ _ _ _ _ HJ4 Hadmin) in H5;
    [|exact (fl_trans _ _ _ _ F _ _ _ HR H5)].
  assert (HJ5 : J s5) by exact (fl_J _ _ _ _ F _ _ H5 HJ4).
  apply bind_inv in Hrun. destruct Hrun as [([] & s6 & H6 & Hrun)|(r0 & H6 & _ & _)];
    apply (limits_phase_follows _ _ _ _ _ HJ5) in H6;
    [|exact (fl_trans _ _ _ _ F _ _ _ HR (fl_trans _ _ _ _ F _ _ _ H5 H6))].
  apply (projection_effect (first :: rest)) in Hrun.
  destruct Hrun as (Hc & Ht & _).
  assert (HR7 : R s6 s') by now apply (fl_silent _ _ _ _ F).
  exact (fl_trans _ _ _ _ F _ _ _ HR
           (fl_trans _ _ _ _ F _ _ _ H5 (fl_trans _ _ _ _ F _ _ _ H6 HR7))).
Qed.

(* the part of a call that comes after the plan *)
Lemma CollectMetrics_tail_follows first rest admin p (s : State W) r s' :
  J s -> A admin ->
  bind (set_allSnapshots ∅) (fun _ =>
  bind (set_allVolumes ∅) (fun _ =>
  bind (admin_phase first admin p) (fun _ =>
  bind (limits_phase first p) (fun _ =>
  projection (first :: rest))))) s = (r, s') ->
  R s s'.
Proof.
  intros HJ Hadmin Hrun.
  unfold bind at 1 in Hrun. simpl in Hrun. unfold bind at 1 in Hrun. simpl in Hrun.
  match type of Hrun with bind _ _ ?st = _ =>
    assert (HR4 : R s st) by (now apply (fl_silent _ _ _ _ F));
    remember st as s4 eqn:Hs4; clear Hs4 end.
  assert (HJ4 : J s4) by exact (fl_J _ _ _ _ F _ _ HR4 HJ).
  apply bind_inv in Hrun. destruct Hrun as [([] & s5 & H5 & Hrun)|(r0 & H5 & _ & _)];
    apply (admin_phase_follows _ _ _ _ _ _ HJ4 Hadmin) in H5;
    [|exact (fl_trans _ _ _ _ F _ _ _ HR4 H5)].
  assert (HJ5 : J s5) by exact (fl_J _ _ _ _ F _ _ H5 HJ4).
  apply bind_inv in Hrun. destruct Hrun as [([] & s6 & H6 & Hrun)|(r0 & H6 & _ & _)];
    apply (limits_phase_follows _ _ _ _ _ HJ5) in H6;
    [|exact (fl_trans _ _ _ _ F _ _ _ HR4 (fl_trans _ _ _ _ F _ _ _ H5 H6))].
  apply (projection_effect (first :: rest)) in Hrun.
  destruct Hrun as (Hc & Ht & _).
  assert (HR7 : R s6 s') by now apply (fl_silent _ _ _ _ F).
  exact (fl_trans _ _ _ _ F _ _ _ HR4
           (fl_trans _ _ _ _ F _ _ _ H5 (fl_trans _ _ _ _ F _ _ _ H6 HR7))).
Qed.

Lemma run_calls_follows calls : forall s : State W,
  (forall admin, A admin) -> J s -> R s (run_calls calls s).
Proof.
  induction calls as [|mts rest IH]; intros s HA HJ; simpl.
  - apply follows_refl.
  - destruct (CollectMetrics mts s) as [r s1] eqn:Hcall.
    apply CollectMetrics_follows in Hcall; [|exact HJ|intros; apply HA].
    assert (HJ1 : J s1) by exact (fl_J _ _ _ _ F _ _ Hcall HJ).
    destruct r; try exact Hcall;
      exact (fl_trans _ _ _ _ F _ _ _ Hcall (IH s1 HA HJ1)).
Qed.

End Following.

(** * The session cache *)

Section SessionCache.
Context `{D : Domain} {W : Type} {E : Env W}.

Local Abbreviation M := (@M D W).
Local Abbreviation session_run := (@session_run D W).
Local Abbreviation session_task := (@session_task D W).

Lemma sessions_follow_app (evs evs' : list Event) : forall m,
  sessions_follow m (evs ++ evs') <->
  sessions_follow m evs /\ sessions_follow (foldl apply_login m evs) evs'.
Proof.
  induction evs as [|ev evs IH]; intros m; simpl; [tauto|].
  rewrite IH. tauto.
Qed.

(* a session in the cache stays, and no exchange is made for its tenant *)
Lemma sessions_follow_kept (evs : list Event) : forall m t p,
  sessions_follow m evs -> m !! t = Some p ->
  foldl apply_login m evs !! t = Some p /\ Forall (fun ev => ~ is_exchange t ev) evs.
Proof.
  induction evs as [|ev evs IH]; intros m t p Hf Hm; simpl; [split; [exact Hm|constructor]|].
  destruct Hf as [Hev Hf].
  assert (Hstep : apply_login m ev !! t = Some p /\ ~ is_exchange t ev).
  { destruct ev as [|ep u pw tenant dn di res| | | |]; simpl in *; try tauto.
    assert (Hne : tenant <> t) by congruence.
    split; [|exact Hne]. destruct res; [exact Hm|]. now rewrite lookup_insert_ne. }
  destruct Hstep as [Hm' Hne]. destruct (IH _ _ _ Hf Hm') as [Hl Hall].
  split; [exact Hl|]. constructor; assumption.
Qed.

Lemma GetTenants_sessions (pre : list Event) m :
  Forall is_GetTenants pre ->
  foldl apply_login m pre = m /\ sessions_follow m pre /\
  forall svc, foldl apply_dispatch svc pre = svc.
Proof.
  induction 1 as [|ev pre Hev _ IH]; simpl; [tauto|].
  destruct ev; simpl in Hev; try contradiction. simpl. tauto.
Qed.

Lemma session_run_follows :
  follows (fun _ => True) (fun _ => True) session_task session_run.
Proof.
  constructor.
  - intros s1 s2 s3 (new1 & Ht1 & Hp1 & Hs1 & Hf1) (new2 & Ht2 & Hp2 & Hs2 & Hf2).
    exists (new1 ++ new2). rewrite !foldl_app, <- Hp1, <- Hs1.
    split; [now rewrite Ht2, Ht1, app_assoc|]. split; [exact Hp2|]. split; [exact Hs2|].
    apply sessions_follow_app. split; [exact Hf1|now rewrite <- Hp1].
  - trivial.
  - intros s s' task (new & _ & Hp & _ & Hf) HT. destruct task as [| |p t]; simpl in *; trivial.
    rewrite Hp. exact (proj1 (sessions_follow_kept _ _ _ _ Hf HT)).
  - intros s s' Hc Ht. exists []. rewrite Hc, Ht, app_nil_r. simpl. tauto.
  - intros s s' task Hc Ht _ HT. exists [EvGo task]. rewrite Hc. simpl.
    repeat split; try assumption.
  - intros s s' task ev Hc Ht Hev _ HT. exists [ev]. rewrite Hc.
    destruct task, ev; simpl in Hev; try contradiction; simpl; repeat split; try assumption.
    destruct Hev as [-> ->]. exact HT.
  - intros s s' p t limits Hc Ht _ _. exists []. rewrite Hc, Ht, app_nil_r. simpl. tauto.
  - intros cfg tenant s r s' _ Hrun.
    destruct (providers (c s) !! tenant) as [p|] eqn:Hp.
    + rewrite authenticate_cached in Hrun by (rewrite Hp; now eexists).
      inversion Hrun; subst. exists []. rewrite app_nil_r. simpl. tauto.
    + rewrite authenticate_uncached in Hrun by exact Hp.
      destruct (credentials cfg) as [cr|e| |];
        try (inversion Hrun; subst; exists []; rewrite app_nil_r; simpl; tauto).
      simpl in Hrun.
      destruct (openstack_Authenticate _ _ _ _ _ _ (world s)) as [[err|provider] w'];
        simpl in Hrun; inversion Hrun; subst; simpl; eexists; (split; [reflexivity|]);
        simpl; tauto.
  - intros first s r s' _ Hrun. apply populate_tenants_effect in Hrun.
    destruct Hrun as (_ & Hp & Hs & _ & pre & Ht & _ & Hpre & _).
    destruct (GetTenants_sessions pre (providers (c s)) Hpre) as (Hl & Hf & Hd).
    exists pre. rewrite Hl, Hd. tauto.
  - intros s tenant provider _ Hp _. exact Hp.
  - intros s admin provider _ _ _. split; exact I.
Qed.

Lemma sessions_follow_scoped t p r (evs : list Event) : forall m,
  sessions_follow m evs -> EvGetLimits t p r ∈ evs ->
  foldl apply_login m evs !! t = Some p.
Proof.
  induction evs as [|ev evs IH]; intros m Hf Hin; [now apply not_elem_of_nil in Hin|].
  destruct Hf as [Hev Hf]. apply elem_of_cons in Hin as [<-|Hin]; simpl.
  - simpl in Hev. exact (proj1 (sessions_follow_kept _ _ _ _ Hf Hev)).
  - now apply IH.
Qed.

Lemma apply_dispatch_last (evs : list Event) : forall svc,
  foldl apply_dispatch svc evs =
  match last_login evs with
  | Some provider => Some (Dispatch provider)
  | None => svc
  end.
Proof.
  induction evs as [|ev evs IH]; intros svc; simpl; [reflexivity|].
  rewrite IH. destruct (last_login evs); [reflexivity|].
  destruct ev as [|ep u pw tenant dn di [err|provider]| | | |]; reflexivity.
Qed.

(* any sequence of calls is a session run *)
Lemma run_calls_sessions calls (s : State W) : session_run s (run_calls calls s).
Proof. now apply (run_calls_follows _ _ _ _ session_run_follows). Qed.

(** X8.  A session in the cache is never replaced and never renewed: across
    any sequence of calls the tenant keeps the same provider client and no
    credential exchange is made for it. *)
Theorem session_never_renewed t p calls (s : State W) :
  providers (c s) !! t = Some p ->
  providers (c (run_calls calls s)) !! t = Some p /\
  exists new, trace (run_calls calls s) = trace s ++ new /\
              Forall (fun ev => ~ is_exchange t ev) new.
Proof.
  intros Hp. destruct (run_calls_sessions calls s) as (new & Ht & Hprov & _ & Hf).
  destruct (sessions_follow_kept _ _ _ _ Hf Hp) as [Hl Hall].
  split; [now rewrite Hprov|]. exists new. split; assumption.
Qed.

(** X9.  Over any sequence of calls there is at most one successful
    credential exchange per tenant: it is made for a tenant without a
    session, its provider client is the one the cache holds at the end, and
    no exchange for that tenant follows it. *)
Theorem at_most_one_login calls (s : State W) before after ep u pw t dn di provider :
  trace (run_calls calls s) =
    trace s ++ before ++ EvAuthenticate ep u pw t dn di (inr provider) :: after ->
  providers (c s) !! t = None /\
  Forall (fun ev => ~ is_exchange t ev) after /\
  providers (c (run_calls calls s)) !! t = Some provider.
Proof.
  intros Htrace. destruct (run_calls_sessions calls s) as (new & Ht & Hprov & _ & Hf).
  rewrite Ht in Htrace. apply app_inv_head in Htrace. subst new.
  apply sessions_follow_app in Hf as [Hbefore [Hev Hafter]]. simpl in Hev, Hafter.
  assert (Hhere : <[t := provider]> (foldl apply_login (providers (c s)) before) !! t
                  = Some provider) by apply lookup_insert_eq.
  destruct (sessions_follow_kept _ _ _ _ Hafter Hhere) as [Hl Hall].
  split; [|split; [exact Hall|]].
  - destruct (providers (c s) !! t) as [q|] eqn:Hq; [|reflexivity].
    destruct (sessions_follow_kept _ _ _ _ Hbefore Hq) as [Hq' _]. congruence.
  - rewrite Hprov, foldl_app. exact Hl.
Qed.

(** X10.  The limits of a tenant are fetched with the provider client of that
    tenant's own session, the one the cache holds for it. *)
Theorem limits_fetched_with_own_session calls (s : State W) new t p r :
  trace (run_calls calls s) = trace s ++ new ->
  EvGetLimits t p r ∈ new ->
  providers (c (run_calls calls s)) !! t = Some p.
Proof.
  intros Htrace Hin. destruct (run_calls_sessions calls s) as (new' & Ht & Hprov & _ & Hf).
  rewrite Ht in Htrace. apply app_inv_head in Htrace. subst new'.
  rewrite Hprov. exact (sessions_follow_scoped _ _ _ _ _ Hf Hin).
Qed.

(** X11.  The service of the engine is the one dispatched for the last
    successful credential exchange, whichever tenant it was made for; a
    sequence of calls without a successful exchange leaves it as it was. *)
Theorem service_of_last_login calls (s : State W) new :
  trace (run_calls calls s) = trace s ++ new ->
  service (c (run_calls calls s)) =
  match last_login new with
  | Some provider => Some (Dispatch provider)
  | None => service (c s)
  end.
Proof.
  intros Htrace. destruct (run_calls_sessions calls s) as (new' & Ht & _ & Hsvc & _).
  rewrite Ht in Htrace. apply app_inv_head in Htrace. subst new'.
  rewrite Hsvc. apply apply_dispatch_last.
Qed.

(** ** The session of the admin tenant *)

Lemma admin_scoped_follows admin :
  follows (fun _ => True) (fun a => a = admin) (admin_session_task admin)
    (admin_scoped admin).
Proof.
  assert (Hquiet : forall (s s' : State W) new,
            providers (c s') = providers (c s) -> trace s' = trace s ++ new ->
            Forall (admin_session_event admin (providers (c s'))) new ->
            admin_scoped admin s s').
  { intros s s' new Hp Ht Hall. split; [intros t p; now rewrite Hp|]. exists new. tauto. }
  constructor.
  - intros s1 s2 s3 (Hm1 & new1 & Ht1 & Hf1) (Hm2 & new2 & Ht2 & Hf2).
    split; [intros t p Hp; auto|]. exists (new1 ++ new2).
    split; [now rewrite Ht2, Ht1, app_assoc|]. apply Forall_app. split; [|exact Hf2].
    eapply Forall_impl; [exact Hf1|]. intros ev. destruct ev; simpl; auto.
  - trivial.
  - intros s s' task (Hm & _) HT. destruct task; simpl in *; auto.
  - intros s s' Hc Ht. apply (Hquiet s s' []); [now rewrite Hc | now rewrite app_nil_r |].
    constructor.
  - intros s s' task Hc Ht _ HT. apply (Hquiet s s' [EvGo task]); [now rewrite Hc | exact Ht |].
    now repeat constructor.
  - intros s s' task ev Hc Ht Hev _ HT.
    apply (Hquiet s s' [ev]); [now rewrite Hc | exact Ht |]. repeat constructor.
    destruct task, ev; simpl in Hev; try contradiction; simpl; trivial;
      subst; rewrite Hc; exact HT.
  - intros s s' p t limits Hc Ht _ _.
    apply (Hquiet s s' []); [now rewrite Hc | now rewrite app_nil_r | constructor].
  - intros cfg tenant s r s' _ Hrun.
    destruct (fl_authenticate _ _ _ _ session_run_follows cfg tenant s r s' I Hrun)
      as (new & Ht & Hprov & _ & Hf).
    split.
    + intros t p Hp. rewrite Hprov. exact (proj1 (sessions_follow_kept _ _ _ _ Hf Hp)).
    + apply authenticate_effect in Hrun.
      destruct Hrun as (_ & _ & _ & _ & _ & _ & _ & _ & _ & _ & _ & new' & Ht' & _ & Hnew).
      exists new'. split; [exact Ht'|]. eapply Forall_impl; [exact Hnew|].
      intros ev (ep & u & pw & dn & di & res & ->). exact I.
  - intros first s r s' _ Hrun. apply populate_tenants_effect in Hrun.
    destruct Hrun as (_ & Hp & _ & _ & pre & Ht & _ & Hpre & _).
    apply (Hquiet s s' pre); [exact Hp | exact Ht |].
    eapply Forall_impl; [exact Hpre|]. intros ev. destruct ev; simpl; tauto.
  - intros s tenant provider _ _ _. exact I.
  - intros s a provider _ -> Hp. split; exact Hp.
Qed.

(** X12.  In one call the volumes and the snapshots are fetched with the
    provider client of the admin tenant that the configuration of the first
    request names. *)
Theorem admin_fetches_with_admin_session first rest admin (s : State W) r s' new ev :
  Config_ first !! "tenant" = Some (CfgStr admin) ->
  CollectMetrics (first :: rest) s = (r, s') ->
  trace s' = trace s ++ new ->
  ev ∈ new ->
  match ev with
  | EvGetVolumes p _ | EvGetSnapshots p _ => providers (c s') !! admin = Some p
  | _ => True
  end.
Proof.
  intros Hcfg Hrun Htrace Hin.
  apply (CollectMetrics_follows _ _ _ _ (admin_scoped_follows admin)) in Hrun; [|exact I|].
  - destruct Hrun as (_ & new' & Ht & Hall).
    rewrite Ht in Htrace. apply app_inv_head in Htrace. subst new'.
    rewrite Forall_forall in Hall. specialize (Hall ev Hin).
    destruct ev; simpl in Hall; trivial.
  - intros first' rest' admin' Heq Hcfg'. inversion Heq; subst. congruence.
Qed.

End SessionCache.

(** * The tenant directory *)

Section Directory.
Context `{D : Domain} {W : Type} {E : Env W}.

Local Abbreviation M := (@M D W).
Local Abbreviation listed := (@listed D W).
Local Abbreviation directory_kept := (@directory_kept D W).

Lemma directory_kept_follows :
  follows listed (fun _ => True) (fun _ _ => True) directory_kept.
Proof.
  assert (Hquiet : forall (s s' : State W) new,
            allTenants (c s') = allTenants (c s) -> trace s' = trace s ++ new ->
            Forall (fun ev => ~ is_GetTenants ev) new -> directory_kept s s').
  { intros s s' new Hp Ht Hall. split; [exact Hp|]. exists new. tauto. }
  constructor; trivial.
  - intros s1 s2 s3 (Hm1 & new1 & Ht1 & Hf1) (Hm2 & new2 & Ht2 & Hf2).
    split; [congruence|]. exists (new1 ++ new2).
    split; [now rewrite Ht2, Ht1, app_assoc|]. apply Forall_app. now split.
  - intros s s' (Hm & _) HJ. unfold listed. now rewrite Hm.
  - intros s s' Hc Ht. apply (Hquiet s s' []); [now rewrite Hc | now rewrite app_nil_r |].
    constructor.
  - intros s s' task Hc Ht _ _. apply (Hquiet s s' [EvGo task]); [now rewrite Hc | exact Ht |].
    repeat constructor. simpl. tauto.
  - intros s s' task ev Hc Ht Hev _ _.
    apply (Hquiet s s' [ev]); [now rewrite Hc | exact Ht |]. repeat constructor.
    destruct task, ev; simpl in Hev; try contradiction; simpl; tauto.
  - intros s s' p t limits Hc Ht _ _.
    apply (Hquiet s s' []); [now rewrite Hc | now rewrite app_nil_r | constructor].
  - intros cfg tenant s r s' _ Hrun. apply authenticate_effect in Hrun.
    destruct Hrun as (_ & _ & HT & _ & _ & _ & _ & _ & _ & _ & _ & new' & Ht' & _ & Hnew).
    apply (Hquiet s s' new'); [exact HT | exact Ht' |].
    eapply Forall_impl; [exact Hnew|].
    intros ev (ep & u & pw & dn & di & res & ->). simpl. tauto.
  - intros first s r s' HJ Hrun. unfold populate_tenants, bind at 1, get_c in Hrun.
    destruct (decide (size (allTenants (c s)) = 0)) as [Hz|Hnz].
    + apply map_size_empty_iff in Hz. contradiction.
    + inversion Hrun; subst. apply (Hquiet s' s' []); [reflexivity | now rewrite app_nil_r |].
      constructor.
  - intros. split; exact I.
Qed.

(** X13.  CollectMetrics lists the tenants only while the directory is empty:
    once the directory holds an entry, no sequence of calls lists the
    tenants again or changes the directory. *)
Theorem directory_never_refreshed calls (s : State W) :
  allTenants (c s) <> ∅ ->
  allTenants (c (run_calls calls s)) = allTenants (c s) /\
  exists new, trace (run_calls calls s) = trace s ++ new /\
              Forall (fun ev => ~ is_GetTenants ev) new.
Proof.
  intros Hlisted.
  exact (run_calls_follows _ _ _ _ directory_kept_follows calls s (fun _ => I) Hlisted).
Qed.

End Directory.

(** * The catalogue *)

Section CatalogueProperties.
Context `{D : Domain} {W : Type} {E : Env W} {S : Schema}.

Local Abbreviation M := (@M D W).

(** ** Splitting and joining *)

Lemma Split_app sep (x : string) : forall y,
  free_of sep x -> Split (String.append x (String sep y)) sep = x :: Split y sep.
Proof.
  induction x as [|a x IH]; intros y Hfree; simpl.
  - now rewrite Ascii.eqb_refl.
  - destruct Hfree as [Hne Hfree]. apply Ascii.eqb_neq in Hne. rewrite Hne.
    now rewrite IH.
Qed.

Lemma Strings_NewNamespace segs : Strings (NewNamespace segs) = segs.
Proof.
  unfold Strings, NewNamespace. rewrite map_map. simpl. apply map_id.
Qed.

(** ** What a call of GetMetricTypes does *)

Lemma GetMetricTypes_inv cfg (s : State W) r s' :
  GetMetricTypes cfg s = (r, s') ->
  providers (c s') = providers (c s) /\ allLimits (c s') = allLimits (c s) /\
  service (c s') = service (c s) /\
  match credentials (as_MetricType cfg) with
  | Ok cr =>
      exists answer,
        trace s' = trace s ++
          [EvGetTenants (endpoint cr) (user cr) (password cr)
             (domain_name cr) (domain_id cr) answer] /\
        match answer with
        | inl e => r = Err e /\ allTenants (c s') = ∅
        | inr tenants =>
            allTenants (c s') = tenants /\
            exists entries,
              entries ≡ₚ map_to_list tenants /\
              r = Ok (map (catalogue_entry cfg) (tenant_namespaces entries))
        end
  | Err e => r = Err e /\ allTenants (c s') = ∅ /\ trace s' = trace s
  | Panic => r = Panic /\ s' = s
  | Blocked => r = Blocked /\ s' = s
  end.
Proof.
  unfold GetMetricTypes. intros Hrun.
  destruct (getTenants (as_MetricType cfg) s) as [r1 s1] eqn:Hget.
  apply getTenants_inv in Hget.
  destruct (credentials (as_MetricType cfg)) as [cr|e| |].
  - destruct Hget as (answer & Ht & Hc & _ & ->).
    destruct answer as [e|tenants].
    + inversion Hrun; subst; simpl. rewrite Hc. repeat split.
      exists (inl e). split; [exact Ht|]. split; reflexivity.
    + unfold bind at 1 in Hrun. simpl in Hrun. unfold bind at 1 in Hrun. simpl in Hrun.
      match type of Hrun with bind (pick_order ?n ?l) _ ?st = _ =>
        destruct (pick_order_total n l st) as
          (entries & s2 & Hpick & Hperm & Hc2 & Ht2 & _); [lia|] end.
      unfold bind at 1 in Hrun. rewrite Hpick in Hrun. inversion Hrun; subst.
      simpl in Hc2, Ht2. rewrite Hc2. simpl. rewrite Hc. repeat split.
      exists (inr tenants). split; [now rewrite Ht2|]. split; [reflexivity|].
      exists entries. split; [exact Hperm | reflexivity].
  - destruct Hget as [-> ->]. inversion Hrun; subst. simpl. repeat split.
  - destruct Hget as [-> ->]. inversion Hrun; subst. repeat split.
  - destruct Hget as [-> ->]. inversion Hrun; subst. repeat split.
Qed.

(** X14.  GetMetricTypes assigns the directory whatever [getTenants] returns:
    when the configuration or the listing fails, the directory of the
    engine is left empty, also if it was populated before; the sessions,
    the service and the limits cache are not touched. *)
Theorem GetMetricTypes_failure_empties_directory cfg (s : State W) e s' :
  GetMetricTypes cfg s = (Err e, s') ->
  allTenants (c s') = ∅ /\
  providers (c s') = providers (c s) /\ allLimits (c s') = allLimits (c s) /\
  service (c s') = service (c s) /\
  exists new, trace s' = trace s ++ new /\ length new <= 1 /\ Forall is_GetTenants new.
Proof.
  intros Hrun. apply GetMetricTypes_inv in Hrun.
  destruct Hrun as (Hp & Hl & Hs & Hrun).
  destruct (credentials (as_MetricType cfg)) as [cr|e'| |].
  - destruct Hrun as ([e'|tenants] & Ht & Hrun).
    + destruct Hrun as [_ Hdir]. repeat split; try assumption.
      eexists. split; [exact Ht|]. split; [simpl; lia|]. now repeat constructor.
    + destruct Hrun as (_ & entries & _ & Hr). discriminate.
  - destruct Hrun as (_ & Hdir & Ht). repeat split; try assumption.
    exists []. rewrite app_nil_r. split; [exact Ht|]. split; [simpl; lia|constructor].
  - destruct Hrun as [Hr _]. discriminate.
  - destruct Hrun as [Hr _]. discriminate.
Qed.

(** X15.  A successful GetMetricTypes lists the tenants once, whatever the
    directory held, and replaces the directory by the listing; the
    catalogue it returns holds, up to the order in which Go visits the
    directory, the namespaces generated for each tenant name. *)
Theorem GetMetricTypes_catalogue cfg (s : State W) mts s' :
  GetMetricTypes cfg s = (Ok mts, s') ->
  (exists cr,
     credentials (as_MetricType cfg) = Ok cr /\
     trace s' = trace s ++
       [EvGetTenants (endpoint cr) (user cr) (password cr)
          (domain_name cr) (domain_id cr) (inr (allTenants (c s')))]) /\
  providers (c s') = providers (c s) /\ allLimits (c s') = allLimits (c s) /\
  mts ≡ₚ map (catalogue_entry cfg)
           (tenant_namespaces (map_to_list (allTenants (c s')))).
Proof.
  intros Hrun. apply GetMetricTypes_inv in Hrun.
  destruct Hrun as (Hp & Hl & Hs & Hrun).
  destruct (credentials (as_MetricType cfg)) as [cr|e'| |].
  - destruct Hrun as ([e'|tenants] & Ht & Hrun).
    + destruct Hrun as [Hr _]. discriminate.
    + destruct Hrun as (Hdir & entries & Hperm & Hr). inversion Hr; subst.
      split; [exists cr; split; [reflexivity | exact Ht]|].
      split; [exact Hp|]. split; [exact Hl|].
      apply Permutation_map. unfold tenant_namespaces. now rewrite Hperm.
  - destruct Hrun as [Hr _]. discriminate.
  - destruct Hrun as [Hr _]. discriminate.
  - destruct Hrun as [Hr _]. discriminate.
Qed.

(** X16.  When [ns.FromCompositionTags] extends its prefix by a separator and
    a path, every entry of the catalogue starts with the vendor, the file
    system and the plugin name, followed by the segments of a tenant name
    of the directory: for a tenant name without separator, segment 3 of the
    entry, where CollectMetrics reads the tenant, is that name. *)
Theorem catalogue_entries_name_a_tenant cfg (s : State W) mts s' mt :
  (forall current namespace, namespace ∈ FromCompositionTags current ->
     exists path, namespace = String.append current (String slash path)) ->
  GetMetricTypes cfg s = (Ok mts, s') ->
  mt ∈ mts ->
  Config_ mt = ConfigDataNode cfg /\
  exists id tenantName path,
    allTenants (c s') !! id = Some tenantName /\
    Strings (Namespace_ mt) =
      ["intel"; "openstack"; "cinder"] ++
      Split (String.append tenantName (String slash path)) slash /\
    (free_of slash tenantName -> Strings (Namespace_ mt) !! 3 = Some tenantName).
Proof.
  intros Htags Hrun Hin. apply GetMetricTypes_inv in Hrun.
  destruct Hrun as (_ & _ & _ & Hrun).
  destruct (credentials (as_MetricType cfg)) as [cr|e'| |];
    [|destruct Hrun as [Hr _]; discriminate..].
  destruct Hrun as ([e'|tenants] & Ht & Hrun); [destruct Hrun as [Hr _]; discriminate|].
  destruct Hrun as (Hdir & entries & Hperm & Hr). inversion Hr; subst mts. clear Hr.
  apply list_elem_of_fmap in Hin as (namespace & -> & Hin).
  split; [reflexivity|].
  unfold tenant_namespaces in Hin. apply list_elem_of_In, in_flat_map in Hin.
  destruct Hin as ([id tenantName] & Hentry & Hns). cbn [snd] in Hns.
  apply list_elem_of_In in Hentry, Hns. rewrite Hperm in Hentry.
  apply elem_of_map_to_list in Hentry.
  destruct (Htags _ _ Hns) as (path & Heq).
  exists id, tenantName, path. split; [now rewrite Hdir|].
  assert (Hsplit : Split (String.append (Join ["intel"; "openstack"; "cinder"; tenantName] "/")
                            (String slash path)) slash =
                   ["intel"; "openstack"; "cinder"] ++
                   Split (String.append tenantName (String slash path)) slash).
  { change (String.append (Join ["intel"; "openstack"; "cinder"; tenantName] "/")
              (String slash path))
      with (String.append "intel" (String slash
             (String.append "openstack" (String slash
               (String.append "cinder" (String slash
                 (String.append tenantName (String slash path)))))))).
    rewrite (Split_app slash "intel"), (Split_app slash "openstack"),
      (Split_app slash "cinder");
      [reflexivity|unfold slash; simpl; repeat split; first [exact I | discriminate]..]. }
  assert (Hstr : Strings (Namespace_ (catalogue_entry cfg namespace)) = Split namespace slash)
    by apply Strings_NewNamespace.
  rewrite Hstr, Heq, Hsplit. split; [reflexivity|].
  intros Hfree. now rewrite Split_app.
Qed.

(* the first call after the directory was emptied lists the tenants *)
Lemma populate_tenants_empty first cr (s : State W) r s' :
  allTenants (c s) = ∅ -> credentials first = Ok cr ->
  populate_tenants first s = (r, s') ->
  exists answer,
    trace s' = trace s ++
      [EvGetTenants (endpoint cr) (user cr) (password cr)
         (domain_name cr) (domain_id cr) answer].
Proof.
  intros Hdir Hcr Hrun. unfold populate_tenants, bind at 1, get_c in Hrun.
  destruct (decide (size (allTenants (c s)) = 0)) as [_|Hnz];
    [|rewrite Hdir, map_size_empty in Hnz; contradiction].
  apply bind_inv in Hrun. destruct Hrun as [(ts & s1 & H1 & Hrun)|(r0 & H1 & _ & _)];
    apply getTenants_inv in H1; rewrite Hcr in H1;
    destruct H1 as (answer & Ht & _); exists answer; [|exact Ht].
  inversion Hrun; subst. exact Ht.
Qed.

(** X17.  GetMetricTypes and CollectMetrics share the directory: after a
    GetMetricTypes that failed, the next CollectMetrics lists the tenants
    again before anything else, although an earlier call may have listed
    them already. *)
Theorem failed_GetMetricTypes_forces_new_listing cfg (s : State W) e s1
    first rest admin cr r s2 :
  GetMetricTypes cfg s = (Err e, s1) ->
  Config_ first !! "tenant" = Some (CfgStr admin) ->
  credentials first = Ok cr ->
  CollectMetrics (first :: rest) s1 = (r, s2) ->
  exists answer new,
    trace s2 = trace s1 ++
      EvGetTenants (endpoint cr) (user cr) (password cr)
        (domain_name cr) (domain_id cr) answer :: new.
Proof.
  intros Hfail Hadmin Hcr Hrun.
  assert (Hdir : allTenants (c s1) = ∅).
  { apply GetMetricTypes_inv in Hfail. destruct Hfail as (_ & _ & _ & Hfail).
    destruct (credentials (as_MetricType cfg)) as [cr'|e'| |].
    - destruct Hfail as ([e'|tenants] & _ & Hfail); [tauto|].
      destruct Hfail as (_ & entries & _ & Hr). discriminate.
    - tauto.
    - destruct Hfail as [Hr _]. discriminate.
    - destruct Hfail as [Hr _]. discriminate. }
  rewrite CollectMetrics_cons in Hrun.
  rewrite (bind_Ok _ _ s1 (CfgStr admin) s1) in Hrun
    by (unfold GetConfigItem; rewrite Hadmin; reflexivity).
  rewrite (bind_Ok _ _ s1 admin s1) in Hrun by reflexivity.
  apply bind_inv in Hrun. destruct Hrun as [([] & s3 & H3 & Hrun)|(r0 & H3 & _ & _)];
    destruct (populate_tenants_empty _ _ _ _ _ Hdir Hcr H3) as (answer & Ht3);
    exists answer; [|exists []; exact Ht3].
  apply bind_inv in Hrun. destruct Hrun as [(p & s4 & H4 & Hrun)|(r0 & H4 & _ & _)];
    apply lift_outcome_inv in H4; destruct H4 as [-> _]; [|exists []; exact Ht3].
  apply (CollectMetrics_tail_follows _ _ _ _ session_run_follows _ _ admin) in Hrun;
    [|exact I..].
  destruct Hrun as (new & Ht & _). exists new.
  now rewrite Ht, Ht3, <- app_assoc.
Qed.

End CatalogueProperties.

(** * What a call reports *)

Section Reported.
Context `{D : Domain} {W : Type} {E : Env W}.

Local Abbreviation M := (@M D W).
Local Abbreviation collected := (@collected D W).
Local Abbreviation returns_ok := (@returns_ok D W).
Local Abbreviation same_but_locals := (@same_but_locals D W).

Lemma collected_quiet (s s' : State W) :
  allTenants (c s') = allTenants (c s) -> allLimits (c s') = allLimits (c s) ->
  trace s' = trace s -> allVolumes s' = allVolumes s -> allSnapshots s' = allSnapshots s ->
  collected s s'.
Proof.
  intros Hd Hl Ht Hv Hs. split; [exact Hd|]. exists []. rewrite app_nil_r. simpl. tauto.
Qed.

Lemma collected_refl (s : State W) : collected s s.
Proof. now apply collected_quiet. Qed.

Lemma collected_trans (s1 s2 s3 : State W) :
  collected s1 s2 -> collected s2 s3 -> collected s1 s3.
Proof.
  intros (Hd1 & new1 & Ht1 & Hv1 & Hs1 & Hl1) (Hd2 & new2 & Ht2 & Hv2 & Hs2 & Hl2).
  split; [congruence|]. exists (new1 ++ new2). rewrite !foldl_app, <- Hv1, <- Hs1, <- Hl1.
  rewrite Hd1 in Hv2, Hs2. split; [now rewrite Ht2, Ht1, app_assoc|]. tauto.
Qed.

Lemma returns_ok_bind {X Y} (m : M X) (k : X -> M Y) :
  returns_ok collected m -> (forall x, returns_ok collected (k x)) ->
  returns_ok collected (bind m k).
Proof.
  intros Hm Hk s y s' Hrun. apply bind_Ok_inv in Hrun as (x & s1 & H1 & H2).
  eapply collected_trans; [exact (Hm _ _ _ H1) | exact (Hk _ _ _ _ H2)].
Qed.

(* events that are no fetch leave the maps and the cache alone *)
Lemma no_fetch_events dir (evs : list Event) :
  Forall (fun ev => match ev with
                    | EvGetVolumes _ _ | EvGetSnapshots _ _ | EvGetLimits _ _ _ => False
                    | _ => True
                    end) evs ->
  (forall m, foldl (apply_volumes dir) m evs = m) /\
  (forall m, foldl (apply_snapshots dir) m evs = m) /\
  (forall m, foldl apply_limits m evs = m).
Proof.
  induction 1 as [|ev evs Hev _ IH]; simpl; [tauto|].
  destruct IH as (Hv & Hs & Hl).
  destruct ev; simpl in Hev; try contradiction; simpl; auto.
Qed.

Lemma collected_no_fetch (s s' : State W) new :
  allTenants (c s') = allTenants (c s) -> allLimits (c s') = allLimits (c s) ->
  trace s' = trace s ++ new -> allVolumes s' = allVolumes s ->
  allSnapshots s' = allSnapshots s ->
  Forall (fun ev => match ev with
                    | EvGetVolumes _ _ | EvGetSnapshots _ _ | EvGetLimits _ _ _ => False
                    | _ => True
                    end) new ->
  collected s s'.
Proof.
  intros Hd Hl Ht Hv Hs Hnew. split; [exact Hd|]. exists new.
  destruct (no_fetch_events (allTenants (c s)) new Hnew) as (Hfv & Hfs & Hfl).
  rewrite Hfv, Hfs, Hfl. tauto.
Qed.

Lemma store_volumes_files volumes : forall s : State W,
  exists s', store_volumes volumes s = (Ok tt, s') /\ same_but_locals s s' /\
    allSnapshots s' = allSnapshots s /\
    allVolumes s' = file_by_name (allTenants (c s)) (allVolumes s) volumes.
Proof.
  induction volumes as [|[tenantId volumeCount] rest IH]; intros s; simpl.
  - exists s. repeat split; reflexivity.
  - unfold bind at 1, get_c. unfold bind at 1, set_allVolumes.
    match goal with |- context [store_volumes rest ?s1] =>
      destruct (IH s1) as (s' & Hrun & (Hc & Hw & Ht & He & Hd) & Hs & Hv) end.
    exists s'. simpl in *. split; [exact Hrun|]. repeat split; assumption.
Qed.

Lemma store_snapshots_files snapshots : forall s : State W,
  exists s', store_snapshots snapshots s = (Ok tt, s') /\ same_but_locals s s' /\
    allVolumes s' = allVolumes s /\
    allSnapshots s' = file_by_name (allTenants (c s)) (allSnapshots s) snapshots.
Proof.
  induction snapshots as [|[tenantId snapshotCount] rest IH]; intros s; simpl.
  - exists s. repeat split; reflexivity.
  - unfold bind at 1, get_c. unfold bind at 1, set_allSnapshots.
    match goal with |- context [store_snapshots rest ?s1] =>
      destruct (IH s1) as (s' & Hrun & (Hc & Hw & Ht & He & Hd) & Hv & Hs) end.
    exists s'. simpl in *. split; [exact Hrun|]. repeat split; assumption.
Qed.

Lemma send_if_error_locals err (s : State W) r s' :
  send_if_error err s = (r, s') ->
  c s' = c s /\ trace s' = trace s /\
  allVolumes s' = allVolumes s /\ allSnapshots s' = allSnapshots s.
Proof.
  destruct err as [e|]; simpl; [unfold send; destruct (decide _)|];
    intros H; inversion H; subst; repeat split.
Qed.

Lemma run_task_collected task : returns_ok collected (run_task task).
Proof.
  intros s [] s' Hrun.
  assert (Hsvc : forall svc s0, get_service s = (Ok svc, s0) -> s0 = s).
  { intros svc s0. unfold get_service, bind, get_c. destruct (service (c s)); now inversion 1. }
  destruct task as [provider|provider|p t]; simpl in Hrun;
    apply bind_Ok_inv in Hrun as (svc & s1 & H1 & Hrun); apply Hsvc in H1; subst s1;
    unfold bind at 1, call in Hrun;
    match type of Hrun with context [let (_, _) := ?f (world s) in _] =>
      destruct (f (world s)) as [[fetched err] w'] end;
    apply bind_Ok_inv in Hrun as ([] & s2 & H2 & Hrun);
    apply send_if_error_locals in H2; destruct H2 as (Hc2 & Ht2 & Hv2 & Hs2);
    simpl in Hc2, Ht2, Hv2, Hs2, Hrun.
  - destruct (store_volumes_files fetched s2) as (s3 & H3 & (Hc3 & _ & Ht3 & _) & Hs3 & Hv3).
    rewrite H3 in Hrun. inversion Hrun; subst s3. split; [congruence|].
    exists [EvGetVolumes provider (fetched, err)]. simpl.
    split; [congruence|]. split; [|split; congruence]. now rewrite Hv3, Hc2, Hv2.
  - destruct (store_snapshots_files fetched s2) as (s3 & H3 & (Hc3 & _ & Ht3 & _) & Hv3 & Hs3).
    rewrite H3 in Hrun. inversion Hrun; subst s3. split; [congruence|].
    exists [EvGetSnapshots provider (fetched, err)]. simpl.
    split; [congruence|]. split; [congruence|]. split; [|congruence].
    now rewrite Hs3, Hc2, Hs2.
  - inversion Hrun; subst s'. simpl. split; [now rewrite Hc2|].
    exists [EvGetLimits t p (fetched, err)]. simpl.
    split; [exact Ht2|]. split; [exact Hv2|]. split; [exact Hs2|]. now rewrite Hc2.
Qed.

Lemma quiet_returns_ok {X} (m : M X) :
  (forall s x s', m s = (Ok x, s') ->
     c s' = c s /\ trace s' = trace s /\
     allVolumes s' = allVolumes s /\ allSnapshots s' = allSnapshots s) ->
  returns_ok collected m.
Proof.
  intros Hm s x s' Hrun. destruct (Hm _ _ _ Hrun) as (Hc & Ht & Hv & Hs).
  apply collected_quiet; congruence.
Qed.

Lemma ask_collected {X} (f : W -> X * W) : returns_ok collected (ask f).
Proof.
  apply quiet_returns_ok. intros s x s'. unfold ask. destruct (f (world s)).
  intros H; inversion H; subst; repeat split.
Qed.

Lemma resume_collected task rest : returns_ok collected (resume task rest).
Proof.
  unfold resume. apply returns_ok_bind; [|intros _; apply run_task_collected].
  apply quiet_returns_ok. intros s x s' H. inversion H; subst. repeat split.
Qed.

Lemma ret_collected {X} (x : X) : returns_ok collected (ret x).
Proof. apply quiet_returns_ok. intros s x' s' H. inversion H; subst. repeat split. Qed.

Lemma run_some_collected fuel : returns_ok collected (run_some fuel).
Proof.
  induction fuel as [|fuel IH]; [apply ret_collected|].
  intros s x s' Hrun. rewrite run_some_S in Hrun. revert Hrun.
  apply returns_ok_bind; [apply ask_collected|]. intros i.
  destruct (take_nth i (done s)) as [[task rest]|]; [|apply ret_collected].
  apply returns_ok_bind; [apply resume_collected | intros _; exact IH].
Qed.

Lemma run_all_collected fuel : returns_ok collected (run_all fuel).
Proof.
  induction fuel as [|fuel IH]; [apply ret_collected|].
  intros s x s' Hrun. rewrite run_all_S in Hrun.
  destruct (done s) as [|task0 pool0] eqn:Hpool.
  { inversion Hrun; subst. apply collected_refl. }
  rewrite <- Hpool in Hrun. clear Hpool. revert Hrun.
  apply returns_ok_bind; [apply ask_collected|]. intros i.
  destruct (take_nth (i mod length (done s)) (done s)) as [[task rest]|];
    [|apply ret_collected].
  apply returns_ok_bind; [apply resume_collected | intros _; exact IH].
Qed.

Lemma Wait_collected : returns_ok collected Wait.
Proof. intros s x s' Hrun. exact (run_all_collected _ _ _ _ Hrun). Qed.

Lemma go_collected task : returns_ok collected (go task).
Proof.
  unfold go. apply returns_ok_bind.
  { intros s x s' H. inversion H; subst.
    apply (collected_no_fetch _ _ [EvGo task]); try reflexivity. now repeat constructor. }
  intros _. apply returns_ok_bind.
  { apply quiet_returns_ok. intros s x s' H. inversion H; subst. repeat split. }
  intros _ s x s' Hrun. exact (run_some_collected _ _ _ _ Hrun).
Qed.

Lemma authenticate_collected cfg tenant : returns_ok collected (authenticate cfg tenant).
Proof.
  intros s x s' Hrun. apply authenticate_effect in Hrun.
  destruct Hrun as (_ & HL & HT & Hs & Hv & _ & _ & _ & _ & _ & _ & new & Ht & _ & Hnew).
  apply (collected_no_fetch _ _ new); try assumption.
  eapply Forall_impl; [exact Hnew|]. intros ev (ep & u & pw & dn & di & res & ->). exact I.
Qed.

Lemma close_and_receive_collected : returns_ok collected close_and_receive.
Proof.
  apply quiet_returns_ok. intros s x s'. unfold close_and_receive.
  destruct (buf (errChn s)); intros H; inversion H; subst; repeat split.
Qed.

Lemma limits_loop_collected cfg flag rem : returns_ok collected (limits_loop cfg flag rem).
Proof.
  induction rem as [|tenant rest IH]; [apply ret_collected|].
  intros s x s' Hrun. simpl in Hrun. unfold bind at 1 in Hrun. simpl in Hrun. revert Hrun.
  apply returns_ok_bind; [|intros _; exact IH].
  destruct (flag && negb (bool_decide (is_Some (allLimits (c s) !! tenant))));
    [|apply ret_collected].
  apply returns_ok_bind; [apply authenticate_collected | intros _].
  apply returns_ok_bind; [|intros cur; apply go_collected].
  apply quiet_returns_ok. intros s0 x0 s0' H. inversion H; subst. repeat split.
Qed.

Lemma limits_phase_collected cfg p : returns_ok collected (limits_phase cfg p).
Proof.
  intros s [] s' Hrun. unfold limits_phase in Hrun.
  unfold bind at 1 in Hrun. simpl in Hrun. unfold bind at 1 in Hrun. simpl in Hrun.
  unfold bind at 1, Elements in Hrun.
  match type of Hrun with context [pick_order ?n ?l ?s1] =>
    destruct (pick_order_total n l s1) as
      (tenants & s2 & Hpick & _ & Hc & Ht & _ & _ & Hs & Hv); [lia|] end.
  rewrite Hpick in Hrun. simpl in Hc, Ht, Hs, Hv.
  assert (HR2 : collected s s2) by (apply collected_quiet; congruence).
  destruct (limits_loop cfg (collectLimits p) tenants s2) as [rl s3] eqn:Hloop.
  destruct rl as [[]|e| |]; try discriminate.
  - apply limits_loop_collected in Hloop.
    apply bind_Ok_inv in Hrun as ([] & s4 & H4 & Hrun).
    apply Wait_collected in H4. apply close_and_receive_collected in Hrun.
    eauto using collected_trans.
  - apply bind_Ok_inv in Hrun as ([] & s4 & _ & Hrun). inversion Hrun.
Qed.

Lemma admin_phase_collected cfg admin p : returns_ok collected (admin_phase cfg admin p).
Proof.
  unfold admin_phase.
  apply returns_ok_bind; [apply authenticate_collected | intros _].
  apply returns_ok_bind;
    [apply quiet_returns_ok; intros s x s' H; inversion H; subst; repeat split | intros cur].
  apply returns_ok_bind;
    [apply quiet_returns_ok; intros s x s' H; inversion H; subst; repeat split | intros _].
  apply returns_ok_bind;
    [apply quiet_returns_ok; intros s x s' H; inversion H; subst; repeat split | intros _].
  apply returns_ok_bind; [destruct (collectVolumes p); [apply go_collected | apply ret_collected]|].
  intros _.
  apply returns_ok_bind; [destruct (collectSnapshots p); [apply go_collected | apply ret_collected]|].
  intros _.
  apply returns_ok_bind; [apply Wait_collected | intros _; apply close_and_receive_collected].
Qed.

Lemma file_by_name_other {V} dir (fetched : list (string * V)) : forall m n,
  (forall e, e ∈ fetched -> default "" (dir !! fst e) <> n) ->
  file_by_name dir m fetched !! n = m !! n.
Proof.
  unfold file_by_name.
  induction fetched as [|e rest IH]; intros m n Hne; simpl; [reflexivity|].
  rewrite IH by (intros e' Hin; apply Hne; now right).
  apply lookup_insert_ne. apply Hne. left.
Qed.

Lemma file_by_name_last {V} dir (before after : list (string * V)) id v m :
  (forall e, e ∈ after -> default "" (dir !! fst e) <> default "" (dir !! id)) ->
  file_by_name dir m (before ++ (id, v) :: after) !! default "" (dir !! id) = Some v.
Proof.
  intros Hne. unfold file_by_name. rewrite foldl_app. simpl.
  fold (file_by_name dir (<[default "" (dir !! id) := v]>
                            (foldl (fun m e => <[default "" (dir !! fst e) := snd e]> m)
                               m before)) after).
  rewrite file_by_name_other by exact Hne. apply lookup_insert_eq.
Qed.

(** X18.  The goroutines file every fetched count under the display name the
    directory gives its tenant id, and under the empty name when the
    directory does not know the id; when several ids of one fetch share a
    name, the count visited last is the one that stays. *)
Theorem fetched_counts_filed_by_name (s : State W) id
    (vbefore vafter : list (string * Volumes)) v
    (sbefore safter : list (string * Snapshots)) v' :
  (forall e, e ∈ vafter ->
     display_name (allTenants (c s)) (fst e) <> display_name (allTenants (c s)) id) ->
  (forall e, e ∈ safter ->
     display_name (allTenants (c s)) (fst e) <> display_name (allTenants (c s)) id) ->
  (exists s1, store_volumes (vbefore ++ (id, v) :: vafter) s = (Ok tt, s1) /\
              allVolumes s1 !! display_name (allTenants (c s)) id = Some v) /\
  (exists s2, store_snapshots (sbefore ++ (id, v') :: safter) s = (Ok tt, s2) /\
              allSnapshots s2 !! display_name (allTenants (c s)) id = Some v').
Proof.
  unfold display_name. intros Hv Hs. split.
  - destruct (store_volumes_files (vbefore ++ (id, v) :: vafter) s)
      as (s' & Hrun & _ & _ & Hmap).
    exists s'. split; [exact Hrun|]. rewrite Hmap. now apply file_by_name_last.
  - destruct (store_snapshots_files (sbefore ++ (id, v') :: safter) s)
      as (s' & Hrun & _ & _ & Hmap).
    exists s'. split; [exact Hrun|]. rewrite Hmap. now apply file_by_name_last.
Qed.

(** X19.  What a call that returns normally reports.  The value of every
    request is extracted from the struct of its tenant, which holds the
    snapshots and the volumes fetched during this call, filed under the
    display name the directory gives their tenant id, and the limits of the
    cache as the fetches of this call left it; nothing of the volumes or
    snapshots of an earlier call is reported. *)
Theorem CollectMetrics_reports_fetches mts (s : State W) out s' new :
  CollectMetrics mts s = (Ok out, s') ->
  trace s' = trace s ++ new ->
  Forall2 (fun mt m =>
             Namespace_ m = Namespace_ mt /\
             exists tenant,
               Strings (Namespace_ mt) !! 3 = Some tenant /\
               Data_ m = GetValueByNamespace
                           (container_of (allTenants (c s')) (allLimits (c s)) new tenant)
                           (drop 4 (Strings (Namespace_ mt))))
          mts out.
Proof.
  intros Hrun Htrace.
  destruct mts as [|first rest]; [inversion Hrun|].
  rewrite CollectMetrics_cons in Hrun.
  apply bind_Ok_inv in Hrun as (item & s1 & H1 & Hrun).
  apply lift_result_inv in H1 as [-> _].
  apply bind_Ok_inv in Hrun as (admin & s1 & H2 & Hrun).
  apply lift_outcome_inv in H2 as [-> _].
  apply bind_Ok_inv in Hrun as ([] & s2 & H3 & Hrun).
  apply populate_tenants_effect in H3.
  destruct H3 as (_ & _ & _ & Hl3 & pre & Ht3 & _ & Hpre & _).
  apply bind_Ok_inv in Hrun as (p & s3 & H4 & Hrun).
  apply lift_outcome_inv in H4 as [-> _].
  apply bind_Ok_inv in Hrun as ([] & s3 & H5 & Hrun).
  apply bind_Ok_inv in Hrun as ([] & s4 & H6 & Hrun).
  assert (Hs4 : c s4 = c s2 /\ trace s4 = trace s2 /\ allVolumes s4 = ∅ /\ allSnapshots s4 = ∅)
    by (inversion H5; subst; inversion H6; subst; repeat split).
  destruct Hs4 as (Hc4 & Ht4 & Hv4 & Hsn4).
  apply bind_Ok_inv in Hrun as ([] & s5 & H7 & Hrun).
  apply admin_phase_collected in H7.
  apply bind_Ok_inv in Hrun as ([] & s6 & H8 & Hrun).
  apply limits_phase_collected in H8.
  pose proof (collected_trans _ _ _ H7 H8) as (Hdir & evs & Ht6 & Hv6 & Hs6 & Hl6).
  apply (projection_effect (first :: rest)) in Hrun.
  destruct Hrun as (Hc' & Ht' & Hs' & Hv' & [Hr|(out' & Hr & Hall)]); [discriminate|].
  inversion Hr; subst out'. clear Hr.
  assert (Hnew : new = pre ++ evs).
  { rewrite Ht', Ht6, Ht4, Ht3, <- app_assoc in Htrace. now apply app_inv_head in Htrace. }
  assert (Hpre' : Forall (fun ev => match ev with
                    | EvGetVolumes _ _ | EvGetSnapshots _ _ | EvGetLimits _ _ _ => False
                    | _ => True
                    end) pre).
  { eapply Forall_impl; [exact Hpre|]. intros ev. destruct ev; simpl; tauto. }
  destruct (no_fetch_events (allTenants (c s')) pre Hpre') as (Hfv & Hfs & Hfl).
  eapply Forall2_impl; [exact Hall|].
  intros mt m (Hns & _ & tenant & Hseg & Hdata). split; [exact Hns|].
  exists tenant. split; [exact Hseg|]. rewrite Hdata. f_equal.
  unfold metricContainer, container_of. subst new.
  rewrite !foldl_app, Hfv, Hfs, Hfl, Hc', Hdir, Hs6, Hv6, Hl6, Hv4, Hsn4, Hc4, Hl3.
  reflexivity.
Qed.

End Reported.

(** * A request served from the caches *)

Section Cached.
Context `{D : Domain} {W : Type} {E : Env W}.

Local Abbreviation M := (@M D W).

Lemma plan_loop_Ok mts : forall p0,
  Forall (fun mt => 6 <= length (Namespace_ mt)) mts ->
  exists p, plan_loop mts p0 = Ok p.
Proof.
  induction mts as [|mt rest IH]; intros p0 Hlong; simpl; [now exists p0|].
  inversion Hlong as [|? ? Hmt Hrest]; subst.
  destruct (decide _) as [Hlt|_]; [lia|].
  destruct (Namespace_ mt !! 3) eqn:H3; [now apply IH|].
  apply lookup_ge_None in H3. lia.
Qed.

(* the loop of the limits phase over tenants that all have an entry *)
Lemma limits_loop_found cfg flag rem (s : State W) :
  Forall (fun t => is_Some (allLimits (c s) !! t)) rem ->
  limits_loop cfg flag rem s = (Ok tt, s).
Proof.
  induction 1 as [|tenant rest Hfound _ IH]; simpl; [reflexivity|].
  unfold bind at 1. simpl. rewrite bool_decide_eq_true_2 by exact Hfound.
  rewrite andb_false_r. unfold bind at 1. simpl. exact IH.
Qed.

Lemma projection_Ok mts : forall (s : State W),
  Forall (fun mt => 6 <= length (Namespace_ mt)) mts ->
  exists out s', projection mts s = (Ok out, s') /\
    c s' = c s /\ trace s' = trace s /\
    allSnapshots s' = allSnapshots s /\ allVolumes s' = allVolumes s /\
    Forall2 (fun mt m =>
               Namespace_ m = Namespace_ mt /\
               exists tenant,
                 Strings (Namespace_ mt) !! 3 = Some tenant /\
                 Data_ m = GetValueByNamespace (metricContainer s tenant)
                             (drop 4 (Strings (Namespace_ mt)))) mts out.
Proof.
  intros s Hlong. destruct (projection mts s) as [r s'] eqn:Hrun.
  pose proof (projection_no_panic _ _ _ _ Hlong Hrun) as Hnp.
  apply projection_effect in Hrun. destruct Hrun as (Hc & Ht & Hs & Hv & [->|(out & -> & Hall)]);
    [contradiction|].
  exists out, s'. repeat split; try assumption.
  eapply Forall2_impl; [exact Hall|]. intros mt m (Hn & _ & H). tauto.
Qed.

Lemma Forall2_with_left {X Y} (P : X -> Prop) (Q : X -> Y -> Prop) l k :
  Forall P l -> Forall2 Q l k -> Forall2 (fun x y => P x /\ Q x y) l k.
Proof.
  intros HP HQ. induction HQ as [|x y l k Hxy _ IH]; [constructor|].
  inversion HP; subst. constructor; [split; assumption | now apply IH].
Qed.

Lemma populate_tenants_listed first (s : State W) :
  allTenants (c s) <> ∅ -> populate_tenants first s = (Ok tt, s).
Proof.
  intros Hdir. unfold populate_tenants, bind at 1, get_c.
  destruct (decide (size (allTenants (c s)) = 0)) as [Hz|_]; [|reflexivity].
  apply map_size_empty_iff in Hz. contradiction.
Qed.

(* the admin phase with a session for the admin tenant and nothing to fetch *)
Lemma admin_phase_idle cfg admin p (s : State W) :
  is_Some (providers (c s) !! admin) ->
  collectVolumes p = false -> collectSnapshots p = false ->
  exists s', admin_phase cfg admin p s = (Ok tt, s') /\
    c s' = c s /\ trace s' = trace s /\
    allSnapshots s' = allSnapshots s /\ allVolumes s' = allVolumes s.
Proof.
  intros Hsession Hnv Hns. unfold admin_phase.
  rewrite (bind_Ok _ _ s tt s) by now apply authenticate_cached.
  rewrite Hnv, Hns. eexists. split; [reflexivity|]. repeat split.
Qed.

(* the limits phase when every tenant of the plan has an entry *)
Lemma limits_phase_found cfg p (s : State W) :
  (forall t, t ∈ collectTenants p -> is_Some (allLimits (c s) !! t)) ->
  exists s', limits_phase cfg p s = (Ok tt, s') /\
    c s' = c s /\ trace s' = trace s /\
    allSnapshots s' = allSnapshots s /\ allVolumes s' = allVolumes s.
Proof.
  intros Hcached. unfold limits_phase.
  unfold bind at 1. simpl. unfold bind at 1. simpl. unfold bind at 1. unfold Elements.
  match goal with |- context [pick_order ?n ?l ?st] =>
    destruct (pick_order_total n l st) as
      (tenants & s2 & -> & Hperm & Hc2 & Ht2 & He2 & Hd2 & Hs2 & Hv2); [lia|] end.
  simpl in Hc2, Ht2, He2, Hd2, Hs2, Hv2.
  rewrite limits_loop_found.
  2:{ apply Forall_forall. intros t Hin. rewrite Hc2. apply Hcached.
      rewrite Hperm in Hin. now apply elem_of_elements in Hin. }
  unfold bind at 1, Wait. rewrite Hd2. simpl.
  unfold close_and_receive. rewrite He2. simpl.
  exists s2. repeat split; assumption.
Qed.

(** X20.  A request for limits only, whose tenants all have an entry in the
    limits cache, on an engine that knows the directory and holds a session
    for the admin tenant, is served from the cache: the call returns
    normally, reaches no collaborator, launches no goroutine and leaves the
    collector as it was. *)
Theorem cached_limits_need_no_network first rest admin (s : State W) :
  Config_ first !! "tenant" = Some (CfgStr admin) ->
  allTenants (c s) <> ∅ ->
  is_Some (providers (c s) !! admin) ->
  Forall (fun mt => 6 <= length (Namespace_ mt) /\ wants_limits mt /\
                    forall t, Strings (Namespace_ mt) !! 3 = Some t ->
                              is_Some (allLimits (c s) !! t)) (first :: rest) ->
  exists out s',
    CollectMetrics (first :: rest) s = (Ok out, s') /\
    c s' = c s /\ trace s' = trace s /\
    Forall2 (fun mt m =>
               Namespace_ m = Namespace_ mt /\
               exists tenant limits,
                 Strings (Namespace_ mt) !! 3 = Some tenant /\
                 allLimits (c s) !! tenant = Some limits /\
                 Data_ m = GetValueByNamespace (zeroSnapshots, zeroVolumes, limits)
                             (drop 4 (Strings (Namespace_ mt)))) (first :: rest) out.
Proof.
  intros Hadmin Hdir Hsession Hall. set (mts := first :: rest) in *.
  assert (Hlong : Forall (fun mt => 6 <= length (Namespace_ mt)) mts)
    by (eapply Forall_impl; [exact Hall|]; simpl; tauto).
  destruct (plan_loop_Ok mts empty_plan Hlong) as [p Hplan].
  destruct (plan_loop_flags _ _ _ Hplan) as (_ & Hvol & Hsnap).
  assert (Hnv : collectVolumes p = false).
  { destruct (collectVolumes p); [|reflexivity]. exfalso.
    destruct (proj1 Hvol eq_refl) as [H|(mt & Hin & Hno & _)]; [discriminate|].
    rewrite Forall_forall in Hall. destruct (Hall mt Hin) as (_ & Hw & _). contradiction. }
  assert (Hns : collectSnapshots p = false).
  { destruct (collectSnapshots p); [|reflexivity]. exfalso.
    destruct (proj1 Hsnap eq_refl) as [H|(mt & Hin & Hno & _)]; [discriminate|].
    rewrite Forall_forall in Hall. destruct (Hall mt Hin) as (_ & Hw & _). contradiction. }
  assert (Hcached : forall t, t ∈ collectTenants p -> is_Some (allLimits (c s) !! t)).
  { intros t Hin. apply (plan_loop_tenants _ _ _ Hplan) in Hin.
    destruct Hin as [Hin|(mt & Hin & Hseg)]; [now apply not_elem_of_empty in Hin|].
    rewrite Forall_forall in Hall. destruct (Hall mt Hin) as (_ & _ & Hc). now apply Hc. }
  subst mts. rewrite CollectMetrics_cons.
  rewrite (bind_Ok _ _ s (CfgStr admin) s)
    by (unfold GetConfigItem; rewrite Hadmin; reflexivity).
  rewrite (bind_Ok _ _ s admin s) by reflexivity.
  rewrite (bind_Ok _ _ s tt s) by now apply populate_tenants_listed.
  rewrite (bind_Ok _ _ s p s) by (unfold lift_outcome; now rewrite Hplan).
  erewrite bind_Ok by reflexivity. erewrite bind_Ok by reflexivity.
  match goal with |- context [bind (admin_phase first admin p) _ ?st] =>
    destruct (admin_phase_idle first admin p st Hsession Hnv Hns)
      as (s5 & H5 & Hc5 & Ht5 & Hs5 & Hv5) end.
  rewrite (bind_Ok _ _ _ tt s5) by exact H5. simpl in Hc5, Ht5, Hs5, Hv5.
  destruct (limits_phase_found first p s5) as (s6 & H6 & Hc6 & Ht6 & Hs6 & Hv6).
  { intros t Hin. rewrite Hc5. now apply Hcached. }
  rewrite (bind_Ok _ _ _ tt s6) by exact H6.
  destruct (projection_Ok (first :: rest) s6 Hlong)
    as (out & s' & -> & Hc' & Ht' & _ & _ & Hout).
  exists out, s'. split; [reflexivity|]. split; [congruence|]. split; [congruence|].
  eapply Forall2_impl; [exact (Forall2_with_left _ _ _ _ Hall Hout)|].
  intros mt m [(_ & _ & Hmt) (Hn & tenant & Hseg & Hdata)]. split; [exact Hn|].
  destruct (Hmt tenant Hseg) as [limits Hlim]. exists tenant, limits.
  split; [exact Hseg|]. split; [exact Hlim|]. rewrite Hdata. f_equal.
  unfold metricContainer. rewrite Hs6, Hs5, Hv6, Hv5, Hc6, Hc5, Hlim. reflexivity.
Qed.

End Cached.

(** * What a call reads of its requests *)

Section Reads.
Context `{D : Domain} {W : Type} {E : Env W}.

Local Abbreviation M := (@M D W).

Lemma bind_ext {X Y} (m m' : M X) (k k' : X -> M Y) (s : State W) :
  m s = m' s -> (forall x s1, k x s1 = k' x s1) -> bind m k s = bind m' k' s.
Proof. intros Hm Hk. unfold bind. rewrite Hm. destruct (m' s) as [[x|e| |] s1]; auto. Qed.

Lemma credentials_ext (cfg cfg' : MetricType) :
  Config_ cfg' = Config_ cfg -> credentials cfg' = credentials cfg.
Proof.
  intros Hc. unfold credentials, optional_string, GetConfigItems, GetConfigItem.
  now rewrite Hc.
Qed.

Lemma authenticate_ext (cfg cfg' : MetricType) tenant (s : State W) :
  Config_ cfg' = Config_ cfg -> authenticate cfg' tenant s = authenticate cfg tenant s.
Proof. intros Hc. unfold authenticate. now rewrite (credentials_ext _ _ Hc). Qed.

Lemma populate_tenants_ext (cfg cfg' : MetricType) (s : State W) :
  Config_ cfg' = Config_ cfg -> populate_tenants cfg' s = populate_tenants cfg s.
Proof.
  intros Hc. unfold populate_tenants, getTenants. now rewrite (credentials_ext _ _ Hc).
Qed.

Lemma admin_phase_ext (cfg cfg' : MetricType) admin p (s : State W) :
  Config_ cfg' = Config_ cfg -> admin_phase cfg' admin p s = admin_phase cfg admin p s.
Proof.
  intros Hc. unfold admin_phase. apply bind_ext; [now apply authenticate_ext | reflexivity].
Qed.

Lemma limits_loop_ext (cfg cfg' : MetricType) flag tenants :
  Config_ cfg' = Config_ cfg ->
  forall s : State W, limits_loop cfg' flag tenants s = limits_loop cfg flag tenants s.
Proof.
  intros Hc. induction tenants as [|tenant rest IH]; intros s; simpl; [reflexivity|].
  apply bind_ext; [reflexivity|]. intros cur s1.
  apply bind_ext; [|intros _ s2; apply IH].
  destruct (flag && negb (bool_decide (is_Some (allLimits cur !! tenant)))); [|reflexivity].
  apply bind_ext; [now apply authenticate_ext | reflexivity].
Qed.

Lemma limits_phase_ext (cfg cfg' : MetricType) p (s : State W) :
  Config_ cfg' = Config_ cfg -> limits_phase cfg' p s = limits_phase cfg p s.
Proof.
  intros Hc. unfold limits_phase.
  apply bind_ext; [reflexivity|]. intros _ s1.
  apply bind_ext; [reflexivity|]. intros _ s2.
  apply bind_ext; [reflexivity|]. intros tenants s3.
  now rewrite (limits_loop_ext _ _ _ _ Hc).
Qed.

Lemma plan_loop_ext (mts mts' : list MetricType) :
  map Namespace_ mts' = map Namespace_ mts ->
  forall p0, plan_loop mts' p0 = plan_loop mts p0.
Proof.
  revert mts'. induction mts as [|mt rest IH]; intros [|mt' rest'] Hns p0;
    simpl in Hns; try discriminate; [reflexivity|].
  inversion Hns as [[Hmt Hrest]]. simpl. rewrite Hmt.
  destruct (decide _); [reflexivity|].
  destruct (Namespace_ mt !! 3); [|reflexivity]. now apply IH.
Qed.

Lemma projection_ext (mts mts' : list MetricType) :
  map Namespace_ mts' = map Namespace_ mts ->
  forall s : State W, projection mts' s = projection mts s.
Proof.
  revert mts'. induction mts as [|mt rest IH]; intros [|mt' rest'] Hns s;
    simpl in Hns; try discriminate; [reflexivity|].
  inversion Hns as [[Hmt Hrest]]. simpl. rewrite Hmt.
  destruct (Strings (Namespace_ mt) !! 3); [|reflexivity].
  apply bind_ext; [reflexivity|]. intros now s1.
  apply bind_ext; [now apply IH | reflexivity].
Qed.

(** X21.  A call reads the configuration of its first request only, and of
    every request the namespace only: two request lists with the same
    namespaces and the same configuration in the first request give the same
    result in the same state, whatever the configuration of the other
    requests and the data and timestamps of all of them. *)
Theorem CollectMetrics_reads_namespaces_and_first_configuration
    (mts mts' : list MetricType) (s : State W) :
  map Namespace_ mts' = map Namespace_ mts ->
  head (map Config_ mts') = head (map Config_ mts) ->
  CollectMetrics mts' s = CollectMetrics mts s.
Proof.
  intros Hns Hcfg. destruct mts as [|first rest], mts' as [|first' rest'];
    try discriminate; [reflexivity|].
  simpl in Hcfg. inversion Hcfg as [Hc].
  rewrite !CollectMetrics_cons.
  apply bind_ext; [unfold GetConfigItem; now rewrite Hc|]. intros item s1.
  apply bind_ext; [reflexivity|]. intros admin s2.
  apply bind_ext; [now apply populate_tenants_ext|]. intros _ s3.
  apply bind_ext; [unfold lift_outcome; now rewrite (plan_loop_ext _ _ Hns)|]. intros p s4.
  apply bind_ext; [reflexivity|]. intros _ s5.
  apply bind_ext; [reflexivity|]. intros _ s6.
  apply bind_ext; [now apply admin_phase_ext|]. intros _ s7.
  apply bind_ext; [now apply limits_phase_ext|]. intros _ s8.
  now apply projection_ext.
Qed.

End Reads.

(** * The properties on the concrete deployment *)

Import Scenario.

Lemma authenticate_twice_one_exchange_witness :
  let cfg := request "alpha" (ns "alpha" "volumes" "count") in
  let s1 := snd (authenticate cfg "alpha" fresh) in
  (exists cr provider,
     trace s1 = trace fresh ++
       [EvAuthenticate (endpoint cr) (user cr) (password cr) "alpha"
          (domain_name cr) (domain_id cr) (inr provider)] /\
     providers (c s1) !! "alpha" = Some provider) /\
  authenticate cfg "alpha" s1 = (Ok tt, s1).
Proof.
  intros cfg s1.
  apply (authenticate_twice_one_exchange cfg cfg "alpha" fresh s1); vm_compute; reflexivity.
Defined.

Lemma authenticate_failure_not_cached_witness :
  let cfg := request "alpha" (ns "locked" "limits" "maxVolumes") in
  exists s1,
    authenticate cfg "locked" fresh = (Err (ErrCollaborator "401"), s1) /\
    c s1 = c fresh /\
    trace s1 = trace fresh ++
      [EvAuthenticate "http://keystone" "u" "p" "locked" "" "" (inl (ErrCollaborator "401"))] /\
    exists r2 s2 answer,
      authenticate cfg "locked" s1 = (r2, s2) /\
      trace s2 = trace s1 ++
        [EvAuthenticate "http://keystone" "u" "p" "locked" "" "" answer].
Proof.
  intros cfg.
  apply (authenticate_failure_not_cached cfg "locked" fresh keystone (ErrCollaborator "401") 0);
    vm_compute; reflexivity.
Defined.



Lemma short_namespace_rejected_witness :
  let mts := [request "alpha" ["intel"; "openstack"; "cinder"; "alpha"]] in
  let run := CollectMetrics mts fresh in
  (forall out, fst run <> Ok out) /\
  exists new,
    trace (snd run) = trace fresh ++ new /\ length new <= 1 /\ Forall is_GetTenants new /\
    (allTenants (c fresh) <> ∅ -> new = []) /\
    (forall first rest admin,
        mts = first :: rest ->
        GetConfigItem first "tenant" = inr (CfgStr admin) ->
        allTenants (c fresh) <> ∅ \/
        (exists ep u pw dn di ts, EvGetTenants ep u pw dn di (inr ts) ∈ new) ->
        exists n, n < 6 /\ fst run = Err (ErrNamespaceLength n)).
Proof.
  intros mts run. apply (short_namespace_rejected mts fresh (fst run) (snd run)).
  - exists (request "alpha" ["intel"; "openstack"; "cinder"; "alpha"]).
    split; [left | vm_compute; lia].
  - vm_compute. reflexivity.
Defined.

(** A fresh engine and a request of 4 segments: the error is the
    namespace-length error, but the tenant directory was listed over the
    network before the request was looked at. *)
Lemma short_namespace_counterexample :
  let mts := [request "alpha" ["intel"; "openstack"; "cinder"; "alpha"]] in
  let run := CollectMetrics mts fresh in
  fst run = Err (ErrNamespaceLength 4) /\
  (exists ev, trace (snd run) = [ev] /\ is_GetTenants ev /\ is_network ev = true) /\
  ~ Forall (fun ev => is_network ev = false) (trace (snd run)).
Proof.
  intros mts run. split; [vm_compute; reflexivity|]. split.
  - eexists. split; [vm_compute; reflexivity|]. split; [exact I | reflexivity].
  - intros H. vm_compute in H. inversion H as [|ev evs Hev Hevs]. discriminate.
Qed.






Lemma admin_phase_all_or_nothing_witness :
  let mts := [request "broken" (ns "alpha" "volumes" "count");
              request "broken" (ns "alpha" "snapshots" "count")] in
  let run := CollectMetrics mts fresh in
  let new := trace (snd run) in
  (forall task, admin_task task -> EvGo task ∈ new ->
                exists ev, ev ∈ new /\ fetch_event_of task ev) /\
  (exists e ev, fst run = Err e /\ ev ∈ new /\ admin_fetch ev /\ e ∈ event_errors ev) /\
  allLimits (c (snd run)) = allLimits (c fresh).
Proof.
  intros mts run new.
  destruct (admin_phase_all_or_nothing mts fresh (fst run) (snd run) new)
    as [Hjoined Hfailed].
  - right. reflexivity.
  - vm_compute. reflexivity.
  - reflexivity.
  - split; [exact Hjoined|]. apply Hfailed.
    exists (EvGetVolumes (H := domain) "broken" ([], Some (ErrCollaborator "volumes"))).
    split; [apply list_elem_of_In; vm_compute; repeat (first [left; reflexivity | right])|].
    split; [exact I | discriminate].
Defined.

(** ** Two collection cycles of the deployment *)

(** The values are those of the fetchers; limits are fetched for every
    requested tenant, also for [alpha], of which only volumes were asked. *)
Example cycle_values :
  let run := CollectMetrics cycle fresh in
  (exists out, fst run = Ok out /\ map Data_ out = [Some 7; Some 50]) /\
  fetched (trace (snd run)) = ["alpha"; "beta"].
Proof.
  intros run. split; [eexists; split|]; vm_compute; reflexivity.
Qed.

(** A second cycle fetches no limits again. *)
Example second_cycle_fetches_nothing :
  fetched (trace (run_calls [cycle; cycle] fresh)) = ["alpha"; "beta"].
Proof. vm_compute. reflexivity. Qed.

(** ** The further properties on the deployment *)


Lemma CollectMetrics_no_panic_witness :
  fst (CollectMetrics cycle (run_calls [cycle] fresh)) <> Panic.
Proof.
  apply (CollectMetrics_no_panic [cycle] (request "alpha" (ns "alpha" "volumes" "count"))
           [request "alpha" (ns "beta" "limits" "maxVolumes")] fresh).
  - reflexivity.
  - intros name v Hin Hv. apply list_elem_of_In in Hin. simpl in Hin.
    destruct Hin as [<-|[<-|[<-|[<-|[<-|[<-|[]]]]]]]; vm_compute in Hv;
      inversion Hv; eexists; reflexivity.
Defined.

Lemma CollectMetrics_run_never_blocks_witness :
  fst (CollectMetrics cycle (run_calls [cycle] fresh)) <> Blocked.
Proof. apply (CollectMetrics_run_never_blocks [cycle] cycle fresh). reflexivity. Defined.


Lemma plan_tenants_are_segment_3_witness :
  let p := {| collectTenants := {["beta"]} ∪ ({["alpha"]} ∪ ∅);
              collectLimits := true; collectVolumes := true;
              collectSnapshots := false |} in
  "beta" ∈ collectTenants p <->
  exists mt, mt ∈ cycle /\ Strings (Namespace_ mt) !! 3 = Some "beta".
Proof.
  intros p. apply (plan_tenants_are_segment_3 cycle p). vm_compute. reflexivity.
Defined.

Lemma limits_cover_every_requested_tenant_witness :
  is_Some (allLimits (c cycled) !! "alpha").
Proof.
  apply (limits_cover_every_requested_tenant cycle fresh
           (match fst (CollectMetrics cycle fresh) with Ok out => out | _ => [] end) cycled)
    with (mt := request "alpha" (ns "alpha" "volumes" "count")).
  - right. reflexivity.
  - vm_compute. reflexivity.
  - exists (request "alpha" (ns "beta" "limits" "maxVolumes")).
    split; apply list_elem_of_In; vm_compute; tauto.
  - apply list_elem_of_In. vm_compute. tauto.
  - reflexivity.
Defined.

Lemma session_never_renewed_witness :
  providers (c (run_calls [cycle] cycled)) !! "alpha" = Some "alpha" /\
  exists new, trace (run_calls [cycle] cycled) = trace cycled ++ new /\
              Forall (fun ev => ~ is_exchange "alpha" ev) new.
Proof.
  apply (session_never_renewed (D := domain) "alpha" "alpha" [cycle] cycled).
  vm_compute. reflexivity.
Defined.

Lemma at_most_one_login_witness :
  let tr := trace (run_calls [cycle; cycle] fresh) in
  providers (c fresh) !! "alpha" = None /\
  Forall (fun ev => ~ is_exchange "alpha" ev) (drop 2 tr) /\
  providers (c (run_calls [cycle; cycle] fresh)) !! "alpha" = Some "alpha".
Proof.
  intros tr.
  apply (at_most_one_login (D := domain) [cycle; cycle] fresh (take 1 tr) (drop 2 tr)
           "http://keystone" "u" "p" "alpha" "" "" "alpha").
  vm_compute. reflexivity.
Defined.

Lemma limits_fetched_with_own_session_witness :
  providers (c (run_calls [cycle] fresh)) !! "beta" = Some "beta".
Proof.
  apply (limits_fetched_with_own_session (D := domain) [cycle] fresh
           (trace (run_calls [cycle] fresh)) "beta" "beta" (50, None)).
  - reflexivity.
  - apply list_elem_of_In. vm_compute. repeat (first [left; reflexivity | right]).
Defined.

Lemma service_of_last_login_witness :
  service (c (run_calls [cycle] fresh)) =
  match last_login (trace (run_calls [cycle] fresh)) with
  | Some provider => Some (Dispatch provider)
  | None => service (c fresh)
  end.
Proof.
  apply (service_of_last_login [cycle] fresh (trace (run_calls [cycle] fresh))).
  reflexivity.
Defined.

Lemma admin_fetches_with_admin_session_witness :
  providers (c cycled) !! "alpha" = Some "alpha".
Proof.
  apply (admin_fetches_with_admin_session
           (request "alpha" (ns "alpha" "volumes" "count"))
           [request "alpha" (ns "beta" "limits" "maxVolumes")] "alpha" fresh
           (fst (CollectMetrics cycle fresh)) cycled (trace cycled)
           (EvGetVolumes (H := domain) "alpha" ([("id-alpha", 7); ("id-beta", 3)], None))).
  - vm_compute. reflexivity.
  - vm_compute. reflexivity.
  - reflexivity.
  - apply list_elem_of_In. vm_compute. repeat (first [left; reflexivity | right]).
Defined.

Lemma cycled_listed : allTenants (c cycled) <> ∅.
Proof.
  intros H. assert (Hl : allTenants (c cycled) !! "id-alpha" = None)
    by (rewrite H; apply lookup_empty).
  vm_compute in Hl. discriminate.
Defined.

Lemma directory_never_refreshed_witness :
  allTenants (c (run_calls [cycle] cycled)) = allTenants (c cycled) /\
  exists new, trace (run_calls [cycle] cycled) = trace cycled ++ new /\
              Forall (fun ev => ~ is_GetTenants ev) new.
Proof. apply (directory_never_refreshed [cycle] cycled). exact cycled_listed. Defined.

Lemma GetMetricTypes_failure_empties_directory_witness :
  let s' := snd (GetMetricTypes no_password cycled) in
  allTenants (c s') = ∅ /\
  providers (c s') = providers (c cycled) /\ allLimits (c s') = allLimits (c cycled) /\
  service (c s') = service (c cycled) /\
  exists new, trace s' = trace cycled ++ new /\ length new <= 1 /\ Forall is_GetTenants new.
Proof.
  intros s'.
  apply (GetMetricTypes_failure_empties_directory no_password cycled
           (ErrConfigItem "password") s').
  vm_compute. reflexivity.
Defined.

Lemma GetMetricTypes_catalogue_witness :
  let run := GetMetricTypes catalogue_config fresh in
  let mts := match fst run with Ok mts => mts | _ => [] end in
  (exists cr,
     credentials (as_MetricType catalogue_config) = Ok cr /\
     trace (snd run) = trace fresh ++
       [EvGetTenants (endpoint cr) (user cr) (password cr)
          (domain_name cr) (domain_id cr) (inr (allTenants (c (snd run))))]) /\
  providers (c (snd run)) = providers (c fresh) /\
  allLimits (c (snd run)) = allLimits (c fresh) /\
  mts ≡ₚ map (catalogue_entry catalogue_config)
           (tenant_namespaces (map_to_list (allTenants (c (snd run))))).
Proof.
  intros run mts. apply (GetMetricTypes_catalogue catalogue_config fresh mts (snd run)).
  vm_compute. reflexivity.
Defined.

Lemma catalogue_entries_name_a_tenant_witness :
  let run := GetMetricTypes catalogue_config fresh in
  let mt := catalogue_entry catalogue_config "intel/openstack/cinder/gamma/snapshots/count" in
  Config_ mt = ConfigDataNode catalogue_config /\
  exists id tenantName path,
    allTenants (c (snd run)) !! id = Some tenantName /\
    Strings (Namespace_ mt) =
      ["intel"; "openstack"; "cinder"] ++
      Split (String.append tenantName (String slash path)) slash /\
    (free_of slash tenantName -> Strings (Namespace_ mt) !! 3 = Some tenantName).
Proof.
  intros run mt.
  apply (catalogue_entries_name_a_tenant catalogue_config fresh
           (match fst run with Ok mts => mts | _ => [] end) (snd run) mt).
  - intros current namespace Hin. apply list_elem_of_In in Hin. simpl in Hin.
    destruct Hin as [<-|[<-|[<-|[]]]]; eexists; reflexivity.
  - vm_compute. reflexivity.
  - apply list_elem_of_In. vm_compute. left. reflexivity.
Defined.

Lemma fetched_counts_filed_by_name_witness :
  (exists s1, store_volumes [("id-alpha", 7); ("id-beta", 3)] cycled = (Ok tt, s1) /\
              allVolumes s1 !! display_name (allTenants (c cycled)) "id-beta" = Some 3) /\
  (exists s2, store_snapshots [("id-beta", 2); ("id-alpha", 1)] cycled = (Ok tt, s2) /\
              allSnapshots s2 !! display_name (allTenants (c cycled)) "id-beta" = Some 2).
Proof.
  apply (fetched_counts_filed_by_name (D := domain) cycled "id-beta"
           [("id-alpha", 7)] [] 3 [] [("id-alpha", 1)] 2).
  - intros e He. now apply not_elem_of_nil in He.
  - intros e He. apply list_elem_of_singleton in He. subst e. vm_compute. discriminate.
Defined.

Lemma CollectMetrics_reports_fetches_witness :
  let out := match fst (CollectMetrics cycle fresh) with Ok out => out | _ => [] end in
  Forall2 (fun mt m =>
             Namespace_ m = Namespace_ mt /\
             exists tenant,
               Strings (Namespace_ mt) !! 3 = Some tenant /\
               Data_ m = GetValueByNamespace
                           (container_of (allTenants (c cycled)) (allLimits (c fresh))
                              (trace cycled) tenant)
                           (drop 4 (Strings (Namespace_ mt))))
          cycle out.
Proof.
  intros out. apply (CollectMetrics_reports_fetches cycle fresh out cycled (trace cycled)).
  - vm_compute. reflexivity.
  - reflexivity.
Defined.

Lemma cached_limits_need_no_network_witness :
  let mts := [request "alpha" (ns "beta" "limits" "maxVolumes")] in
  exists out s',
    CollectMetrics mts cycled = (Ok out, s') /\
    c s' = c cycled /\ trace s' = trace cycled /\
    Forall2 (fun mt m =>
               Namespace_ m = Namespace_ mt /\
               exists tenant limits,
                 Strings (Namespace_ mt) !! 3 = Some tenant /\
                 allLimits (c cycled) !! tenant = Some limits /\
                 Data_ m = GetValueByNamespace (zeroSnapshots, zeroVolumes, limits)
                             (drop 4 (Strings (Namespace_ mt)))) mts out.
Proof.
  intros mts.
  apply (cached_limits_need_no_network (request "alpha" (ns "beta" "limits" "maxVolumes"))
           [] "alpha" cycled).
  - vm_compute. reflexivity.
  - exact cycled_listed.
  - vm_compute. eexists. reflexivity.
  - constructor; [|constructor]. split; [vm_compute; lia|]. split.
    + apply list_elem_of_In. vm_compute. tauto.
    + intros t Ht. vm_compute in Ht. inversion Ht; subst t. vm_compute. eexists. reflexivity.
Defined.

Lemma failed_GetMetricTypes_forces_new_listing_witness :
  let s1 := snd (GetMetricTypes no_password cycled) in
  let s2 := snd (CollectMetrics cycle s1) in
  exists answer new,
    trace s2 = trace s1 ++ EvGetTenants "http://keystone" "u" "p" "" "" answer :: new.
Proof.
  intros s1 s2.
  apply (failed_GetMetricTypes_forces_new_listing no_password cycled
           (ErrConfigItem "password") s1
           (request "alpha" (ns "alpha" "volumes" "count"))
           [request "alpha" (ns "beta" "limits" "maxVolumes")] "alpha" keystone
           (fst (CollectMetrics cycle s1)) s2).
  - vm_compute. reflexivity.
  - vm_compute. reflexivity.
  - vm_compute. reflexivity.
  - vm_compute. reflexivity.
Defined.

Lemma CollectMetrics_reads_namespaces_and_first_configuration_witness :
  CollectMetrics [request "alpha" (ns "alpha" "volumes" "count"); bare_request] fresh =
  CollectMetrics cycle fresh.
Proof.
  apply (CollectMetrics_reads_namespaces_and_first_configuration cycle
           [request "alpha" (ns "alpha" "volumes" "count"); bare_request] fresh);
    reflexivity.
Defined.
